(** * LiteLLM ClawRouter: the router and the intercepting proxy

    A shallow embedding of [src/router.js] and [src/proxy.js].

    Conventions of the embedding.
    - Text that travels through the program (prompts, request bodies, JSON
      strings) is a JavaScript string: a list of UTF-16 code units ([N]).
    - Object keys and identifiers that the source writes as ASCII literals
      (dimension names, tier names, model identifiers) are Rocq strings.
    - JavaScript numbers are computed with exact rationals ([Q]); every
      constant is the decimal that the source writes.  The one place where
      the source leaves the rationals, [Math.exp] in the confidence of a
      weighted decision, is kept as the closed form it is computed from. *)

From Stdlib Require Import QArith Lqa ZArith NArith Ascii String.
From Stdlib Require Import DecimalString.
From Stdlib Require DecimalFacts DecimalPos Sorted.
From Stdlib Require Import Floats.PrimFloat.
From stdpp Require Import gmap strings list.

Set Warnings "-inexact-float,-register-all".

(** ** JavaScript strings *)

Module JsString.

(** The code units of an ASCII literal. *)
Definition js (s : string) : list N :=
  map (fun c => N_of_ascii c) (list_ascii_of_string s).

Definition in_range (lo hi c : N) : bool := (lo <=? c)%N && (c <=? hi)%N.

(** [\d], [\w] and [\s] of ECMAScript regular expressions (no [u] flag). *)
Definition is_digit (c : N) : bool := in_range 48 57 c.

Definition is_word (c : N) : bool :=
  in_range 97 122 c || in_range 65 90 c || is_digit c || (c =? 95)%N.

Definition is_space (c : N) : bool :=
  in_range 9 13 c || (c =? 32)%N || (c =? 0xA0)%N || (c =? 0x1680)%N
  || in_range 0x2000 0x200A c || (c =? 0x2028)%N || (c =? 0x2029)%N
  || (c =? 0x202F)%N || (c =? 0x205F)%N || (c =? 0x3000)%N || (c =? 0xFEFF)%N.

(** Line terminators, which [.] does not match. *)
Definition is_line_terminator (c : N) : bool :=
  (c =? 10)%N || (c =? 13)%N || (c =? 0x2028)%N || (c =? 0x2029)%N.

(** Canonicalize of a case-insensitive pattern without the [u] flag: the
    upper case of a code unit, except that a unit of 128 or more never
    folds into ASCII.  The table is exact on every unit whose canonical
    form is the canonical form of a unit that occurs in a case-insensitive
    pattern of [PATTERNS] (ASCII letters; the Cyrillic letters, with the
    old-style variants U+1C80..U+1C85 that share their upper case); on the
    other units it is the identity, which leaves every match unchanged. *)
Definition canonicalize (c : N) : N :=
  if in_range 97 122 c then (c - 32)%N
  else if in_range 0x430 0x44F c then (c - 0x20)%N
  else if in_range 0x450 0x45F c then (c - 0x50)%N
  else if (c =? 0x1C80)%N then 0x412%N
  else if (c =? 0x1C81)%N then 0x414%N
  else if (c =? 0x1C82)%N then 0x41E%N
  else if (c =? 0x1C83)%N then 0x421%N
  else if (c =? 0x1C84)%N || (c =? 0x1C85)%N then 0x422%N
  else c.

(** [Buffer.byteLength(s)]: the length of the UTF-8 encoding.  A surrogate
    pair encodes one code point in 4 bytes; a lone surrogate is written as
    U+FFFD, 3 bytes. *)
Fixpoint byteLength (s : list N) : nat :=
  match s with
  | [] => 0
  | c :: s' =>
      if (c <? 0x80)%N then 1 + byteLength s'
      else if (c <? 0x800)%N then 2 + byteLength s'
      else if in_range 0xD800 0xDBFF c then
        match s' with
        | d :: s'' =>
            if in_range 0xDC00 0xDFFF d then 4 + byteLength s''
            else 3 + byteLength s'
        | [] => 3
        end
      else 3 + byteLength s'
  end.

End JsString.

Import JsString.

(** ** Regular expressions

    The fragment of ECMAScript regular expressions that the pattern table
    and [split] use: single code units, concatenation, alternation, the
    star of a character class, and the word-boundary assertion.  Only
    [RegExp.prototype.test] is needed, so a match is the existence of an
    end position and greediness is not observable. *)

Module RegExp.

Inductive regex : Type :=
| Eps                          (* the empty pattern *)
| Unit (p : N -> bool)         (* one code unit of a class *)
| Cat (a b : regex)
| Alt (a b : regex)
| Many (p : N -> bool)         (* [p*] *)
| WordB.                       (* [\b] *)

(** A position in the input: the unit before it, and what is left. *)
Definition pos : Type := option N * list N.

Definition word_before (st : pos) : bool :=
  match st.1 with Some c => is_word c | None => false end.

Definition word_after (st : pos) : bool :=
  match st.2 with c :: _ => is_word c | [] => false end.

Fixpoint many (p : N -> bool) (prev : option N) (s : list N) : list pos :=
  (prev, s) ::
  match s with
  | c :: s' => if p c then many p (Some c) s' else []
  | [] => []
  end.

(** All positions at which a match of [r] that starts at [st] can end. *)
Fixpoint run (r : regex) (st : pos) : list pos :=
  match r with
  | Eps => [st]
  | Unit p =>
      match st.2 with
      | c :: s' => if p c then [(Some c, s')] else []
      | [] => []
      end
  | Cat a b => flat_map (run b) (run a st)
  | Alt a b => run a st ++ run b st
  | Many p => many p st.1 st.2
  | WordB => if xorb (word_before st) (word_after st) then [st] else []
  end.

Definition matches_at (r : regex) (st : pos) : bool :=
  match run r st with [] => false | _ :: _ => true end.

(** The unanchored search of [test]: try every start position in turn. *)
Fixpoint search (r : regex) (prev : option N) (s : list N) : bool :=
  matches_at r (prev, s) ||
  match s with
  | c :: s' => search r (Some c) s'
  | [] => false
  end.

Definition test (r : regex) (s : list N) : bool := search r None s.

(** *** Building patterns *)

Definition void : regex := Unit (fun _ => false).

Definition seq (l : list regex) : regex := fold_right Cat Eps l.

Definition alts (l : list regex) : regex := fold_right Alt void l.

Definition plus (p : N -> bool) : regex := Cat (Unit p) (Many p).

(** A literal, unit by unit; [_i] under the [i] flag. *)
Definition units (l : list N) : regex :=
  seq (map (fun c => Unit (N.eqb c)) l).

Definition units_i (l : list N) : regex :=
  seq (map (fun c => Unit (fun d => (canonicalize d =? canonicalize c)%N)) l).

Definition lit (s : string) : regex := units (js s).
Definition lit_i (s : string) : regex := units_i (js s).

(** A class given by its members, as in [[- ]]. *)
Definition one_of (s : string) : N -> bool :=
  fun c => existsb (N.eqb c) (js s).

Definition words (l : list string) : regex := alts (map lit l).
Definition words_i (l : list string) : regex := alts (map lit_i l).

End RegExp.

Import RegExp.

(** ** The router ([src/router.js]) *)

Module Router.

Open Scope Q_scope.

(** The four values of [decision.tier]. *)
Inductive Tier : Type := SIMPLE | MEDIUM | COMPLEX | REASONING.

(** The property name a tier is looked up under. *)
Definition tier_key (t : Tier) : string :=
  match t with
  | SIMPLE => "SIMPLE"
  | MEDIUM => "MEDIUM"
  | COMPLEX => "COMPLEX"
  | REASONING => "REASONING"
  end.

Definition DEFAULT_TIER_MODELS : gmap string string :=
  <["REASONING" := "deepseek/deepseek-reasoner"]>
  (<["COMPLEX" := "anthropic/claude-sonnet-4"]>
  (<["MEDIUM" := "deepseek/deepseek-chat"]>
  (<["SIMPLE" := "gemini/gemini-2.0-flash"]> ∅))).

(** [Object.entries(WEIGHTS)], in the order of the source. *)
Definition WEIGHTS : list (string * Q) :=
  [ ("reasoning", 0.20); ("code", 0.18); ("simple", 0.10);
    ("multiStep", 0.10); ("technical", 0.10); ("tokenCount", 0.08);
    ("creative", 0.05); ("questionComplexity", 0.04);
    ("constraints", 0.04); ("imperative", 0.04); ("outputFormat", 0.03);
    ("domain", 0.02); ("reference", 0.01); ("negation", 0.01) ].



(** [\b( ... )\b] and [\b( ... )]. *)
Definition bounded (r : regex) : regex := seq [WordB; r; WordB].
Definition leading (r : regex) : regex := seq [WordB; r].

Definition any_unit : N -> bool := fun _ => true.
Definition dot : N -> bool := fun c => negb (is_line_terminator c).
Definition ascii_letter (c : N) : bool := in_range 97 122 c || in_range 65 90 c.

Definition reasoning_patterns : list regex :=
  [ bounded (words_i ["prove"; "theorem"; "proof"; "derive"; "deduce";
                      "infer"; "logic"; "reasoning"]);
    bounded (alts [ seq [lit_i "step"; Unit (one_of "- "); lit_i "by";
                         Unit (one_of "- "); lit_i "step"];
                    lit_i "think through"; lit_i "work through";
                    lit_i "explain why" ]);
    alts (map units [ [0x56E0; 0x4E3A]; [0x6240; 0x4EE5]; [0x8BC1; 0x660E];
                      [0x63A8; 0x7406]; [0x5B9A; 0x7406] ]%N);
    alts (map units [ [0x306A; 0x305C]; [0x8A3C; 0x660E];
                      [0x7406; 0x7531] ]%N);
    leading (alts (map units_i
      [ [0x434; 0x43E; 0x43A; 0x430; 0x437; 0x430; 0x442; 0x44C];
        [0x442; 0x435; 0x43E; 0x440; 0x435; 0x43C; 0x430];
        [0x432; 0x44B; 0x432; 0x43E; 0x434] ]%N)) ].

Definition code_patterns : list regex :=
  [ bounded (words ["function"; "async"; "await"; "import"; "export";
                    "const"; "let"; "var"; "class"; "interface"]);
    seq [lit "```"; Many any_unit; lit "```"];
    bounded (words ["def "; "return "; "if __name__"; "lambda"]);
    bounded (words_i ["SELECT"; "INSERT"; "UPDATE"; "DELETE"; "FROM";
                      "WHERE"]);
    seq [Unit (one_of "{}();"); Many dot; Unit (one_of "{}();")];
    seq [lit "<"; Unit ascii_letter; Many (fun c => negb (c =? 62)%N);
         lit ">"];
    seq [WordB; lit "import"; plus is_space; plus is_word; plus is_space;
         lit "from"; WordB] ].

Definition simple_patterns : list regex :=
  [ bounded (words_i ["what is"; "what's"; "define"; "meaning of";
                      "translate"; "convert"]);
    bounded (words_i ["who is"; "when was"; "where is"; "how many"]);
    leading (alts (map units_i
      [ [0x4EC0; 0x4E48; 0x662F]; [0x662F; 0x4EC0; 0x4E48];
        [0x7FFB; 0x8BD1]; [0x5B9A; 0x4E49] ]%N));
    leading (alts (map units_i
      [ [0x3068; 0x306F]; [0x610F; 0x5473]; [0x7FFB; 0x8A33] ]%N)) ].

Definition multiStep_patterns : list regex :=
  [ leading (alts [ lit_i "first"; lit_i "then"; lit_i "next";
                    lit_i "after that"; lit_i "finally";
                    seq [lit_i "step "; Unit is_digit] ]);
    leading (words ["1."; "2."; "3."]);
    leading (alts [ lit_i "phase"; lit_i "stage";
                    seq [lit_i "part "; Unit is_digit] ]) ].

Definition technical_patterns : list regex :=
  [ bounded (words_i ["algorithm"; "kubernetes"; "docker"; "terraform";
                      "nginx"; "redis"]);
    bounded (words_i ["distributed"; "microservice"; "scalable";
                      "concurrent"; "async"]);
    bounded (words_i ["api"; "sdk"; "rest"; "graphql"; "grpc";
                      "websocket"]);
    bounded (words_i ["oauth"; "jwt"; "authentication"; "authorization"]) ].

Definition creative_patterns : list regex :=
  [ bounded (words_i ["write a story"; "poem"; "creative"; "brainstorm";
                      "imagine"]);
    bounded (words_i ["fiction"; "narrative"; "character"; "plot"]) ].

Definition constraints_patterns : list regex :=
  [ bounded (words_i ["at most"; "at least"; "maximum"; "minimum";
                      "no more than"]);
    seq [WordB; lit "O(";
         plus (fun c => one_of "nN^logL" c || is_digit c); lit ")"];
    bounded (words_i ["constraint"; "limit"; "bound"; "restriction"]) ].

Definition imperative_patterns : list regex :=
  [ bounded (words_i ["build"; "create"; "implement"; "develop"; "design";
                      "write"; "make"]);
    bounded (words_i ["fix"; "debug"; "optimize"; "refactor"; "improve"]) ].

Definition outputFormat_patterns : list regex :=
  [ bounded (words_i ["json"; "yaml"; "xml"; "csv"; "markdown"; "html"]);
    bounded (words_i ["schema"; "format"; "structure"; "template"]) ].

Definition domain_patterns : list regex :=
  [ bounded (words_i ["quantum"; "genomics"; "bioinformatics"; "fpga";
                      "verilog"]);
    bounded (words_i ["machine learning"; "neural network"; "transformer";
                      "llm"]) ].

Definition reference_patterns : list regex :=
  [ bounded (words_i ["the docs"; "the documentation"; "the api";
                      "the code above"]);
    bounded (words_i ["as mentioned"; "as shown"; "see above";
                      "referenced"]) ].

Definition negation_patterns : list regex :=
  [ bounded (words_i ["don't"; "do not"; "avoid"; "without"; "never";
                      "shouldn't"]);
    leading (alts (map units_i
      [ [0x4E0D; 0x8981]; [0x7981; 0x6B62]; [0x907F; 0x514D] ]%N)) ].

(** [Object.entries(PATTERNS)], in the order of the source. *)
Definition PATTERNS : list (string * list regex) :=
  [ ("reasoning", reasoning_patterns); ("code", code_patterns);
    ("simple", simple_patterns); ("multiStep", multiStep_patterns);
    ("technical", technical_patterns); ("creative", creative_patterns);
    ("constraints", constraints_patterns);
    ("imperative", imperative_patterns);
    ("outputFormat", outputFormat_patterns); ("domain", domain_patterns);
    ("reference", reference_patterns); ("negation", negation_patterns) ].

(** *** Numbers *)

Definition Qltb (a b : Q) : bool :=
  (Qnum a * QDen b <? Qnum b * QDen a)%Z.

Definition Math_min (a b : Q) : Q := if Qle_bool a b then a else b.

Definition of_nat (n : nat) : Q := inject_Z (Z.of_nat n).

(** [x > q], where [x] was read from an object: a missing property is
    [undefined], and the comparison is then false. *)
Definition gt (x : option Q) (q : Q) : bool :=
  match x with
  | Some v => Qltb q v
  | None => false
  end.

(** [x || 0], where [x] was read from an object. *)
Definition or_zero (x : option Q) : Q :=
  match x with
  | Some v => if Qeq_bool v 0 then 0 else v
  | None => 0
  end.

(** *** scoreDimensions

    The source also computes [prompt.toLowerCase()] and does not use it;
    it matters only in that it throws when the prompt is not a string,
    which the proxy accounts for. *)

(** [prompt.split(/\s+/)]: the pieces between the maximal runs of white
    space; [sep] tells that the unit before was white space. *)
Fixpoint pieces (sep : bool) (s : list N) : list (list N) :=
  match s with
  | [] => [[]]
  | c :: s' =>
      if is_space c then
        if sep then pieces true s' else [] :: pieces true s'
      else
        match pieces false s' with
        | p :: ps => (c :: p) :: ps
        | [] => [[c]]
        end
  end.

Definition split_ws (s : list N) : list (list N) := pieces false s.

Definition tokenCount (prompt : list N) : nat := length (split_ws prompt).

(** The number of patterns of a dimension that match. *)
Definition count_matches (patterns : list regex) (prompt : list N) : nat :=
  length (filter (fun r => test r prompt = true) patterns).

(** [(prompt.match(/\?/g) || []).length] *)
Definition questionMarks (prompt : list N) : nat :=
  length (filter (fun c => c = 63%N) prompt).

Definition pattern_score (patterns : list regex) (prompt : list N) : Q :=
  Math_min (of_nat (count_matches patterns prompt) / of_nat (length patterns)) 1.0.

Definition tokenCount_score (n : nat) : Q :=
  if (n <? 50)%nat then 0.2
  else if (500 <? n)%nat then 0.9
  else 0.5 + (of_nat n - 50) / 900.

Definition scoreDimensions (prompt : list N) : gmap string Q :=
  let scores : gmap string Q :=
    fold_left (fun scores '(dim, patterns) =>
                 <[dim := pattern_score patterns prompt]> scores)
              PATTERNS ∅ in
  let scores := <["tokenCount" := tokenCount_score (tokenCount prompt)]> scores in
  <["questionComplexity" := Math_min (of_nat (questionMarks prompt) / 3) 1.0]> scores.

(** *** route *)

Inductive method_t : Type := rules | weighted.

(** A confidence is the constant of the override rule, or the number
    [1 / (1 + Math.exp(-10 * (weightedSum - 0.5)))], kept as the weighted
    sum it is computed from. *)
Inductive confidence_t : Type :=
| Const (q : Q)
| Logistic (weightedSum : Q).

(** The decision object; an absent property is [None]. *)
Record decision : Type := Decision {
  tier : Tier;
  model : option string;
  confidence : confidence_t;
  weightedScore : option Q;
  method : method_t;
  scores : gmap string Q
}.

Record options : Type := Options { tierModels : option (gmap string string) }.

(** The default value [{}] of the second parameter. *)
Definition no_options : options := {| tierModels := None |}.

Definition weightedSum (scores : gmap string Q) : Q :=
  fold_left (fun sum '(dim, weight) => sum + or_zero (scores !! dim) * weight)
            WEIGHTS 0.

Definition reasoningMatches (prompt : list N) : nat :=
  count_matches reasoning_patterns prompt.

Definition route (prompt : list N) (opts : options) : decision :=
  let tierModels := default DEFAULT_TIER_MODELS (tierModels opts) in
  let scores := scoreDimensions prompt in
  let weightedSum := weightedSum scores in
  let confidence := Logistic weightedSum in
  let reasoningMatches := reasoningMatches prompt in
  if (2 <=? reasoningMatches)%nat then
    {| tier := REASONING;
       model := tierModels !! "REASONING";
       confidence := Const 0.97;
       weightedScore := None;
       method := rules;
       scores := scores |}
  else
    let hasStrongCode :=
      gt (scores !! "code") 0.3 || gt (scores !! "technical") 0.3 in
    let hasStrongImperative :=
      gt (scores !! "imperative") 0.3
      && (gt (scores !! "code") 0.1 || gt (scores !! "technical") 0.1) in
    let tier :=
      if Qltb weightedSum 0.20 && negb hasStrongCode && negb hasStrongImperative
      then SIMPLE
      else if gt (scores !! "reasoning") 0.5 || (1 <=? reasoningMatches)%nat
      then REASONING
      else if Qltb weightedSum 0.40 && negb hasStrongImperative
      then MEDIUM
      else COMPLEX in
    {| tier := tier;
       model := tierModels !! tier_key tier;
       confidence := confidence;
       weightedScore := Some weightedSum;
       method := weighted;
       scores := scores |}.

(** *** Costs *)

Record rates : Type := Rates { input : Q; output : Q }.

Definition MODEL_COSTS : gmap string rates :=
  <["anthropic/claude-opus-4" := Rates 15.00 75.00]>
  (<["openai/gpt-4o" := Rates 2.50 10.00]>
  (<["openai/gpt-4o-mini" := Rates 0.15 0.60]>
  (<["deepseek/deepseek-reasoner" := Rates 0.55 2.19]>
  (<["anthropic/claude-sonnet-4" := Rates 3.00 15.00]>
  (<["deepseek/deepseek-chat" := Rates 0.14 0.28]>
  (<["gemini/gemini-2.0-flash" := Rates 0.10 0.40]> ∅)))))).

(** The property names that every object inherits from [Object.prototype]:
    [MODEL_COSTS[model]] is then a function or an object without [input]
    and [output], and the cost is [NaN]. *)
Definition inherited_keys : list string :=
  [ "constructor"; "hasOwnProperty"; "isPrototypeOf";
    "propertyIsEnumerable"; "toLocaleString"; "toString"; "valueOf";
    "__proto__"; "__defineGetter__"; "__defineSetter__";
    "__lookupGetter__"; "__lookupSetter__" ].

(** A cost, or [None] for [NaN]. *)
Definition estimateCost (model : string) (inputTokens outputTokens : Q) : option Q :=
  match MODEL_COSTS !! model with
  | Some costs =>
      Some (inputTokens / 1000000 * input costs + outputTokens / 1000000 * output costs)
  | None =>
      if bool_decide (model ∈ inherited_keys) then None
      else Some (inputTokens / 1000000 * 1.00 + outputTokens / 1000000 * 5.00)
  end.

(** A fraction saved, or [None] for [NaN]. *)
Definition estimateSavings (routedModel baselineModel : string)
    (inputTokens outputTokens : Q) : option Q :=
  let routedCost := estimateCost routedModel inputTokens outputTokens in
  let baselineCost := estimateCost baselineModel inputTokens outputTokens in
  match baselineCost with
  | Some b =>
      if Qltb 0 b then
        match routedCost with
        | Some r => Some ((b - r) / b)
        | None => None
        end
      else Some 0
  | None => Some 0
  end.

(** The call with one argument: the parameters take their defaults. *)
Definition estimateSavings_default (routedModel : string) : option Q :=
  estimateSavings routedModel "anthropic/claude-opus-4" 1000 500.

End Router.

(** ** JSON values, [JSON.parse] and [JSON.stringify]

    A number is an integer of magnitude at most 2^53, which is exactly a
    double that [JSON.stringify] prints as a plain run of digits, or it is
    kept as its literal: for a literal with a fraction, an exponent or a
    larger magnitude the double is not computed, and the text that
    [JSON.stringify] prints for it is left to the engine. *)

Module Json.

Inductive value : Type :=
| Undefined
| Null
| Bool (b : bool)
| Num (n : Z)
| Number (literal : list N)
| Str (s : list N)
| Arr (l : list value)
| Obj (fields : list (list N * value)).

(** What a parser answers; [Exhausted] is the end of its budget. *)
Inductive result (A : Type) : Type :=
| Parsed (a : A)
| SyntaxError
| Exhausted.

Arguments Parsed {A} a.
Arguments SyntaxError {A}.
Arguments Exhausted {A}.

(** *** Objects: own properties in the order of [OrdinaryOwnPropertyKeys] *)

Fixpoint digits_value (acc : N) (s : list N) : option N :=
  match s with
  | [] => Some acc
  | c :: s' =>
      if is_digit c then digits_value (acc * 10 + (c - 48))%N s' else None
  end.

(** An array index is a canonical numeral below 2^32 - 1. *)
Definition array_index (k : list N) : option N :=
  match k with
  | [] => None
  | c :: s' =>
      if (c =? 48)%N && negb (bool_decide (s' = [])) then None
      else if (10 <? length k)%nat then None
      else match digits_value 0 k with
           | Some n => if (n <? 4294967295)%N then Some n else None
           | None => None
           end
  end.

Fixpoint get (k : list N) (fields : list (list N * value)) : option value :=
  match fields with
  | [] => None
  | (k', v) :: fields' => if bool_decide (k = k') then Some v else get k fields'
  end.

Fixpoint replace (k : list N) (v : value) (fields : list (list N * value))
  : list (list N * value) :=
  match fields with
  | [] => []
  | (k', v') :: fields' =>
      if bool_decide (k = k') then (k, v) :: fields'
      else (k', v') :: replace k v fields'
  end.

(** A new index goes before the first key that is a larger index or not an
    index at all. *)
Fixpoint insert_index (i : N) (k : list N) (v : value)
    (fields : list (list N * value)) : list (list N * value) :=
  match fields with
  | [] => [(k, v)]
  | (k', v') :: fields' =>
      match array_index k' with
      | Some j =>
          if (j <? i)%N then (k', v') :: insert_index i k v fields'
          else (k, v) :: fields
      | None => (k, v) :: fields
      end
  end.

(** [obj[k] = v] on an ordinary object. *)
Definition set (k : list N) (v : value) (fields : list (list N * value))
  : list (list N * value) :=
  match get k fields with
  | Some _ => replace k v fields
  | None =>
      match array_index k with
      | Some i => insert_index i k v fields
      | None => fields ++ [(k, v)]
      end
  end.

(** *** JSON.stringify *)

Definition hex_digit (n : N) : N :=
  if (n <? 10)%N then (48 + n)%N else (87 + n)%N.

(** [\uXXXX], in lower case. *)
Definition unicode_escape (c : N) : list N :=
  js "\u" ++ [ hex_digit (c / 4096 mod 16); hex_digit (c / 256 mod 16);
               hex_digit (c / 16 mod 16); hex_digit (c mod 16) ]%N.

Definition is_high_surrogate (c : N) : bool := in_range 0xD800 0xDBFF c.
Definition is_low_surrogate (c : N) : bool := in_range 0xDC00 0xDFFF c.

Definition quote_unit (c : N) : list N :=
  if (c =? 34)%N then [92; 34]%N
  else if (c =? 92)%N then js "\\"
  else if (c =? 8)%N then js "\b"
  else if (c =? 9)%N then js "\t"
  else if (c =? 10)%N then js "\n"
  else if (c =? 12)%N then js "\f"
  else if (c =? 13)%N then js "\r"
  else if (c <? 32)%N then unicode_escape c
  else [c].

(** The body of QuoteJSONString; a surrogate that is not part of a pair is
    escaped. *)
Fixpoint quote_units (s : list N) : list N :=
  match s with
  | [] => []
  | c :: s' =>
      if is_high_surrogate c then
        match s' with
        | d :: s'' =>
            if is_low_surrogate d then c :: d :: quote_units s''
            else unicode_escape c ++ quote_units s'
        | [] => unicode_escape c
        end
      else if is_low_surrogate c then unicode_escape c ++ quote_units s'
      else quote_unit c ++ quote_units s'
  end.

Definition quote (s : list N) : list N := [34%N] ++ quote_units s ++ [34%N].

Definition number_to_string (n : Z) : list N :=
  match n with
  | Z0 => js "0"
  | Zpos p => js (NilEmpty.string_of_uint (Pos.to_uint p))
  | Zneg p => js "-" ++ js (NilEmpty.string_of_uint (Pos.to_uint p))
  end.

Section Stringify.

(** [Number::toString] of the double that a number literal denotes. *)
Variable Number_toString : list N -> list N.

(** SerializeJSONProperty without indentation.  In an array [undefined]
    is written [null]; in an object a property whose value is [undefined]
    is left out. *)
Fixpoint serialize (v : value) : list N :=
  match v with
  | Undefined => js "null"
  | Null => js "null"
  | Bool true => js "true"
  | Bool false => js "false"
  | Num n => number_to_string n
  | Number literal => Number_toString literal
  | Str s => quote s
  | Arr l =>
      js "[" ++
      (fix elements (l : list value) : list N :=
         match l with
         | [] => []
         | [x] => serialize x
         | x :: l' => serialize x ++ js "," ++ elements l'
         end) l ++
      js "]"
  | Obj fields =>
      js "{" ++
      (fix members (first : bool) (fields : list (list N * value)) : list N :=
         match fields with
         | [] => []
         | (_, Undefined) :: fields' => members first fields'
         | (k, x) :: fields' =>
             (if first then [] else js ",") ++ quote k ++ js ":" ++
             serialize x ++ members false fields'
         end) true fields ++
      js "}"
  end.

(** [JSON.stringify(v)]; [None] is the result [undefined]. *)
Definition JSON_stringify (v : value) : option (list N) :=
  match v with
  | Undefined => None
  | _ => Some (serialize v)
  end.

End Stringify.

(** *** JSON.parse *)

(** White space of the JSON grammar: tab, line feed, carriage return and
    space. *)
Definition is_json_space (c : N) : bool :=
  (c =? 9)%N || (c =? 10)%N || (c =? 13)%N || (c =? 32)%N.

Fixpoint skip_ws (s : list N) : list N :=
  match s with
  | c :: s' => if is_json_space c then skip_ws s' else s
  | [] => []
  end.

Definition hex_value (c : N) : option N :=
  if is_digit c then Some (c - 48)%N
  else if in_range 97 102 c then Some (c - 87)%N
  else if in_range 65 70 c then Some (c - 55)%N
  else None.

Definition hex4 (a b c d : N) : option N :=
  match hex_value a, hex_value b, hex_value c, hex_value d with
  | Some x, Some y, Some z, Some w => Some (((x * 16 + y) * 16 + z) * 16 + w)%N
  | _, _, _, _ => None
  end.

Definition escape_value (c : N) : option N :=
  if (c =? 34)%N then Some 34%N            (* quotation mark *)
  else if (c =? 92)%N then Some 92%N       (* reverse solidus *)
  else if (c =? 47)%N then Some 47%N       (* solidus *)
  else if (c =? 98)%N then Some 8%N        (* b: backspace *)
  else if (c =? 102)%N then Some 12%N      (* f: form feed *)
  else if (c =? 110)%N then Some 10%N      (* n: line feed *)
  else if (c =? 114)%N then Some 13%N      (* r: carriage return *)
  else if (c =? 116)%N then Some 9%N       (* t: tab *)
  else None.

(** Puts a unit in front of the string that a continuation parsed. *)
Definition cons_unit (u : N) (r : result (list N * list N))
  : result (list N * list N) :=
  match r with
  | Parsed (str, rest) => Parsed (u :: str, rest)
  | SyntaxError => SyntaxError
  | Exhausted => Exhausted
  end.

(** The units of a string literal, after its opening quote. *)
Fixpoint parse_string (s : list N) : result (list N * list N) :=
  match s with
  | [] => SyntaxError
  | c :: s' =>
      if (c =? 34)%N then Parsed ([], s')
      else if (c <? 32)%N then SyntaxError
      else if (c =? 92)%N then
        match s' with
        | e :: s'' =>
            if (e =? 117)%N then
              match s'' with
              | h1 :: h2 :: h3 :: h4 :: rest =>
                  match hex4 h1 h2 h3 h4 with
                  | Some u => cons_unit u (parse_string rest)
                  | None => SyntaxError
                  end
              | _ => SyntaxError
              end
            else
              match escape_value e with
              | Some u => cons_unit u (parse_string s'')
              | None => SyntaxError
              end
        | [] => SyntaxError
        end
      else cons_unit c (parse_string s')
  end.

Fixpoint take_digits (acc : N) (s : list N) : N * list N :=
  match s with
  | c :: s' =>
      if is_digit c then take_digits (acc * 10 + (c - 48))%N s' else (acc, s)
  | [] => (acc, [])
  end.

Fixpoint skip_digits (s : list N) : list N :=
  match s with
  | c :: s' => if is_digit c then skip_digits s' else s
  | [] => []
  end.

(** One digit at least; what follows the digits. *)
Definition digits1 (s : list N) : option (list N) :=
  match s with
  | c :: s' => if is_digit c then Some (skip_digits s') else None
  | [] => None
  end.

(** The optional fraction of a number literal: whether there is one, and
    what follows it; [None] when a point is not followed by a digit. *)
Definition lex_fraction (s : list N) : option (bool * list N) :=
  match s with
  | c :: s' =>
      if (c =? 46)%N then
        match digits1 s' with
        | Some rest => Some (true, rest)
        | None => None
        end
      else Some (false, s)
  | [] => Some (false, [])
  end.

(** The optional exponent of a number literal. *)
Definition lex_exponent (s : list N) : option (bool * list N) :=
  match s with
  | c :: s' =>
      if (c =? 101)%N || (c =? 69)%N then
        let s'' :=
          match s' with
          | d :: t => if (d =? 43)%N || (d =? 45)%N then t else s'
          | [] => []
          end in
        match digits1 s'' with
        | Some rest => Some (true, rest)
        | None => None
        end
      else Some (false, s)
  | [] => Some (false, [])
  end.

Fixpoint strip_prefix (p s : list N) : option (list N) :=
  match p, s with
  | [], _ => Some s
  | a :: p', b :: s' => if (a =? b)%N then strip_prefix p' s' else None
  | _ :: _, [] => None
  end.

Definition parse_literal (s : list N) : result (value * list N) :=
  match strip_prefix (js "true") s with
  | Some rest => Parsed (Bool true, rest)
  | None =>
      match strip_prefix (js "false") s with
      | Some rest => Parsed (Bool false, rest)
      | None =>
          match strip_prefix (js "null") s with
          | Some rest => Parsed (Null, rest)
          | None => SyntaxError
          end
      end
  end.

(** A number literal, after its sign.  The integer part is one zero or
    starts with another digit. *)
Definition parse_number (negative : bool) (s : list N)
  : result (value * list N) :=
  match s with
  | c :: s' =>
      if is_digit c then
        let '(n, rest) :=
          if (c =? 48)%N then (0%N, s') else take_digits 0 s in
        match lex_fraction rest with
        | None => SyntaxError
        | Some (fraction, rest1) =>
            match lex_exponent rest1 with
            | None => SyntaxError
            | Some (exponent, rest2) =>
                if fraction || exponent || (9007199254740992 <? n)%N then
                  Parsed (Number ((if negative then [45%N] else [])
                                  ++ take (length s - length rest2) s),
                          rest2)
                else
                  Parsed (Num (if negative then - Z.of_N n else Z.of_N n),
                          rest2)
            end
        end
      else SyntaxError
  | [] => SyntaxError
  end.

(** One value and what follows it.  The recursion is on a budget: of two
    nested calls at least one consumes a unit first, and [JSON_parse] gives
    twice the length of the text.  A budget that is used up is answered
    with [Exhausted]. *)
Fixpoint parse_value (fuel : nat) (s : list N) : result (value * list N) :=
  match fuel with
  | O => Exhausted
  | S fuel =>
      match skip_ws s with
      | [] => SyntaxError
      | c :: s' =>
          if (c =? 123)%N then                      (* { *)
            match skip_ws s' with
            | d :: s'' =>
                if (d =? 125)%N then Parsed (Obj [], s'')
                else parse_members fuel [] (d :: s'')
            | [] => SyntaxError
            end
          else if (c =? 91)%N then                  (* [ *)
            match skip_ws s' with
            | d :: s'' =>
                if (d =? 93)%N then Parsed (Arr [], s'')
                else parse_elements fuel [] (d :: s'')
            | [] => SyntaxError
            end
          else if (c =? 34)%N then
            match parse_string s' with
            | Parsed (str, rest) => Parsed (Str str, rest)
            | SyntaxError => SyntaxError
            | Exhausted => Exhausted
            end
          else if (c =? 45)%N then parse_number true s'
          else if is_digit c then parse_number false (c :: s')
          else parse_literal (c :: s')
      end
  end

(** The members of an object from its first key on; [acc] holds the
    properties defined so far. *)
with parse_members (fuel : nat) (acc : list (list N * value)) (s : list N)
  : result (value * list N) :=
  match fuel with
  | O => Exhausted
  | S fuel =>
      match skip_ws s with
      | c :: s' =>
          if (c =? 34)%N then
            match parse_string s' with
            | Parsed (k, rest) =>
                match skip_ws rest with
                | d :: rest1 =>
                    if (d =? 58)%N then               (* : *)
                      match parse_value fuel rest1 with
                      | Parsed (v, rest2) =>
                          let acc := set k v acc in
                          match skip_ws rest2 with
                          | e :: rest3 =>
                              if (e =? 44)%N then parse_members fuel acc rest3
                              else if (e =? 125)%N then Parsed (Obj acc, rest3)
                              else SyntaxError
                          | [] => SyntaxError
                          end
                      | SyntaxError => SyntaxError
                      | Exhausted => Exhausted
                      end
                    else SyntaxError
                | [] => SyntaxError
                end
            | SyntaxError => SyntaxError
            | Exhausted => Exhausted
            end
          else SyntaxError
      | [] => SyntaxError
      end
  end

(** The elements of an array from its first element on; [acc] holds the
    elements read so far, last first. *)
with parse_elements (fuel : nat) (acc : list value) (s : list N)
  : result (value * list N) :=
  match fuel with
  | O => Exhausted
  | S fuel =>
      match parse_value fuel s with
      | Parsed (v, rest) =>
          match skip_ws rest with
          | e :: rest1 =>
              if (e =? 44)%N then parse_elements fuel (v :: acc) rest1
              else if (e =? 93)%N then Parsed (Arr (rev (v :: acc)), rest1)
              else SyntaxError
          | [] => SyntaxError
          end
      | SyntaxError => SyntaxError
      | Exhausted => Exhausted
      end
  end.

(** [JSON.parse(text)] *)
Definition JSON_parse (text : list N) : result value :=
  match parse_value (S (2 * length text)) text with
  | Parsed (v, rest) =>
      match skip_ws rest with
      | [] => Parsed v
      | _ :: _ => SyntaxError
      end
  | SyntaxError => SyntaxError
  | Exhausted => Exhausted
  end.

End Json.

(** ** The intercepting proxy ([src/proxy.js]) *)

Module Proxy.

Import Router Json.

(** *** Requests, responses and what the callbacks see *)

Record request : Type := Request {
  req_method : list N;
  req_url : list N;
  req_headers : gmap string (list N);
  (** the text collected from the [data] events *)
  req_body : list N
}.

(** The fields of [new URL(...)] that the proxy reads. *)
Record url : Type := Url {
  protocol : list N;
  hostname : list N;
  port : list N;
  host : list N;
  pathname : list N;
  search : list N
}.

(** The options and the body handed to [httpModule.request]. *)
Record upstream_request : Type := UpstreamRequest {
  up_hostname : list N;
  up_port : list N;
  up_path : list N;
  up_method : list N;
  up_headers : gmap string (list N);
  up_body : list N
}.

(** What the upstream connection does: it emits [error], or it answers. *)
Inductive upstream_result : Type :=
| Failed (message : list N)
| Answered (status : Z) (headers : gmap string (list N)) (body : list N).

Record response : Type := Response {
  status : Z;
  headers : gmap string (list N);
  body : list N
}.

(** The exceptions that the handler can meet. *)
Inductive error : Type :=
| JsonSyntaxError (text : list N)                  (* thrown by JSON.parse *)
| ReadOfNullish (of_value : value) (property : string)
| InvalidUrl (input base : list N).               (* thrown by new URL *)

(** The argument of [onRouted]. *)
Record routed : Type := Routed {
  originalModel : value;
  routedModel : option string;
  routed_tier : Tier;
  routed_confidence : confidence_t;
  savings : option Q;
  promptPreview : list N
}.

Inductive event : Type :=
| OnRouted (info : routed)
| OnError (e : error)
| ConsoleLog (t : Tier) (model : option string) (savings : option Q)
| ConsoleError (message : list N).

(** The options of [startProxy] that the request listener closes over;
    a hook is present or not. *)
Record config : Type := Config {
  litellmBaseUrl : list N;
  litellmApiKey : list N;
  cfg_tierModels : option (gmap string string);
  onRouted : bool;
  onError : bool
}.

(** How the handling of one request ends.  [OutsideModel] stands for the
    one case that the embedding does not follow: a [messages] object whose
    [length] property is a string, an array, an object or a number kept as
    its literal, which the comparison with 0 would convert to a number. *)
Inductive outcome : Type :=
| Direct (r : response)                            (* answered by the proxy *)
| Forwarded (up : upstream_request) (r : response) (* sent upstream *)
| Uncaught (e : error)         (* the exception leaves the request listener *)
| OutsideModel.

Definition json_headers : gmap string (list N) :=
  {[ "Content-Type" := js "application/json" ]}.

Fixpoint is_prefix (p s : list N) : bool :=
  match p, s with
  | [], _ => true
  | a :: p', b :: s' => (a =? b)%N && is_prefix p' s'
  | _ :: _, [] => false
  end.

(** [s.includes(needle)] *)
Fixpoint includes (needle s : list N) : bool :=
  is_prefix needle s ||
  match s with
  | _ :: s' => includes needle s'
  | [] => false
  end.

(** [s.replace(/\/$/, '')] *)
Fixpoint strip_trailing_slash (s : list N) : list N :=
  match s with
  | [] => []
  | [c] => if (c =? 47)%N then [] else [c]
  | c :: s' => c :: strip_trailing_slash s'
  end.

(** *** Reading parsed values *)

(** [v[k]] for the keys that the handler reads ([model], [messages],
    [content], [length] and array indices); [None] when [v] is [null] or
    [undefined] and the read throws. *)
Definition read (v : value) (k : list N) : option value :=
  match v with
  | Undefined | Null => None
  | Obj fields => Some (default Undefined (get k fields))
  | Arr l =>
      if bool_decide (k = js "length") then Some (Num (Z.of_nat (length l)))
      else match array_index k with
           | Some i => Some (default Undefined (l !! N.to_nat i))
           | None => Some Undefined
           end
  | Str s =>
      if bool_decide (k = js "length") then Some (Num (Z.of_nat (length s)))
      else match array_index k with
           | Some i =>
               Some (match s !! N.to_nat i with
                     | Some c => Str [c]
                     | None => Undefined
                     end)
           | None => Some Undefined
           end
  | Bool _ | Num _ | Number _ => Some Undefined
  end.

(** [originalModel === 'auto' || ... ] *)
Definition isAutoRoute (originalModel : value) : bool :=
  match originalModel with
  | Str s =>
      bool_decide (s = js "auto") || bool_decide (s = js "litellm/auto")
      || bool_decide (s = js "litellm-clawrouter/auto")
  | _ => false
  end.

(** [messages?.length] as the number that [> 0] compares: [Some None] is
    [undefined], which is not greater than any number; [None] is a
    [length] whose conversion to a number is not followed (a string, an
    array, an object, or a number kept as its literal). *)
Definition optional_length (messages : value) : option (option Z) :=
  match messages with
  | Undefined | Null => Some None
  | _ =>
      match read messages (js "length") with
      | Some (Num n) => Some (Some n)
      | Some (Bool b) => Some (Some (if b then 1 else 0)%Z)
      | Some Null => Some (Some 0%Z)
      | Some Undefined => Some None
      | _ => None
      end
  end.

(** A step of the handler: a value, an exception, or a conversion that is
    not followed. *)
Inductive attempt (A : Type) : Type :=
| Done (a : A)
| Throws (e : error)
| Beyond.

Arguments Done {A} a.
Arguments Throws {A} e.
Arguments Beyond {A}.

#[global] Instance attempt_bind : MBind attempt := fun A B f x =>
  match x with
  | Done a => f a
  | Throws e => Throws e
  | Beyond => Beyond
  end.

(** [v.k], which throws on [null] and [undefined]. *)
Definition read_property (v : value) (k : string) : attempt value :=
  match read v (js k) with
  | Some x => Done x
  | None => Throws (ReadOfNullish v k)
  end.

(** [v[v.length - 1]], where [v.length] converts to [n]. *)
Definition read_last (v : value) (n : Z) : attempt value :=
  match read v (number_to_string (n - 1)) with
  | Some x => Done x
  | None => Throws (ReadOfNullish v "length")
  end.

(** [payload.model = x]; the payload is an object when this runs. *)
Definition assign_model (payload : value) (x : option string) : value :=
  match payload with
  | Obj fields =>
      Obj (set (js "model")
               (match x with Some m => Str (js m) | None => Undefined end)
               fields)
  | _ => payload
  end.

(** What the engine and the platform supply. *)
Record runtime : Type := Runtime {
  (** [err.message]: the text that the engine gives to an exception *)
  message : error -> list N;
  (** [new URL(input, base)]; [None] when it throws *)
  URL : list N -> list N -> option url;
  (** [Number::toString] of the double that a number literal denotes *)
  Number_toString : list N -> list N
}.

Section Listener.

Variable rt : runtime.

Variable cfg : config.

(** [JSON.stringify(v)] for a value that is not [undefined], with the
    number formatting of the engine. *)
Definition stringify (v : value) : list N := serialize (Number_toString rt) v.

Definition baseUrl : list N := strip_trailing_slash (litellmBaseUrl cfg).

(** The destructuring default of [startProxy]. *)
Definition tierModels : gmap string string :=
  default DEFAULT_TIER_MODELS (cfg_tierModels cfg).

Definition bad_gateway (details : list N) : response :=
  {| status := 502;
     headers := json_headers;
     body := stringify (Obj [ (js "error", Str (js "Bad gateway"));
                              (js "details", Str details) ]) |}.

(** The two listeners on the upstream request: a response is piped to the
    client, an [error] is answered with 502. *)
Definition settle (reply : upstream_result) : list event * response :=
  match reply with
  | Failed msg => ([ConsoleError msg], bad_gateway msg)
  | Answered st h b => ([], {| status := st; headers := h; body := b |})
  end.

Definition forwarded_headers (req : request) (u : url) : gmap string (list N) :=
  <["authorization" := js "Bearer " ++ litellmApiKey cfg]>
  (<["host" := host u]> (req_headers req)).

Definition target_port (u : url) : list N :=
  match port u with
  | [] => if bool_decide (protocol u = js "https:") then js "443" else js "80"
  | _ :: _ => port u
  end.

Definition proxyRequestWithBody (req : request) (body : list N)
    (reply : upstream_result)
  : attempt (list event * upstream_request * response) :=
  match URL rt (req_url req) baseUrl with
  | None => Throws (InvalidUrl (req_url req) baseUrl)
  | Some u =>
      let up :=
        {| up_hostname := hostname u;
           up_port := target_port u;
           up_path := pathname u ++ search u;
           up_method := req_method req;
           up_headers :=
             <["content-length" := number_to_string (Z.of_nat (byteLength body))]>
             (forwarded_headers req u);
           up_body := body |} in
      let '(events, r) := settle reply in
      Done (events, up, r)
  end.

(** The pass-through: the client's body is piped as it is. *)
Definition proxyRequest (req : request) (reply : upstream_result)
  : attempt (list event * upstream_request * response) :=
  match URL rt (req_url req) baseUrl with
  | None => Throws (InvalidUrl (req_url req) baseUrl)
  | Some u =>
      let up :=
        {| up_hostname := hostname u;
           up_port := target_port u;
           up_path := pathname u ++ search u;
           up_method := req_method req;
           up_headers := forwarded_headers req u;
           up_body := req_body req |} in
      let '(events, r) := settle reply in
      Done (events, up, r)
  end.

(** The branch taken when [isAutoRoute && payload.messages?.length > 0]:
    the events it produces and the payload after [payload.model = ...].
    A prompt that is [undefined] makes [scoreDimensions] throw at
    [prompt.toLowerCase()]. *)
Definition auto_route (payload originalModel messages : value) (n : Z)
  : attempt (list event * value) :=
  lastMessage ← read_last messages n;
  content ← read_property lastMessage "content";
  prompt ← match content with
            | Str s => Done s
            | _ =>
                match JSON_stringify (Number_toString rt) content with
                | Some s => Done s
                | None => Throws (ReadOfNullish Undefined "toLowerCase")
                end
            end;
  let decision := route prompt {| Router.tierModels := Some tierModels |} in
  let payload := assign_model payload (model decision) in
  let savings := estimateSavings_default (default "undefined" (model decision)) in
  Done ((if onRouted cfg
         then [OnRouted {| originalModel := originalModel;
                           routedModel := model decision;
                           routed_tier := tier decision;
                           routed_confidence := confidence decision;
                           savings := savings;
                           promptPreview := take 100 prompt |}]
         else [])
        ++ [ConsoleLog (tier decision) (model decision) savings],
        payload).

(** The [try] block up to [JSON.stringify(payload)]. *)
Definition prepare (text : list N) : attempt (list event * value) :=
  match JSON_parse text with
  | Exhausted => Beyond
  | SyntaxError => Throws (JsonSyntaxError text)
  | Parsed payload =>
      originalModel ← read_property payload "model";
      if isAutoRoute originalModel then
        messages ← read_property payload "messages";
        match optional_length messages with
        | None => Beyond
        | Some None => Done ([], payload)
        | Some (Some n) =>
            if (0 <? n)%Z then auto_route payload originalModel messages n
            else Done ([], payload)
        end
      else Done ([], payload)
  end.

(** The [catch] block. *)
Definition caught (events : list event) (e : error) : list event * outcome :=
  (events ++ (if onError cfg then [OnError e] else []),
   Direct {| status := 500;
             headers := json_headers;
             body := stringify (Obj [ (js "error", Str (message rt e)) ]) |}).

(** The call [proxyRequestWithBody(..., newBody)] at the end of the [try]
    block, after the given events: the request goes upstream, unless the
    call throws and the [catch] block answers. *)
Definition forward (req : request) (reply : upstream_result)
    (events : list event) (newBody : list N) : list event * outcome :=
  match proxyRequestWithBody req newBody reply with
  | Done (events', up, r) => (events ++ events', Forwarded up r)
  | Throws e => caught events e
  | Beyond => (events, OutsideModel)
  end.

(** The listener of [end] on a POST to the completions endpoint.  The new
    body is [JSON.stringify(payload)]; the payload comes from [JSON.parse]
    and is not [undefined]. *)
Definition on_end (req : request) (reply : upstream_result)
  : list event * outcome :=
  match prepare (req_body req) with
  | Beyond => ([], OutsideModel)
  | Throws e => caught [] e
  | Done (events, payload) =>
      let newBody := stringify payload in
      forward req reply events newBody
  end.

Definition health : response :=
  {| status := 200;
     headers := json_headers;
     body := stringify (Obj [ (js "status", Str (js "ok"));
                              (js "version", Str (js "1.0.0")) ]) |}.

(** The request listener of [http.createServer]. *)
Definition listener (req : request) (reply : upstream_result)
  : list event * outcome :=
  if bool_decide (req_url req = js "/health") then ([], Direct health)
  else if negb (bool_decide (req_method req = js "POST"))
          || negb (includes (js "/chat/completions") (req_url req)) then
    match proxyRequest req reply with
    | Done (events, up, r) => (events, Forwarded up r)
    | Throws e => ([], Uncaught e)
    | Beyond => ([], OutsideModel)
    end
  else on_end req reply.

End Listener.

End Proxy.

(** ** Starting the proxy ([startProxy] of [src/proxy.js])

    The options are texts or absent; what [server.listen] and the probe of
    a port in use meet is given from outside. *)

Module Server.

Import Json Proxy.

Definition DEFAULT_PORT : Z := 8401.

(** A port: a number, or the text of an environment variable. *)
Inductive port_t : Type :=
| PortNumber (n : Z)
| PortText (s : list N).

(** The options object: an absent property is [None]; a hook is present or
    not. *)
Record options : Type := Options {
  port : option port_t;
  litellmBaseUrl : option (list N);
  litellmApiKey : option (list N);
  tierModels : option (gmap string string);
  onReady : bool;
  onRouted : bool;
  onError : bool
}.

(** [!s] for a text or [undefined]. *)
Definition missing (s : option (list N)) : bool :=
  match s with
  | Some (_ :: _) => false
  | _ => true
  end.

(** [process.env.LITELLM_CLAWROUTER_PORT || DEFAULT_PORT] *)
Definition default_port (env : option (list N)) : port_t :=
  match env with
  | Some (c :: s) => PortText (c :: s)
  | _ => PortNumber DEFAULT_PORT
  end.

(** A port inside a template literal. *)
Definition port_text (p : port_t) : list N :=
  match p with
  | PortNumber n => number_to_string n
  | PortText s => s
  end.

Definition proxyUrl (p : port_t) : list N :=
  js "http://localhost:" ++ port_text p.

(** What [server.listen] comes to: the server listens, or it emits [error]
    with a code. *)
Inductive listen_result : Type :=
| Listening
| ListenError (code : list N).

(** What the probe of the port comes to: the request emits [error], or the
    response ends with the text collected from it. *)
Inductive probe_result : Type :=
| ProbeError
| ProbeEnd (data : list N).

(** What the promise resolves to, without [close]. *)
Record handle : Type := Handle {
  handle_port : port_t;
  handle_baseUrl : list N;
  reused : bool
}.

Inductive start_event : Type :=
| Log (text : list N)
| HttpGet (target : list N)
| OnReady (p : port_t).

Inductive promise : Type :=
| Resolved (h : handle)
| Rejected (message : list N)     (* a new Error with this message *)
| RejectedWith (code : list N).   (* the error of the server itself *)

Definition in_use (p : port_t) : list N :=
  js "Port " ++ port_text p ++ js " is in use by another service".

(** The [try] block of the probe: whether [JSON.parse(data).status] is
    ['ok']; an exception is swallowed by [catch {}]. *)
Definition compatible (data : list N) : bool :=
  match JSON_parse data with
  | Parsed health =>
      match read health (js "status") with
      | Some (Str s) => bool_decide (s = js "ok")
      | _ => false
      end
  | _ => false
  end.

(** What the request listener closes over. *)
Definition listener_config (o : options) : config :=
  {| Proxy.litellmBaseUrl := default [] (litellmBaseUrl o);
     Proxy.litellmApiKey := default [] (litellmApiKey o);
     cfg_tierModels := tierModels o;
     Proxy.onRouted := onRouted o;
     Proxy.onError := onError o |}.

Definition startProxy (o : options) (env : option (list N))
    (listen : listen_result) (probe : probe_result)
  : list start_event * promise :=
  let port := default (default_port env) (port o) in
  if missing (litellmBaseUrl o) then
    ([], Rejected (js "litellmBaseUrl is required"))
  else if missing (litellmApiKey o) then
    ([], Rejected (js "litellmApiKey is required"))
  else
    match listen with
    | Listening =>
        ((if onReady o then [OnReady port] else []),
         Resolved {| handle_port := port;
                     handle_baseUrl := proxyUrl port;
                     reused := false |})
    | ListenError code =>
        if bool_decide (code = js "EADDRINUSE") then
          let checking :=
            [ Log (js "Port " ++ port_text port
                   ++ js " in use, checking if existing proxy is compatible...");
              HttpGet (proxyUrl port ++ js "/health") ] in
          match probe with
          | ProbeEnd data =>
              if compatible data then
                (checking ++ [Log (js "Reusing existing LiteLLM ClawRouter proxy")],
                 Resolved {| handle_port := port;
                             handle_baseUrl := proxyUrl port;
                             reused := true |})
              else (checking, Rejected (in_use port))
          | ProbeError => (checking, Rejected (in_use port))
          end
        else ([], RejectedWith code)
    end.

End Server.

(** ** The test command ([testRouting] of [bin/cli.js]) *)

Module Cli.

Import Router.

(** [Object.entries(decision.scores)]: the scores in the order in which
    scoreDimensions defines them. *)
Definition score_entries (prompt : list N) : list (string * Q) :=
  map (fun '(dim, patterns) => (dim, pattern_score patterns prompt)) PATTERNS
  ++ [ ("tokenCount", tokenCount_score (tokenCount prompt));
       ("questionComplexity",
        Math_min (of_nat (questionMarks prompt) / 3) 1.0) ].

(** One step of a stable sort by [(a, b) => b[1] - a[1]]: the entry goes
    before the first entry that is not larger. *)
Fixpoint insert_desc (x : string * Q) (l : list (string * Q))
  : list (string * Q) :=
  match l with
  | [] => [x]
  | y :: l' => if Qltb x.2 y.2 then y :: insert_desc x l' else x :: l
  end.

(** [l.sort((a, b) => b[1] - a[1])]; the sort of an array is stable. *)
Definition sort_desc (l : list (string * Q)) : list (string * Q) :=
  fold_right insert_desc [] l.

(** The five entries that the command prints. *)
Definition topScores (entries : list (string * Q)) : list (string * Q) :=
  take 5 (sort_desc (filter (fun e => Qltb 0 e.2 = true) entries)).

(** What the command prints. *)
Record report : Type := Report {
  preview : list N;
  report_tier : Tier;
  report_model : option string;
  report_confidence : confidence_t;
  report_savings : option Q;
  report_scores : list (string * Q)
}.

(** [testRouting(message)], with the tier map of the stored configuration,
    if there is one; [None] is the exit with the usage line. *)
Definition testRouting (message : list N)
    (tierModels : option (gmap string string)) : option report :=
  match message with
  | [] => None
  | _ :: _ =>
      let decision := route message {| Router.tierModels := tierModels |} in
      let savings :=
        estimateSavings_default (default "undefined" (model decision)) in
      Some {| preview :=
                take 80 message
                ++ (if (80 <? length message)%nat then js "..." else []);
              report_tier := tier decision;
              report_model := model decision;
              report_confidence := confidence decision;
              report_savings := savings;
              report_scores := topScores (score_entries message) |}
  end.

(** *** The setup wizard *)

(** [Object.entries(DEFAULT_TIER_MODELS)] of the command, which keeps a
    table of its own. *)
Definition DEFAULT_TIER_MODELS : list (string * string) :=
  [ ("SIMPLE", "gemini/gemini-2.0-flash");
    ("MEDIUM", "deepseek/deepseek-chat");
    ("COMPLEX", "anthropic/claude-sonnet-4");
    ("REASONING", "deepseek/deepseek-reasoner") ].

(** The tier map that the wizard stores: a copy of the defaults, in which
    the trimmed answer to the question for a tier, when it is not empty,
    replaces the model of that tier. *)
Definition wizard_tierModels (answer : string -> string)
  : gmap string string :=
  fold_left (fun tierModels '(tier, defaultModel) =>
               let input := answer tier in
               if bool_decide (input = EmptyString) then tierModels
               else <[tier := input]> tierModels)
            DEFAULT_TIER_MODELS
            (list_to_map DEFAULT_TIER_MODELS).

(** [generateConfig(apiKey, baseUrl, tierModels, proxyPort)]; only the port
    enters the result. *)
Definition generateConfig (apiKey baseUrl : list N)
    (tierModels : gmap string string) (proxyPort : list N) : Json.value :=
  let field (k : string) (v : Json.value) := (js k, v) in
  let text (s : string) := Json.Str (js s) in
  Json.Obj
    [ field "models"
        (Json.Obj
           [ field "mode" (text "merge");
             field "providers"
               (Json.Obj
                  [ field "litellm-clawrouter"
                      (Json.Obj
                         [ field "baseUrl"
                             (Json.Str (js "http://localhost:" ++ proxyPort
                                        ++ js "/v1"));
                           field "apiKey" (text "local-proxy");
                           field "api" (text "openai-responses");
                           field "models"
                             (Json.Arr
                                [ Json.Obj
                                    [ field "id" (text "auto");
                                      field "name" (text "Auto (Smart Routing)");
                                      field "reasoning" (Json.Bool false);
                                      field "input"
                                        (Json.Arr [text "text"; text "image"]);
                                      field "cost"
                                        (Json.Obj
                                           [ field "input" (Json.Num 0);
                                             field "output" (Json.Num 0);
                                             field "cacheRead" (Json.Num 0);
                                             field "cacheWrite" (Json.Num 0) ]);
                                      field "contextWindow" (Json.Num 128000);
                                      field "maxTokens" (Json.Num 16384) ] ]) ]) ]) ]);
      field "agents"
        (Json.Obj
           [ field "defaults"
               (Json.Obj
                  [ field "model"
                      (Json.Obj
                         [ field "primary" (text "litellm-clawrouter/auto") ]) ]) ]) ].

(** What [if (!obj[k]) obj[k] = {}] leaves in [obj[k]]: an object with
    these properties; a primitive value that is not falsy, on which an
    assignment to a property does nothing; or an array or a number kept as
    its literal, which the embedding does not follow. *)
Inductive slot : Type :=
| Fields (sub : list (list N * Json.value))
| Primitive
| Strange.

(** [if (!obj[k]) obj[k] = {}]: the properties of [obj] afterwards, and
    what [obj[k]] is. *)
Definition ensure (k : list N) (fields : list (list N * Json.value))
  : list (list N * Json.value) * slot :=
  let fresh := (Json.set k (Json.Obj []) fields, Fields []) in
  match default Json.Undefined (Json.get k fields) with
  | Json.Obj sub => (fields, Fields sub)
  | Json.Arr _ | Json.Number _ => (fields, Strange)
  | Json.Undefined | Json.Null | Json.Bool false => fresh
  | Json.Bool true => (fields, Primitive)
  | Json.Num n => if (n =? 0)%Z then fresh else (fields, Primitive)
  | Json.Str s =>
      match s with
      | [] => fresh
      | _ :: _ => (fields, Primitive)
      end
  end.

Inductive merge_result : Type :=
| Merged (config : Json.value)
| TypeError          (* a property of undefined is set *)
| Unfollowed.

(** [v[k1][k2]...]; [None] when a read throws. *)
Definition read_path (v : Json.value) (path : list (list N))
  : option Json.value :=
  fold_left (fun acc k => x ← acc; Proxy.read x k) path (Some v).

(** [{ ...existing }] for a value that JSON.parse gives: the own
    properties of an object, the elements of an array and the code units
    of a string under their indices, and nothing for another value. *)
Definition spread (existing : Json.value) : list (list N * Json.value) :=
  match existing with
  | Json.Obj fields => fields
  | Json.Arr l =>
      imap (fun i x => (Json.number_to_string (Z.of_nat i), x)) l
  | Json.Str s =>
      imap (fun i c => (Json.number_to_string (Z.of_nat i), Json.Str [c])) s
  | Json.Undefined | Json.Null | Json.Bool _ | Json.Num _
  | Json.Number _ => []
  end.

(** The two nested assignments of mergeConfig have one shape:
    [obj[outer][inner][k] = v], after both objects are made sure of, and
    with [obj[outer][extra] = w] in between when [extra] is given.  The
    value [v] is [None] when reading it throws.  The result is [None] for
    what the embedding does not follow and [Some None] for a TypeError. *)
Definition assign_nested (outer inner : list N)
    (extra : option (list N * Json.value)) (k : list N)
    (v : option Json.value) (merged : list (list N * Json.value))
  : option (option (list (list N * Json.value))) :=
  let '(merged, first) := ensure outer merged in
  match first with
  | Strange => None
  | Primitive => Some None
  | Fields sub =>
      let '(sub, second) := ensure inner sub in
      let sub :=
        match extra with
        | Some (name, w) => Json.set name w sub
        | None => sub
        end in
      match second, v with
      | Strange, _ => None
      | _, None => Some None
      | Primitive, Some _ =>
          Some (Some (Json.set outer (Json.Obj sub) merged))
      | Fields inside, Some v =>
          let sub := Json.set inner (Json.Obj (Json.set k v inside)) sub in
          Some (Some (Json.set outer (Json.Obj sub) merged))
      end
  end.

(** [mergeConfig(existing, litellmConfig)] *)
Definition mergeConfig (existing litellmConfig : Json.value)
  : merge_result :=
  let merged := spread existing in
  match assign_nested (js "models") (js "providers")
          (Some (js "mode", Json.Str (js "merge")))
          (js "litellm-clawrouter")
          (read_path litellmConfig
             [js "models"; js "providers"; js "litellm-clawrouter"])
          merged with
  | None => Unfollowed
  | Some None => TypeError
  | Some (Some merged) =>
      match assign_nested (js "agents") (js "defaults") None
              (js "model")
              (read_path litellmConfig
                 [js "agents"; js "defaults"; js "model"])
              merged with
      | None => Unfollowed
      | Some None => TypeError
      | Some (Some merged) => Merged (Json.Obj merged)
      end
  end.

End Cli.

(** * Notions of the specification and concrete inputs *)

Import Router Json Proxy.

Open Scope Q_scope.

(** ** Scores *)

Definition dimensions : list string :=
  [ "reasoning"; "code"; "simple"; "multiStep"; "technical"; "tokenCount";
    "creative"; "questionComplexity"; "constraints"; "imperative";
    "outputFormat"; "domain"; "reference"; "negation" ].

Definition unit_interval (v : Q) : Prop := 0 <= v <= 1.

(** The score of a dimension, as stored in the mapping. *)
Definition score_of (prompt : list N) (dim : string) : Q :=
  default 0 (scoreDimensions prompt !! dim).

(** The sum over the weight table of score times weight. *)
Definition weighted_total (score : string -> Q) : Q :=
  fold_right (fun '(dim, weight) total => score dim * weight + total) 0 WEIGHTS.

(** ** Tokens *)

(** The number of white-space delimited tokens of a text: the maximal runs
    of units that are not white space; [in_word] tells that the unit before
    belongs to a token. *)
Fixpoint count_words (in_word : bool) (s : list N) : nat :=
  match s with
  | [] => 0
  | c :: s' =>
      if is_space c then count_words false s'
      else (if in_word then 0 else 1) + count_words true s'
  end.

Definition word_count (prompt : list N) : nat := count_words false prompt.

(** ** Tiers *)

(** The precedence of the tiers, in the words of the specification. *)
Section Precedence.

Variable score : string -> Q.
Variable sum : Q.
Variable reasoningRuleMatches : nat.

Definition hasStrongCode : Prop :=
  0.3 < score "code" \/ 0.3 < score "technical".

Definition hasStrongImperative : Prop :=
  0.3 < score "imperative"
  /\ (0.1 < score "code" \/ 0.1 < score "technical").

Definition simple_rule : Prop :=
  sum < 0.20 /\ ~ hasStrongCode /\ ~ hasStrongImperative.

Definition reasoning_rule : Prop :=
  0.5 < score "reasoning" \/ (1 <= reasoningRuleMatches)%nat.

Definition medium_rule : Prop :=
  sum < 0.40 /\ ~ hasStrongImperative.

Inductive selected : Tier -> Prop :=
| select_SIMPLE : simple_rule -> selected SIMPLE
| select_REASONING : ~ simple_rule -> reasoning_rule -> selected REASONING
| select_MEDIUM :
    ~ simple_rule -> ~ reasoning_rule -> medium_rule -> selected MEDIUM
| select_COMPLEX :
    ~ simple_rule -> ~ reasoning_rule -> ~ medium_rule -> selected COMPLEX.

End Precedence.

(** The tier that the weighted branch of route selects. *)
Definition weighted_tier (prompt : list N) : Tier :=
  let scores := scoreDimensions prompt in
  let sum := weightedSum scores in
  let hasStrongCode :=
    gt (scores !! "code") 0.3 || gt (scores !! "technical") 0.3 in
  let hasStrongImperative :=
    gt (scores !! "imperative") 0.3
    && (gt (scores !! "code") 0.1 || gt (scores !! "technical") 0.1) in
  if Qltb sum 0.20 && negb hasStrongCode && negb hasStrongImperative
  then SIMPLE
  else if gt (scores !! "reasoning") 0.5
          || (1 <=? reasoningMatches prompt)%nat
  then REASONING
  else if Qltb sum 0.40 && negb hasStrongImperative
  then MEDIUM
  else COMPLEX.

Definition positive_rates (r : rates) : Prop := 0 < input r /\ 0 < output r.

(** ** Outcomes of the listener *)

(** The body that an outcome sent upstream, if it sent one. *)
Definition forwarded_body (o : outcome) : option (list N) :=
  match o with
  | Forwarded up _ => Some (up_body up)
  | _ => None
  end.

Definition no_routing_event (e : event) : Prop :=
  match e with
  | OnRouted _ | ConsoleLog _ _ _ => False
  | OnError _ | ConsoleError _ => True
  end.

(** ** Concrete inputs *)

(** A text of 501 words, each followed by a space. *)
Definition long_prompt : list N := concat (replicate 501 (js "word ")).

Definition proof_prompt : list N :=
  js "Prove that sqrt(2) is irrational step by step".

(** A tier map that a caller supplies without the SIMPLE tier. *)
Definition partial_tiers : gmap string string :=
  {[ "REASONING" := "openai/o1" ]}.

Definition sample_message (e : error) : list N :=
  match e with
  | JsonSyntaxError _ => js "Unexpected token in JSON"
  | ReadOfNullish _ _ => js "Cannot read properties of null"
  | InvalidUrl _ _ => js "Invalid URL"
  end.

(** The resolution of a path against [http://localhost:4000]. *)
Definition sample_URL (input base : list N) : option url :=
  Some {| protocol := js "http:";
          hostname := js "localhost";
          port := js "4000";
          host := js "localhost:4000";
          pathname := input;
          search := [] |}.

(** An engine that prints a number literal as it is written, as for
    [0.7]. *)
Definition sample_runtime : runtime :=
  {| message := sample_message;
     URL := sample_URL;
     Number_toString := fun literal => literal |}.

Definition sample_config : config :=
  {| litellmBaseUrl := js "http://localhost:4000/";
     litellmApiKey := js "sk-test";
     cfg_tierModels := None;
     onRouted := true;
     onError := true |}.

Definition quoted (s : string) : list N := [34%N] ++ js s ++ [34%N].

Definition post (text : list N) : request :=
  {| req_method := js "POST";
     req_url := js "/v1/chat/completions";
     req_headers := ∅;
     req_body := text |}.

(** The body [{"model": "gpt-4o"}], with a space after the colon. *)
Definition spaced_body : list N :=
  js "{" ++ quoted "model" ++ js ": " ++ quoted "gpt-4o" ++ js "}".

Definition compact_body : list N :=
  js "{" ++ quoted "model" ++ js ":" ++ quoted "gpt-4o" ++ js "}".

(** A body that stops in the middle of an object. *)
Definition broken_body : list N := js "{" ++ quoted "model" ++ js ":".

(** The body [{"model":"auto","messages":[]}]. *)
Definition empty_messages_body : list N :=
  js "{" ++ quoted "model" ++ js ":" ++ quoted "auto" ++ js ","
  ++ quoted "messages" ++ js ":[]}".

(** ** Texts and patterns *)

(** A text that is empty or starts with white space: its first piece is
    empty. *)
Definition leading_gap (s : list N) : bool :=
  match s with
  | [] => true
  | c :: _ => is_space c
  end.

(** A text that ends with white space: its last piece is empty. *)
Definition trailing_gap (s : list N) : bool :=
  match last s with
  | Some c => is_space c
  | None => false
  end.

(** A pattern that starts with the word-boundary assertion. *)
Definition anchored (r : regex) : bool :=
  match r with
  | Cat WordB _ => true
  | _ => false
  end.

(** The dimensions whose patterns all start with the assertion. *)
Definition anchored_dimensions : list string :=
  [ "simple"; "multiStep"; "technical"; "creative"; "constraints";
    "imperative"; "outputFormat"; "domain"; "reference"; "negation" ].


(** The text of five Chinese characters that asks what a quantum is. *)
Definition chinese_prompt : list N :=
  [0x4EC0; 0x4E48; 0x662F; 0x91CF; 0x5B50]%N.

(** ** Orders *)

(** An entry comes before another when its score is not smaller. *)
Definition not_smaller (a b : string * Q) : Prop := b.2 <= a.2.

(** ** Requests and events *)

(** A request that the completions handler takes. *)
Definition completions_post (req : request) : Prop :=
  req_method req = js "POST"
  /\ includes (js "/chat/completions") (req_url req) = true.

(** A call of the [onError] hook. *)
Definition hook_error (e : event) : Prop :=
  match e with
  | OnError _ => True
  | _ => False
  end.

(** The prompt that the handler classifies for the content of a message. *)
Definition prompt_of (rt : runtime) (content : value) : list N :=
  match content with
  | Str s => s
  | _ => stringify rt content
  end.

(** The value that [payload.model = decision.model] stores. *)
Definition model_value (model : option string) : value :=
  match model with
  | Some m => Str (js m)
  | None => Undefined
  end.

Definition sentinels : list (list N) :=
  [js "auto"; js "litellm/auto"; js "litellm-clawrouter/auto"].

(** What the handler reports of a decision: the [onRouted] hook, if there
    is one, and the line of the log. *)
Definition routing_events (cfg : config) (originalModel : value)
    (prompt : list N) (d : decision) : list event :=
  let saved := estimateSavings_default (default "undefined" (model d)) in
  (if onRouted cfg
   then [OnRouted {| originalModel := originalModel;
                     routedModel := model d;
                     routed_tier := tier d;
                     routed_confidence := confidence d;
                     savings := saved;
                     promptPreview := take 100 prompt |}]
   else [])
  ++ [ConsoleLog (tier d) (model d) saved].


(** The decision of the handler for a prompt. *)
Definition decide_route (cfg : config) (prompt : list N) : decision :=
  route prompt {| Router.tierModels := Some (Proxy.tierModels cfg) |}.

(** A body with the model auto and one message of the user, which asks
    what 2+2 is. *)
Definition auto_body : list N :=
  js "{" ++ quoted "model" ++ js ":" ++ quoted "auto" ++ js ","
  ++ quoted "messages" ++ js ":[{" ++ quoted "role" ++ js ":"
  ++ quoted "user" ++ js "," ++ quoted "content" ++ js ":"
  ++ quoted "What is 2+2?" ++ js "}]}".

Definition auto_fields : list (list N * value) :=
  [ (js "model", Str (js "auto"));
    (js "messages",
     Arr [Obj [ (js "role", Str (js "user"));
                (js "content", Str (js "What is 2+2?")) ]]) ].

(** The body [{"model":"auto","messages":[null]}]. *)
Definition null_message_body : list N :=
  js "{" ++ quoted "model" ++ js ":" ++ quoted "auto" ++ js ","
  ++ quoted "messages" ++ js ":[null]}".

(** A configuration whose tier map lacks the SIMPLE tier. *)
Definition partial_config : config :=
  {| litellmBaseUrl := js "http://localhost:4000/";
     litellmApiKey := js "sk-test";
     cfg_tierModels := Some partial_tiers;
     onRouted := true;
     onError := true |}.

Definition sample_url : url :=
  {| protocol := js "http:";
     hostname := js "localhost";
     port := js "4000";
     host := js "localhost:4000";
     pathname := js "/v1/chat/completions";
     search := [] |}.

(** The request that the pass-through makes for a resolved target. *)
Definition passed_on (cfg : config) (req : request) (u : url)
  : upstream_request :=
  {| up_hostname := hostname u;
     up_port := target_port u;
     up_path := pathname u ++ search u;
     up_method := req_method req;
     up_headers := forwarded_headers cfg req u;
     up_body := req_body req |}.

(** The request that the completions handler makes for a resolved target
    and a new body. *)
Definition sent_with (cfg : config) (req : request) (u : url)
    (text : list N) : upstream_request :=
  {| up_hostname := hostname u;
     up_port := target_port u;
     up_path := pathname u ++ search u;
     up_method := req_method req;
     up_headers :=
       <["content-length" := number_to_string (Z.of_nat (byteLength text))]>
       (forwarded_headers cfg req u);
     up_body := text |}.

(** The body of [auto_body] after routing to the default SIMPLE model. *)
Definition routed_body : list N :=
  js "{" ++ quoted "model" ++ js ":" ++ quoted "gemini/gemini-2.0-flash"
  ++ js "," ++ quoted "messages" ++ js ":[{" ++ quoted "role" ++ js ":"
  ++ quoted "user" ++ js "," ++ quoted "content" ++ js ":"
  ++ quoted "What is 2+2?" ++ js "}]}".

(** The body of [auto_body] without its model. *)
Definition modelless_body : list N :=
  js "{" ++ quoted "messages" ++ js ":[{" ++ quoted "role" ++ js ":"
  ++ quoted "user" ++ js "," ++ quoted "content" ++ js ":"
  ++ quoted "What is 2+2?" ++ js "}]}".

(** A request with headers of its own, to a path that is not the
    completions endpoint. *)
Definition models_request : request :=
  {| req_method := js "GET";
     req_url := js "/v1/models";
     req_headers :=
       {[ "authorization" := js "Bearer client-key";
          "accept" := js "application/json" ]};
     req_body := [] |}.

Definition sample_options : Server.options :=
  {| Server.port := None;
     Server.litellmBaseUrl := Some (js "http://localhost:4000");
     Server.litellmApiKey := Some (js "sk-test");
     Server.tierModels := None;
     Server.onReady := true;
     Server.onRouted := false;
     Server.onError := false |}.

(** The property [k] is missing or holds an object. *)
Definition absent_or_object (k : list N) (fields : list (list N * value))
  : Prop :=
  get k fields = None \/ exists sub, get k fields = Some (Obj sub).

(** The properties of the object under [k]; none when there is no object. *)
Definition child (k : list N) (fields : list (list N * value))
  : list (list N * value) :=
  match get k fields with
  | Some (Obj sub) => sub
  | _ => []
  end.

(** A value that is not an object and not falsy. *)
Definition truthy_primitive (v : value) : Prop :=
  v = Bool true \/ (exists n, v = Num n /\ n <> 0%Z)
  \/ (exists c s, v = Str (c :: s)).

(** The model that the wizard stores for a tier. *)
Definition wizard_model (answer : string -> string) (t : Tier) : string :=
  if bool_decide (answer (tier_key t) = EmptyString)
  then default EmptyString (DEFAULT_TIER_MODELS !! tier_key t)
  else answer (tier_key t).

(** A configuration with a provider and a setting of its own. *)
Definition existing_config : list (list N * value) :=
  [ (js "models",
     Obj [ (js "providers",
            Obj [ (js "openai", Obj [ (js "apiKey", Str (js "sk-1")) ]) ]) ]);
    (js "theme", Str (js "dark")) ].

(** What the wizard generates for the default port. *)
Definition generated_config : value :=
  Cli.generateConfig (js "sk-test") (js "http://localhost:4000")
    DEFAULT_TIER_MODELS (js "8401").

(** * Properties of the router *)

(** ** Numbers *)

Lemma Qltb_lt (a b : Q) : Qltb a b = true <-> a < b.
Proof. unfold Qltb, Qlt. apply Z.ltb_lt. Qed.

Lemma Qltb_nlt (a b : Q) : Qltb a b = false <-> ~ a < b.
Proof.
  rewrite <- Qltb_lt. destruct (Qltb a b); split; congruence.
Qed.

Lemma of_nat_le (n m : nat) : (n <= m)%nat -> of_nat n <= of_nat m.
Proof. intros H. unfold of_nat. rewrite <- Zle_Qle. lia. Qed.

Lemma of_nat_nonneg (n : nat) : 0 <= of_nat n.
Proof. apply (of_nat_le 0 n). lia. Qed.

Lemma Math_min_unit (a : Q) : 0 <= a -> 0 <= Math_min a 1.0 <= 1.
Proof.
  intros Ha. unfold Math_min. destruct (Qle_bool a 1.0) eqn:E.
  - apply Qle_bool_iff in E. split; [exact Ha | lra].
  - lra.
Qed.

Lemma ratio_nonneg (a b : Q) : 0 <= a -> 0 <= b -> 0 <= a / b.
Proof.
  intros Ha Hb. destruct (Qeq_dec b 0) as [E | E].
  - rewrite E. unfold Qdiv, Qinv. simpl. lra.
  - apply Qle_shift_div_l; lra.
Qed.

Lemma or_zero_default (x : option Q) : or_zero x == default 0 x.
Proof.
  destruct x as [v |]; simpl; [| reflexivity].
  destruct (Qeq_bool v 0) eqn:E; [| reflexivity].
  apply Qeq_bool_iff in E. symmetry. exact E.
Qed.

Lemma gt_default (x : option Q) (q : Q) :
  0 <= q -> gt x q = true <-> q < default 0 x.
Proof.
  intros Hq. destruct x as [v |]; simpl.
  - apply Qltb_lt.
  - split; [discriminate | lra].
Qed.

(** ** The score mapping *)

Lemma pattern_score_unit (patterns : list regex) (prompt : list N) :
  unit_interval (pattern_score patterns prompt).
Proof.
  unfold pattern_score. apply Math_min_unit.
  apply ratio_nonneg; apply of_nat_nonneg.
Qed.

Lemma tokenCount_score_unit (n : nat) : unit_interval (tokenCount_score n).
Proof.
  unfold tokenCount_score, unit_interval.
  destruct (n <? 50)%nat eqn:Hlo; [lra |].
  destruct (500 <? n)%nat eqn:Hhi; [lra |].
  apply Nat.ltb_ge in Hlo, Hhi.
  pose proof (of_nat_le 50 n Hlo) as H1.
  pose proof (of_nat_le n 500 Hhi) as H2.
  change (of_nat 50) with 50 in H1. change (of_nat 500) with 500 in H2.
  assert (0 <= (of_nat n - 50) / 900) by (apply Qle_shift_div_l; lra).
  assert ((of_nat n - 50) / 900 <= 0.5) by (apply Qle_shift_div_r; lra).
  lra.
Qed.

Lemma questionComplexity_unit (prompt : list N) :
  unit_interval (Math_min (of_nat (questionMarks prompt) / 3) 1.0).
Proof.
  apply Math_min_unit. apply ratio_nonneg; [apply of_nat_nonneg | lra].
Qed.

Lemma scoreDimensions_unit (prompt : list N) :
  map_Forall (fun _ v => unit_interval v) (scoreDimensions prompt).
Proof.
  unfold scoreDimensions, PATTERNS. cbn [fold_left].
  repeat (apply map_Forall_insert_2;
          [ first [ apply pattern_score_unit | apply tokenCount_score_unit
                  | apply questionComplexity_unit ] | ]).
  apply map_Forall_empty.
Qed.

Lemma scoreDimensions_dom_and_range (prompt : list N) :
  dom (scoreDimensions prompt) = list_to_set dimensions
  /\ map_Forall (fun _ v => unit_interval v) (scoreDimensions prompt).
Proof.
  split; [| apply scoreDimensions_unit].
  unfold scoreDimensions, PATTERNS. cbn [fold_left].
  rewrite !dom_insert_L, dom_empty_L. compute_done.
Qed.

Lemma score_present (prompt : list N) (dim : string) :
  dim ∈ dimensions -> exists v : Q, scoreDimensions prompt !! dim = Some v.
Proof.
  intros Hin.
  assert (Hdom : dim ∈ dom (scoreDimensions prompt)).
  { rewrite (proj1 (scoreDimensions_dom_and_range prompt)).
    apply elem_of_list_to_set. exact Hin. }
  apply elem_of_dom in Hdom. exact Hdom.
Qed.

(** C9.  For every prompt, the mapping returned by scoreDimensions has
    exactly the 14 fixed dimension keys, and every score lies in the closed
    interval from 0 to 1. *)
Theorem scoreDimensions_complete_and_bounded (prompt : list N) :
  dom (scoreDimensions prompt) = list_to_set dimensions
  /\ length dimensions = 14%nat
  /\ NoDup dimensions
  /\ forall (dim : string) (v : Q),
       scoreDimensions prompt !! dim = Some v -> 0 <= v <= 1.
Proof.
  destruct (scoreDimensions_dom_and_range prompt) as [Hdom Hall].
  split; [exact Hdom | split; [reflexivity | split]].
  - compute_done.
  - intros dim v H. exact (Hall dim v H).
Qed.

Lemma scoreDimensions_complete_and_bounded_witness :
  exists v : Q,
    scoreDimensions (js "What is 2+2?") !! "simple" = Some v /\ 0 <= v <= 1.
Proof.
  destruct (score_present (js "What is 2+2?") "simple") as [v Hv].
  - compute_done.
  - exists v. split; [exact Hv |].
    exact (proj2 (proj2 (proj2
             (scoreDimensions_complete_and_bounded (js "What is 2+2?"))))
             "simple" v Hv).
Defined.

(** ** The token count *)

Lemma pieces_nonempty (s : list N) (sep : bool) : pieces sep s <> [].
Proof.
  revert sep. induction s as [| c s IH]; intros sep; simpl; [discriminate |].
  destruct (is_space c).
  - destruct sep; [apply IH | discriminate].
  - destruct (pieces false s); discriminate.
Qed.

Lemma pieces_cons (sep : bool) (c : N) (s : list N) :
  is_space c = false ->
  length (pieces sep (c :: s)) = length (pieces false s).
Proof.
  intros Hc. simpl. rewrite Hc.
  pose proof (pieces_nonempty s false) as Hne.
  destruct (pieces false s); [congruence | reflexivity].
Qed.

Lemma count_words_pieces (s : list N) :
  (count_words true s + 1 <= length (pieces false s))%nat
  /\ (count_words false s <= length (pieces true s))%nat
  /\ (count_words false s <= length (pieces false s))%nat.
Proof.
  induction s as [| c s (IHa & IHb & IHc)]; [simpl; lia |].
  destruct (is_space c) eqn:Hc.
  - simpl. rewrite Hc. simpl. lia.
  - rewrite !pieces_cons by exact Hc. simpl. rewrite Hc. lia.
Qed.

Lemma word_count_le_tokenCount (prompt : list N) :
  (word_count prompt <= tokenCount prompt)%nat.
Proof. apply count_words_pieces. Qed.

Lemma tokenCount_lookup (prompt : list N) :
  scoreDimensions prompt !! "tokenCount"
  = Some (tokenCount_score (tokenCount prompt)).
Proof.
  unfold scoreDimensions.
  rewrite lookup_insert_ne by discriminate.
  apply lookup_insert_eq.
Qed.

(** C6.  With n the number of pieces of [prompt.split(/\s+/)], the
    tokenCount score is 0.2 when n is below 50, 0.9 when n is above 500 and
    0.5 + (n - 50) / 900 otherwise; a prompt with more than 500
    white-space delimited tokens scores 0.9. *)
Theorem tokenCount_score_by_cases (prompt : list N) :
  let n := length (split_ws prompt) in
  let score := scoreDimensions prompt !! "tokenCount" in
  ((n < 50)%nat -> score = Some 0.2)
  /\ ((500 < n)%nat -> score = Some 0.9)
  /\ ((50 <= n <= 500)%nat -> score = Some (0.5 + (of_nat n - 50) / 900))
  /\ ((500 < word_count prompt)%nat -> score = Some 0.9).
Proof.
  intros n score.
  assert (Hhi : (500 < n)%nat -> score = Some 0.9).
  { intros H. unfold score. rewrite tokenCount_lookup.
    unfold tokenCount_score. fold n.
    replace (tokenCount prompt) with n by reflexivity.
    assert (E1 : (n <? 50)%nat = false) by (apply Nat.ltb_ge; lia).
    assert (E2 : (500 <? n)%nat = true) by (apply Nat.ltb_lt; lia).
    rewrite E1, E2. reflexivity. }
  split; [| split; [exact Hhi | split]].
  - intros H. unfold score. rewrite tokenCount_lookup.
    unfold tokenCount_score. replace (tokenCount prompt) with n by reflexivity.
    assert (E1 : (n <? 50)%nat = true) by (apply Nat.ltb_lt; lia).
    rewrite E1. reflexivity.
  - intros [H1 H2]. unfold score. rewrite tokenCount_lookup.
    unfold tokenCount_score. replace (tokenCount prompt) with n by reflexivity.
    assert (E1 : (n <? 50)%nat = false) by (apply Nat.ltb_ge; lia).
    assert (E2 : (500 <? n)%nat = false) by (apply Nat.ltb_ge; lia).
    rewrite E1, E2. reflexivity.
  - intros H. apply Hhi.
    pose proof (word_count_le_tokenCount prompt) as Hle.
    unfold tokenCount in Hle. fold n in Hle. lia.
Qed.

Lemma tokenCount_score_by_cases_witness :
  (500 < word_count long_prompt)%nat
  /\ scoreDimensions long_prompt !! "tokenCount" = Some 0.9.
Proof.
  assert (H : (500 < word_count long_prompt)%nat).
  { vm_compute. apply Nat.leb_le. reflexivity. }
  split; [exact H |].
  exact (proj2 (proj2 (proj2 (tokenCount_score_by_cases long_prompt))) H).
Defined.

(** ** The weight table and the weighted sum *)


Lemma weightedSum_total (prompt : list N) :
  weightedSum (scoreDimensions prompt) == weighted_total (score_of prompt).
Proof.
  unfold weightedSum, weighted_total, WEIGHTS, score_of.
  cbn [fold_left fold_right].
  rewrite !or_zero_default. ring.
Qed.



(** ** The override rule *)

Lemma route_rules (prompt : list N) (opts : options) :
  (2 <= reasoningMatches prompt)%nat ->
  route prompt opts =
    {| tier := REASONING;
       model := default DEFAULT_TIER_MODELS (Router.tierModels opts) !! "REASONING";
       confidence := Const 0.97;
       weightedScore := None;
       method := rules;
       scores := scoreDimensions prompt |}.
Proof.
  intros Hm. unfold route. apply Nat.leb_le in Hm. rewrite Hm.
  cbv beta iota zeta. reflexivity.
Qed.

(** Two matching patterns at different places of a table are counted. *)
Lemma count_matches_two (patterns : list regex) (prompt : list N)
    (i j : nat) (ri rj : regex) :
  i <> j ->
  patterns !! i = Some ri -> patterns !! j = Some rj ->
  test ri prompt = true -> test rj prompt = true ->
  (2 <= count_matches patterns prompt)%nat.
Proof.
  unfold count_matches.
  revert i j. induction patterns as [| r l IH]; intros i j Hne Hi Hj Ti Tj.
  - rewrite lookup_nil in Hi. discriminate.
  - assert (Hone : forall (k : nat) (rk : regex),
               l !! k = Some rk -> test rk prompt = true ->
               (1 <= length (filter (fun r => test r prompt = true) l))%nat).
    { intros k rk Hk Tk.
      assert (Hin : rk ∈ filter (fun r => test r prompt = true) l).
      { apply list_elem_of_filter. split; [exact Tk |].
        apply list_elem_of_lookup. exists k. exact Hk. }
      destruct (filter (fun r => test r prompt = true) l).
      - apply elem_of_nil in Hin. contradiction.
      - simpl. lia. }
    destruct i as [| i], j as [| j]; simpl in Hi, Hj.
    + congruence.
    + injection Hi as ->. rewrite filter_cons_True by exact Ti.
      simpl. pose proof (Hone j rj Hj Tj). lia.
    + injection Hj as ->. rewrite filter_cons_True by exact Tj.
      simpl. pose proof (Hone i ri Hi Ti). lia.
    + assert (Hij : i <> j) by congruence.
      pose proof (IH i j Hij Hi Hj Ti Tj) as H2.
      destruct (decide (test r prompt = true)) as [T | T].
      * rewrite filter_cons_True by exact T. simpl. lia.
      * rewrite filter_cons_False by exact T. exact H2.
Qed.

(** C1.  When at least two of the reasoning dimension's patterns match the
    prompt, route returns tier REASONING, the model that the tier map
    holds under REASONING, confidence 0.97 and method rules, with the scores;
    nothing else of the prompt enters the result. *)
Theorem route_reasoning_override (prompt : list N) (opts : options)
    (i j : nat) (ri rj : regex) :
  i <> j ->
  reasoning_patterns !! i = Some ri -> reasoning_patterns !! j = Some rj ->
  test ri prompt = true -> test rj prompt = true ->
  route prompt opts =
    {| tier := REASONING;
       model := default DEFAULT_TIER_MODELS (Router.tierModels opts) !! "REASONING";
       confidence := Const 0.97;
       weightedScore := None;
       method := rules;
       scores := scoreDimensions prompt |}.
Proof.
  intros Hne Hi Hj Ti Tj.
  pose proof (count_matches_two reasoning_patterns prompt i j ri rj
                Hne Hi Hj Ti Tj) as H2.
  fold (reasoningMatches prompt) in H2.
  exact (route_rules prompt opts H2).
Qed.

Lemma route_reasoning_override_witness :
  route proof_prompt no_options =
    {| tier := REASONING;
       model := Some "deepseek/deepseek-reasoner";
       confidence := Const 0.97;
       weightedScore := None;
       method := rules;
       scores := scoreDimensions proof_prompt |}.
Proof.
  refine (eq_trans
            (route_reasoning_override proof_prompt no_options 0 1 _ _
               _ eq_refl eq_refl _ _) _).
  - discriminate.
  - vm_compute. reflexivity.
  - vm_compute. reflexivity.
  - reflexivity.
Defined.

(** ** Tier selection *)


Section Reflection.

Variable prompt : list N.

Let s := scoreDimensions prompt.

Lemma hasStrongCode_true :
  gt (s !! "code") 0.3 || gt (s !! "technical") 0.3 = true
  <-> hasStrongCode (score_of prompt).
Proof.
  unfold hasStrongCode, score_of. fold s.
  rewrite orb_true_iff, !gt_default by lra. reflexivity.
Qed.

Lemma hasStrongImperative_true :
  gt (s !! "imperative") 0.3
  && (gt (s !! "code") 0.1 || gt (s !! "technical") 0.1) = true
  <-> hasStrongImperative (score_of prompt).
Proof.
  unfold hasStrongImperative, score_of. fold s.
  rewrite andb_true_iff, orb_true_iff, !gt_default by lra. reflexivity.
Qed.

Lemma reasoning_rule_true (matches : nat) :
  gt (s !! "reasoning") 0.5 || (1 <=? matches)%nat = true
  <-> reasoning_rule (score_of prompt) matches.
Proof.
  unfold reasoning_rule, score_of. fold s.
  rewrite orb_true_iff, gt_default, Nat.leb_le by lra. reflexivity.
Qed.

End Reflection.

Lemma route_weighted (prompt : list N) (opts : options) :
  (reasoningMatches prompt < 2)%nat ->
  route prompt opts =
    {| tier := weighted_tier prompt;
       model := default DEFAULT_TIER_MODELS (Router.tierModels opts)
                  !! tier_key (weighted_tier prompt);
       confidence := Logistic (weightedSum (scoreDimensions prompt));
       weightedScore := Some (weightedSum (scoreDimensions prompt));
       method := weighted;
       scores := scoreDimensions prompt |}.
Proof.
  intros Hm. unfold route.
  assert (E : (2 <=? reasoningMatches prompt)%nat = false)
    by (apply Nat.leb_gt; exact Hm).
  rewrite E. unfold weighted_tier. cbv beta iota zeta. reflexivity.
Qed.

(** The model of a decision is what the tier map in use holds for its
    tier. *)
Lemma route_model (prompt : list N) (opts : options) :
  model (route prompt opts)
  = default DEFAULT_TIER_MODELS (Router.tierModels opts)
      !! tier_key (tier (route prompt opts)).
Proof.
  destruct (Nat.le_gt_cases 2 (reasoningMatches prompt)) as [H | H].
  - rewrite (route_rules prompt opts H).
    cbv beta iota delta [model tier tier_key]. reflexivity.
  - rewrite (route_weighted prompt opts H).
    cbv beta iota delta [model tier]. reflexivity.
Qed.

(** The chain of conditionals follows the precedence, whatever decides the
    conditions. *)
Lemma precedence_of_conditions (score : string -> Q) (sum : Q) (m : nat)
    (below20 code imperative reasoning below40 : bool) :
  (below20 = true <-> sum < 0.20) ->
  (code = true <-> hasStrongCode score) ->
  (imperative = true <-> hasStrongImperative score) ->
  (reasoning = true <-> reasoning_rule score m) ->
  (below40 = true <-> sum < 0.40) ->
  selected score sum m
    (if below20 && negb code && negb imperative then SIMPLE
     else if reasoning then REASONING
     else if below40 && negb imperative then MEDIUM
     else COMPLEX).
Proof.
  intros H20 Hc Hi Hr H40.
  destruct below20, code, imperative, reasoning, below40; simpl;
    first [ apply select_SIMPLE; unfold simple_rule; intuition congruence
          | apply select_REASONING; unfold simple_rule; intuition congruence
          | apply select_MEDIUM; unfold simple_rule, medium_rule;
            intuition congruence
          | apply select_COMPLEX; unfold simple_rule, medium_rule;
            intuition congruence ].
Qed.

Lemma weighted_tier_selected (prompt : list N) :
  selected (score_of prompt) (weightedSum (scoreDimensions prompt))
    (reasoningMatches prompt) (weighted_tier prompt).
Proof.
  unfold weighted_tier. cbv zeta.
  apply precedence_of_conditions.
  - apply Qltb_lt.
  - apply hasStrongCode_true.
  - apply hasStrongImperative_true.
  - apply reasoning_rule_true.
  - apply Qltb_lt.
Qed.



(** ** The model of a decision *)

(** C3, as stated, fails: route takes a caller's tier map as it is, and a
    map without the selected tier leaves decision.model undefined. *)
Lemma route_model_undefined :
  tier (route (js "What is 2+2?") {| Router.tierModels := Some partial_tiers |})
  = SIMPLE
  /\ model (route (js "What is 2+2?") {| Router.tierModels := Some partial_tiers |})
     = None.
Proof. split; vm_compute; reflexivity. Qed.

Lemma default_tiers_complete (t : Tier) :
  is_Some (DEFAULT_TIER_MODELS !! tier_key t).
Proof. destruct t; vm_compute; eexists; reflexivity. Qed.

(** C3, amended.  When route uses the default tier map, or a caller's map
    that holds all four tier keys, decision.model is defined: it is the
    entry of that map for the selected tier. *)
Theorem route_model_resolvable (prompt : list N) (opts : options) :
  (Router.tierModels opts = None
   \/ exists m, Router.tierModels opts = Some m
                /\ forall t : Tier, is_Some (m !! tier_key t)) ->
  exists id : string,
    model (route prompt opts) = Some id
    /\ default DEFAULT_TIER_MODELS (Router.tierModels opts)
         !! tier_key (tier (route prompt opts)) = Some id.
Proof.
  intros H.
  assert (Hall : forall t : Tier,
            is_Some (default DEFAULT_TIER_MODELS (Router.tierModels opts)
                       !! tier_key t)).
  { destruct H as [E | (m & E & Hm)]; rewrite E; simpl.
    - apply default_tiers_complete.
    - exact Hm. }
  destruct (Hall (tier (route prompt opts))) as [id Hid].
  exists id. rewrite route_model. split; exact Hid.
Qed.

Lemma route_model_resolvable_witness :
  exists id : string,
    model (route (js "What is 2+2?") no_options) = Some id
    /\ DEFAULT_TIER_MODELS
         !! tier_key (tier (route (js "What is 2+2?") no_options))
       = Some id.
Proof.
  exact (route_model_resolvable (js "What is 2+2?") no_options
           (or_introl eq_refl)).
Defined.

(** ** Costs and savings *)

Lemma MODEL_COSTS_positive :
  map_Forall (fun _ r => positive_rates r) MODEL_COSTS.
Proof.
  unfold MODEL_COSTS.
  repeat (apply map_Forall_insert_2;
          [unfold positive_rates; simpl; split; reflexivity |]).
  apply map_Forall_empty.
Qed.

(** A cost is a combination of the token counts with positive rates. *)
Lemma estimateCost_rates (model : string) (i o c : Q) :
  estimateCost model i o = Some c ->
  exists r : rates,
    positive_rates r /\ c = i / 1000000 * input r + o / 1000000 * output r.
Proof.
  unfold estimateCost.
  destruct (MODEL_COSTS !! model) as [r |] eqn:E.
  - intros [= <-]. exists r. split; [| reflexivity].
    exact (MODEL_COSTS_positive model r E).
  - destruct (bool_decide (model ∈ inherited_keys)); [discriminate |].
    intros [= <-]. exists (Rates 1.00 5.00).
    split; [split; reflexivity | reflexivity].
Qed.

Lemma scaled_nonneg (x r : Q) : 0 <= x -> 0 < r -> 0 <= x / 1000000 * r.
Proof.
  intros Hx Hr. apply Qmult_le_0_compat; [| lra].
  apply Qle_shift_div_l; lra.
Qed.

Lemma scaled_zero (x r : Q) : 0 < r -> x / 1000000 * r == 0 -> x == 0.
Proof.
  intros Hr H. apply Qmult_integral in H. destruct H as [H | H]; [| lra].
  unfold Qdiv in H. apply Qmult_integral in H.
  destruct H as [H | H]; [exact H |].
  exfalso. revert H. compute. discriminate.
Qed.

(** With counts that are not negative, a cost of zero means that there is
    nothing to pay for, with any model. *)
Lemma zero_cost_no_tokens (model : string) (i o c : Q) :
  0 <= i -> 0 <= o -> estimateCost model i o = Some c -> c <= 0 ->
  i == 0 /\ o == 0.
Proof.
  intros Hi Ho Hc Hle.
  destruct (estimateCost_rates model i o c Hc) as (r & [Hin Hout] & ->).
  pose proof (scaled_nonneg i (input r) Hi Hin) as H1.
  pose proof (scaled_nonneg o (output r) Ho Hout) as H2.
  split; [apply (scaled_zero i (input r) Hin) | apply (scaled_zero o (output r) Hout)]; lra.
Qed.

(** C8.  The savings of a model against itself are 0; they are 0 when the
    baseline costs nothing; and they are not clamped: a routed model that
    costs more than the baseline has negative savings, 1 - routed / baseline. *)
Theorem estimateSavings_properties :
  (forall (m : string) (i o : Q),
     exists q : Q, estimateSavings m m i o = Some q /\ q == 0)
  /\ (forall (routed baseline : string) (i o b : Q),
        estimateCost baseline i o = Some b -> b == 0 ->
        estimateSavings routed baseline i o = Some 0)
  /\ (forall (routed baseline : string) (i o r b : Q),
        0 <= i -> 0 <= o ->
        estimateCost routed i o = Some r ->
        estimateCost baseline i o = Some b ->
        b < r ->
        exists q : Q,
          estimateSavings routed baseline i o = Some q
          /\ q < 0 /\ q == 1 - r / b).
Proof.
  split; [| split].
  - intros m i o. unfold estimateSavings.
    destruct (estimateCost m i o) as [b |]; [| exists 0; split; reflexivity].
    destruct (Qltb 0 b) eqn:E; [| exists 0; split; reflexivity].
    apply Qltb_lt in E. exists ((b - b) / b). split; [reflexivity |].
    field. lra.
  - intros routed baseline i o b Hb Hz. unfold estimateSavings. rewrite Hb.
    assert (E : Qltb 0 b = false) by (apply Qltb_nlt; lra).
    rewrite E. reflexivity.
  - intros routed baseline i o r b Hi Ho Hr Hb Hlt.
    assert (Hpos : 0 < b).
    { destruct (Qlt_le_dec 0 b) as [H | H]; [exact H | exfalso].
      destruct (zero_cost_no_tokens baseline i o b Hi Ho Hb H) as [Zi Zo].
      destruct (estimateCost_rates routed i o r Hr) as (rr & _ & Er).
      destruct (estimateCost_rates baseline i o b Hb) as (rb & _ & Eb).
      rewrite Er, Eb, Zi, Zo in Hlt. revert Hlt. unfold Qdiv.
      rewrite !Qmult_0_l. compute. discriminate. }
    unfold estimateSavings. rewrite Hr, Hb.
    apply Qltb_lt in Hpos as E. rewrite E.
    exists ((b - r) / b). split; [reflexivity |]. split.
    + apply Qlt_shift_div_r; lra.
    + field. lra.
Qed.

Lemma estimateSavings_properties_witness :
  exists q : Q,
    estimateSavings "anthropic/claude-opus-4" "gemini/gemini-2.0-flash" 1000 500
    = Some q /\ q < 0.
Proof.
  destruct (proj2 (proj2 estimateSavings_properties)
              "anthropic/claude-opus-4" "gemini/gemini-2.0-flash" 1000 500
              (1000 / 1000000 * 15.00 + 500 / 1000000 * 75.00)
              (1000 / 1000000 * 0.10 + 500 / 1000000 * 0.40))
    as (q & Hq & Hneg & _).
  - discriminate.
  - discriminate.
  - reflexivity.
  - reflexivity.
  - reflexivity.
  - exists q. split; [exact Hq | exact Hneg].
Defined.

(** * Properties of the proxy *)

(** ** What JSON.parse returns *)

Lemma parse_defined (fuel : nat) :
  (forall s v rest, parse_value fuel s = Parsed (v, rest) -> v <> Undefined)
  /\ (forall acc s v rest,
        parse_members fuel acc s = Parsed (v, rest) -> v <> Undefined)
  /\ (forall acc s v rest,
        parse_elements fuel acc s = Parsed (v, rest) -> v <> Undefined).
Proof.
  induction fuel as [| fuel (IHv & IHm & IHe)].
  - repeat split; intros; discriminate.
  - split; [| split].
    + intros s v rest. simpl.
      unfold parse_number, parse_literal.
      repeat match goal with
             | |- context [match ?x with _ => _ end] =>
                 match x with
                 | parse_members _ _ _ => fail 1
                 | parse_elements _ _ _ => fail 1
                 | _ => destruct x eqn:?
                 end
             end;
        try discriminate;
        try (intros [= <- <-]; discriminate);
        try (apply IHm); try (apply IHe).
    + intros acc s v rest. simpl.
      repeat match goal with
             | |- context [match ?x with _ => _ end] =>
                 match x with
                 | parse_members _ _ _ => fail 1
                 | _ => destruct x eqn:?
                 end
             end;
        try discriminate;
        try (intros [= <- <-]; discriminate);
        try (apply IHm).
    + intros acc s v rest. simpl.
      repeat match goal with
             | |- context [match ?x with _ => _ end] =>
                 match x with
                 | parse_elements _ _ _ => fail 1
                 | _ => destruct x eqn:?
                 end
             end;
        try discriminate;
        try (intros [= <- <-]; discriminate);
        try (apply IHe).
Qed.

Lemma JSON_parse_defined (text : list N) (v : value) :
  JSON_parse text = Parsed v -> v <> Undefined.
Proof.
  unfold JSON_parse.
  destruct (parse_value (S (2 * length text)) text) as [[w rest] | |] eqn:E;
    try discriminate.
  destruct (skip_ws rest); [| discriminate].
  intros [= <-].
  exact (proj1 (parse_defined _) _ _ _ E).
Qed.

(** A property of a parsed value can be read unless the value is null. *)
Lemma read_parsed (text : list N) (payload : value) (k : list N) :
  JSON_parse text = Parsed payload -> payload <> Null ->
  exists x : value, read payload k = Some x.
Proof.
  intros Hp Hnull. pose proof (JSON_parse_defined text payload Hp) as Hdef.
  destruct payload; try congruence; simpl; eauto.
  - destruct (bool_decide (k = js "length")); [eauto |].
    destruct (array_index k); eauto.
  - destruct (bool_decide (k = js "length")); [eauto |].
    destruct (array_index k); eauto.
Qed.

(** ** JSON.parse stays within its budget *)

Lemma skip_ws_length (s : list N) : (length (skip_ws s) <= length s)%nat.
Proof.
  induction s as [| c s IH]; simpl; [lia |].
  destruct (is_json_space c); simpl; lia.
Qed.

Lemma cons_unit_parsed (u : N) (r : result (list N * list N))
    (str rest : list N) :
  cons_unit u r = Parsed (str, rest) ->
  exists str', r = Parsed (str', rest).
Proof.
  destruct r as [[str' rest'] | |]; simpl; try discriminate.
  intros [= <- <-]. eauto.
Qed.

Lemma cons_unit_exhausted (u : N) (r : result (list N * list N)) :
  cons_unit u r = Exhausted -> r = Exhausted.
Proof. destruct r as [[str' rest'] | |]; simpl; congruence. Qed.

Lemma parse_string_spec (n : nat) (s : list N) :
  (length s <= n)%nat ->
  parse_string s <> Exhausted
  /\ forall str rest, parse_string s = Parsed (str, rest) ->
                      (length rest < length s)%nat.
Proof.
  revert s. induction n as [| n IH]; intros s Hn.
  - destruct s; [| simpl in Hn; lia]. simpl. split; [discriminate |].
    intros; discriminate.
  - destruct s as [| c s'];
      [simpl; split; [discriminate | intros; discriminate] |].
    simpl in Hn. cbn [parse_string].
    destruct (c =? 34)%N.
    { split; [discriminate |]. intros str rest [= <- <-]. simpl. lia. }
    destruct (c <? 32)%N.
    { split; [discriminate | intros; discriminate]. }
    destruct (c =? 92)%N.
    + destruct s' as [| e s''];
        [split; [discriminate | intros; discriminate] |].
      destruct (e =? 117)%N.
      * destruct s'' as [| h1 [| h2 [| h3 [| h4 rest0]]]];
          try (split; [discriminate | intros; discriminate]).
        destruct (hex4 h1 h2 h3 h4);
          [| split; [discriminate | intros; discriminate]].
        destruct (IH rest0) as [He Hs]; [simpl in Hn; lia |].
        split.
        -- intros H. apply cons_unit_exhausted in H. contradiction.
        -- intros str rest H. apply cons_unit_parsed in H.
           destruct H as [str' H]. apply Hs in H. simpl. lia.
      * destruct (escape_value e);
          [| split; [discriminate | intros; discriminate]].
        destruct (IH s'') as [He Hs]; [simpl in Hn; lia |].
        split.
        -- intros H. apply cons_unit_exhausted in H. contradiction.
        -- intros str rest H. apply cons_unit_parsed in H.
           destruct H as [str' H]. apply Hs in H. simpl. lia.
    + destruct (IH s') as [He Hs]; [lia |].
      split.
      * intros H. apply cons_unit_exhausted in H. contradiction.
      * intros str rest H. apply cons_unit_parsed in H.
        destruct H as [str' H]. apply Hs in H. simpl. lia.
Qed.

Lemma parse_string_not_exhausted (s : list N) : parse_string s <> Exhausted.
Proof. apply (parse_string_spec (length s)). lia. Qed.

Lemma parse_string_shorter (s str rest : list N) :
  parse_string s = Parsed (str, rest) -> (length rest < length s)%nat.
Proof. apply (parse_string_spec (length s)). lia. Qed.

Lemma skip_digits_length (s : list N) :
  (length (skip_digits s) <= length s)%nat.
Proof.
  induction s as [| c s IH]; simpl; [lia |].
  destruct (is_digit c); simpl; lia.
Qed.

Lemma take_digits_length (s : list N) (acc : N) :
  (length (take_digits acc s).2 <= length s)%nat.
Proof.
  revert acc. induction s as [| c s IH]; intros acc; simpl; [lia |].
  destruct (is_digit c); simpl; [| lia].
  specialize (IH (acc * 10 + (c - 48))%N). lia.
Qed.

Lemma digits1_shorter (s rest : list N) :
  digits1 s = Some rest -> (length rest < length s)%nat.
Proof.
  destruct s as [| c s']; simpl; [discriminate |].
  destruct (is_digit c); [| discriminate].
  intros [= <-]. pose proof (skip_digits_length s'). lia.
Qed.

Lemma lex_fraction_length (s rest : list N) (b : bool) :
  lex_fraction s = Some (b, rest) -> (length rest <= length s)%nat.
Proof.
  destruct s as [| c s']; simpl; [intros [= <- <-]; simpl; lia |].
  destruct (c =? 46)%N.
  - destruct (digits1 s') eqn:E; [| discriminate].
    intros [= <- <-]. apply digits1_shorter in E. lia.
  - intros [= <- <-]. simpl. lia.
Qed.

Lemma lex_exponent_length (s rest : list N) (b : bool) :
  lex_exponent s = Some (b, rest) -> (length rest <= length s)%nat.
Proof.
  destruct s as [| c s']; simpl; [intros [= <- <-]; simpl; lia |].
  destruct ((c =? 101)%N || (c =? 69)%N).
  - destruct s' as [| d t]; [simpl; discriminate |].
    destruct ((d =? 43)%N || (d =? 45)%N).
    + destruct (digits1 t) eqn:E; [| discriminate].
      intros [= <- <-]. apply digits1_shorter in E. simpl. lia.
    + destruct (digits1 (d :: t)) eqn:E; [| discriminate].
      intros [= <- <-]. apply digits1_shorter in E. simpl in *. lia.
  - intros [= <- <-]. simpl. lia.
Qed.

Lemma parse_number_spec (negative : bool) (s : list N) :
  parse_number negative s <> Exhausted
  /\ forall v rest, parse_number negative s = Parsed (v, rest) ->
                    (length rest < length s)%nat.
Proof.
  unfold parse_number. destruct s as [| c s'];
    [split; [discriminate | intros; discriminate] |].
  destruct (is_digit c) eqn:Hd;
    [| split; [discriminate | intros; discriminate]].
  assert (Hrest :
            (length (if (c =? 48)%N then (0%N, s')
                     else take_digits 0 (c :: s')).2
             <= length s')%nat).
  { destruct (c =? 48)%N; [simpl; lia |].
    simpl. rewrite Hd. apply take_digits_length. }
  destruct (if (c =? 48)%N then (0%N, s') else take_digits 0 (c :: s'))
    as [n rest0]. simpl in Hrest.
  destruct (lex_fraction rest0) as [[fraction rest1] |] eqn:Ef;
    [| split; [discriminate | intros; discriminate]].
  destruct (lex_exponent rest1) as [[exponent rest2] |] eqn:Ee;
    [| split; [discriminate | intros; discriminate]].
  apply lex_fraction_length in Ef. apply lex_exponent_length in Ee.
  destruct (fraction || exponent || (9007199254740992 <? n)%N);
    (split; [discriminate | intros v rest [= <- <-]; simpl; lia]).
Qed.

Lemma strip_prefix_length (p s rest : list N) :
  strip_prefix p s = Some rest -> (length rest + length p = length s)%nat.
Proof.
  revert s. induction p as [| a p IH]; intros s; simpl.
  - intros [= <-]. lia.
  - destruct s as [| b s']; [discriminate |].
    destruct (a =? b)%N; [| discriminate].
    intros H. apply IH in H. simpl. lia.
Qed.

Lemma parse_literal_spec (s : list N) :
  parse_literal s <> Exhausted
  /\ forall v rest, parse_literal s = Parsed (v, rest) ->
                    (length rest < length s)%nat.
Proof.
  unfold parse_literal.
  destruct (strip_prefix (js "true") s) eqn:E1.
  { apply strip_prefix_length in E1. simpl in E1.
    split; [discriminate | intros v rest [= <- <-]; lia]. }
  destruct (strip_prefix (js "false") s) eqn:E2.
  { apply strip_prefix_length in E2. simpl in E2.
    split; [discriminate | intros v rest [= <- <-]; lia]. }
  destruct (strip_prefix (js "null") s) eqn:E3.
  { apply strip_prefix_length in E3. simpl in E3.
    split; [discriminate | intros v rest [= <- <-]; lia]. }
  split; [discriminate | intros; discriminate].
Qed.

Ltac split_matches H :=
  repeat match type of H with
         | context [match skip_ws ?x with _ => _ end] =>
             let L := fresh "L" in
             let E := fresh "E" in
             pose proof (skip_ws_length x) as L;
             destruct (skip_ws x) eqn:E; simpl in L
         | context [match parse_string ?x with _ => _ end] =>
             let E := fresh "E" in
             destruct (parse_string x) as [[? ?] | |] eqn:E
         | context [match parse_value ?f ?x with _ => _ end] =>
             let E := fresh "E" in
             destruct (parse_value f x) as [[? ?] | |] eqn:E
         | context [if ?b then _ else _] => destruct b
         end.

Ltac harvest IHv IHm IHe :=
  repeat match goal with
         | H : parse_string _ = Parsed _ |- _ =>
             apply parse_string_shorter in H
         | H : parse_number _ _ = Parsed _ |- _ =>
             apply (proj2 (parse_number_spec _ _)) in H
         | H : parse_literal _ = Parsed _ |- _ =>
             apply (proj2 (parse_literal_spec _)) in H
         | H : parse_value _ _ = Parsed _ |- _ => apply IHv in H
         | H : parse_members _ _ _ = Parsed _ |- _ => apply IHm in H
         | H : parse_elements _ _ _ = Parsed _ |- _ => apply IHe in H
         | H : Parsed _ = Parsed _ |- _ => injection H as <- <-
         end.

Lemma parse_shorter (fuel : nat) :
  (forall s v rest, parse_value fuel s = Parsed (v, rest) ->
                    (length rest < length s)%nat)
  /\ (forall acc s v rest, parse_members fuel acc s = Parsed (v, rest) ->
                           (length rest < length s)%nat)
  /\ (forall acc s v rest, parse_elements fuel acc s = Parsed (v, rest) ->
                           (length rest < length s)%nat).
Proof.
  induction fuel as [| fuel (IHv & IHm & IHe)].
  - repeat split; intros; discriminate.
  - split; [| split].
    + intros s v rest H. cbn [parse_value] in H.
      split_matches H; try discriminate;
        harvest IHv IHm IHe; simpl in *; lia.
    + intros acc s v rest H. cbn [parse_members] in H.
      split_matches H; try discriminate;
        harvest IHv IHm IHe; simpl in *; lia.
    + intros acc s v rest H. cbn [parse_elements] in H.
      split_matches H; try discriminate;
        harvest IHv IHm IHe; simpl in *; lia.
Qed.


Ltac split_goal :=
  repeat match goal with
         | |- context [match skip_ws ?x with _ => _ end] =>
             let L := fresh "L" in
             let E := fresh "E" in
             pose proof (skip_ws_length x) as L;
             destruct (skip_ws x) eqn:E; simpl in L
         | |- context [match parse_string ?x with _ => _ end] =>
             let E := fresh "E" in
             destruct (parse_string x) as [[? ?] | |] eqn:E
         | |- context [match parse_value ?f ?x with _ => _ end] =>
             let E := fresh "E" in
             destruct (parse_value f x) as [[? ?] | |] eqn:E
         | |- context [if ?b then _ else _] => destruct b
         end.

(** With a budget of twice the length of the text, the parser does not come
    to the end of its budget. *)
Lemma parse_budget (fuel : nat) :
  (forall s, (2 * length s + 1 <= fuel)%nat ->
             parse_value fuel s <> Exhausted)
  /\ (forall acc s, (2 * length s + 2 <= fuel)%nat ->
                    parse_members fuel acc s <> Exhausted)
  /\ (forall acc s, (2 * length s + 2 <= fuel)%nat ->
                    parse_elements fuel acc s <> Exhausted).
Proof.
  induction fuel as [| fuel (IHv & IHm & IHe)].
  - repeat split; intros; lia.
  - pose proof (parse_shorter fuel) as (Sv & Sm & Se).
    split; [| split].
    + intros s Hb. cbn [parse_value].
      split_goal; try discriminate;
        try apply parse_string_not_exhausted;
        try apply (proj1 (parse_number_spec _ _));
        try apply (proj1 (parse_literal_spec _));
        try (exfalso; eapply parse_string_not_exhausted; eassumption);
        try (apply IHm; simpl in *; lia);
        try (apply IHe; simpl in *; lia).
    + intros acc s Hb. cbn [parse_members].
      split_goal; try discriminate;
        try (exfalso; eapply parse_string_not_exhausted; eassumption);
        harvest Sv Sm Se;
        try (apply IHm; simpl in *; lia);
        try (exfalso; eapply IHv; [| eassumption]; simpl in *; lia).
    + intros acc s Hb. cbn [parse_elements].
      split_goal; try discriminate;
        harvest Sv Sm Se;
        try (apply IHe; simpl in *; lia);
        try (exfalso; eapply IHv; [| eassumption]; simpl in *; lia).
Qed.

Lemma JSON_parse_not_exhausted (text : list N) : JSON_parse text <> Exhausted.
Proof.
  unfold JSON_parse.
  destruct (parse_value (S (2 * length text)) text) as [[v rest] | |] eqn:E.
  - destruct (skip_ws rest); discriminate.
  - discriminate.
  - exfalso.
    apply (proj1 (parse_budget (S (2 * length text))) text); [lia | exact E].
Qed.

(** ** JSON.parse reads back what JSON.stringify quotes *)

Lemma hex_value_digit (d : N) : (d < 16)%N -> hex_value (hex_digit d) = Some d.
Proof.
  intros H. unfold hex_value, hex_digit, is_digit, in_range.
  destruct (d <? 10)%N eqn:E.
  - apply N.ltb_lt in E.
    replace ((48 <=? 48 + d)%N && (48 + d <=? 57)%N) with true.
    + f_equal. lia.
    + symmetry. apply andb_true_iff. split; apply N.leb_le; lia.
  - apply N.ltb_ge in E.
    replace ((48 <=? 87 + d)%N && (87 + d <=? 57)%N) with false.
    + replace ((97 <=? 87 + d)%N && (87 + d <=? 102)%N) with true.
      * f_equal. lia.
      * symmetry. apply andb_true_iff. split; apply N.leb_le; lia.
    + symmetry. apply andb_false_iff. right. apply N.leb_gt. lia.
Qed.

Lemma hex4_escape (c : N) :
  (c < 65536)%N ->
  hex4 (hex_digit (c / 4096 mod 16)) (hex_digit (c / 256 mod 16))
       (hex_digit (c / 16 mod 16)) (hex_digit (c mod 16)) = Some c.
Proof.
  intros H. unfold hex4.
  rewrite !hex_value_digit by (apply N.mod_lt; discriminate).
  f_equal. zify. Z.to_euclidean_division_equations. lia.
Qed.

Lemma parse_string_plain (c : N) (t : list N) :
  (c =? 34)%N = false -> (c <? 32)%N = false -> (c =? 92)%N = false ->
  parse_string (c :: t) = cons_unit c (parse_string t).
Proof. intros H1 H2 H3. simpl. rewrite H1, H2, H3. reflexivity. Qed.

Lemma parse_string_escape (c : N) (t : list N) :
  (c < 65536)%N ->
  parse_string (unicode_escape c ++ t) = cons_unit c (parse_string t).
Proof.
  intros H. unfold unicode_escape.
  change (js "\u") with [92; 117]%N.
  cbn [app parse_string N.eqb N.ltb N.compare Pos.eqb Pos.compare
       Pos.compare_cont].
  rewrite (hex4_escape c H). reflexivity.
Qed.

Lemma parse_string_quote_unit (c : N) (t : list N) :
  parse_string (quote_unit c ++ t) = cons_unit c (parse_string t).
Proof.
  unfold quote_unit.
  destruct (c =? 34)%N eqn:E34; [apply N.eqb_eq in E34; subst; reflexivity |].
  destruct (c =? 92)%N eqn:E92; [apply N.eqb_eq in E92; subst; reflexivity |].
  destruct (c =? 8)%N eqn:E8; [apply N.eqb_eq in E8; subst; reflexivity |].
  destruct (c =? 9)%N eqn:E9; [apply N.eqb_eq in E9; subst; reflexivity |].
  destruct (c =? 10)%N eqn:E10; [apply N.eqb_eq in E10; subst; reflexivity |].
  destruct (c =? 12)%N eqn:E12; [apply N.eqb_eq in E12; subst; reflexivity |].
  destruct (c =? 13)%N eqn:E13; [apply N.eqb_eq in E13; subst; reflexivity |].
  destruct (c <? 32)%N eqn:E32.
  - apply parse_string_escape. apply N.ltb_lt in E32. lia.
  - apply parse_string_plain; assumption.
Qed.

Lemma surrogate_plain (c : N) :
  in_range 0xD800 0xDFFF c = true ->
  (c =? 34)%N = false /\ (c <? 32)%N = false /\ (c =? 92)%N = false
  /\ (c < 65536)%N.
Proof.
  unfold in_range. intros H. apply andb_true_iff in H. destruct H as [H1 H2].
  apply N.leb_le in H1, H2.
  repeat split; try (apply N.eqb_neq; lia); try (apply N.ltb_ge; lia); lia.
Qed.

Lemma high_is_surrogate (c : N) :
  is_high_surrogate c = true -> in_range 0xD800 0xDFFF c = true.
Proof.
  unfold is_high_surrogate, in_range. intros H. apply andb_true_iff in H.
  destruct H as [H1 H2]. apply N.leb_le in H1, H2.
  apply andb_true_iff. split; apply N.leb_le; lia.
Qed.

Lemma low_is_surrogate (c : N) :
  is_low_surrogate c = true -> in_range 0xD800 0xDFFF c = true.
Proof.
  unfold is_low_surrogate, in_range. intros H. apply andb_true_iff in H.
  destruct H as [H1 H2]. apply N.leb_le in H1, H2.
  apply andb_true_iff. split; apply N.leb_le; lia.
Qed.

(** A quoted string is read back as it was, whatever its units. *)
Lemma parse_string_quote_units (s rest : list N) :
  parse_string (quote_units s ++ 34%N :: rest) = Parsed (s, rest).
Proof.
  remember (length s) as n eqn:Hn. revert s Hn.
  induction n as [n IH] using lt_wf_ind. intros s Hn.
  destruct s as [| c s']; [reflexivity |].
  cbn [quote_units].
  destruct (is_high_surrogate c) eqn:Hh.
  - destruct (surrogate_plain c (high_is_surrogate c Hh))
      as (P1 & P2 & P3 & P4).
    destruct s' as [| d s''].
    + rewrite (parse_string_escape c _ P4). reflexivity.
    + destruct (is_low_surrogate d) eqn:Hl.
      * destruct (surrogate_plain d (low_is_surrogate d Hl))
          as (Q1 & Q2 & Q3 & Q4).
        cbn [app]. rewrite (parse_string_plain c _ P1 P2 P3).
        rewrite (parse_string_plain d _ Q1 Q2 Q3).
        rewrite (IH (length s'')) by (simpl in Hn; lia || reflexivity).
        reflexivity.
      * rewrite <- app_assoc. rewrite (parse_string_escape c _ P4).
        rewrite (IH (length (d :: s''))) by (simpl in *; lia || reflexivity).
        reflexivity.
  - destruct (is_low_surrogate c) eqn:Hl.
    + destruct (surrogate_plain c (low_is_surrogate c Hl))
        as (P1 & P2 & P3 & P4).
      rewrite <- app_assoc. rewrite (parse_string_escape c _ P4).
      rewrite (IH (length s')) by (simpl in *; lia || reflexivity).
      reflexivity.
    + rewrite <- app_assoc. rewrite parse_string_quote_unit.
      rewrite (IH (length s')) by (simpl in *; lia || reflexivity).
      reflexivity.
Qed.

Lemma fuel_five (text : list N) :
  (2 <= length text)%nat ->
  exists f, S (2 * length text) = S (S (S (S (S f)))).
Proof. intros H. exists (2 * length text - 4)%nat. lia. Qed.

(** The body of a 500 answer is the JSON text of an object with the field
    error. *)
Lemma parse_error_object (number_text : list N -> list N) (m : list N) :
  JSON_parse (serialize number_text (Obj [(js "error", Str m)]))
  = Parsed (Obj [(js "error", Str m)]).
Proof.
  unfold JSON_parse.
  destruct (fuel_five (serialize number_text (Obj [(js "error", Str m)])))
    as [f ->].
  { simpl. lia. }
  change (serialize number_text (Obj [(js "error", Str m)]))
    with (123 :: 34 :: 101 :: 114 :: 114 :: 111 :: 114 :: 34 :: 58 :: 34
          :: ((quote_units m ++ [34]) ++ []) ++ [125])%N.
  rewrite app_nil_r, <- app_assoc. cbn [app].
  remember (Parsed (Obj [(js "error", Str m)])) as expected.
  cbn -[quote_units].
  rewrite parse_string_quote_units. subst expected. reflexivity.
Qed.

(** The body of a 502 answer is the JSON text of an object with the fields
    error and details. *)
Lemma parse_bad_gateway_object (number_text : list N -> list N)
    (m : list N) :
  JSON_parse (serialize number_text
                (Obj [ (js "error", Str (js "Bad gateway"));
                       (js "details", Str m) ]))
  = Parsed (Obj [ (js "error", Str (js "Bad gateway"));
                  (js "details", Str m) ]).
Proof.
  unfold JSON_parse.
  destruct (fuel_five (serialize number_text
                         (Obj [ (js "error", Str (js "Bad gateway"));
                                (js "details", Str m) ]))) as [f E].
  { simpl. lia. }
  rewrite E. clear E.
  change (serialize number_text
            (Obj [ (js "error", Str (js "Bad gateway"));
                   (js "details", Str m) ]))
    with (123 :: 34 :: 101 :: 114 :: 114 :: 111 :: 114 :: 34 :: 58 :: 34
          :: 66 :: 97 :: 100 :: 32 :: 103 :: 97 :: 116 :: 101 :: 119 :: 97
          :: 121 :: 34 :: 44 :: 34 :: 100 :: 101 :: 116 :: 97 :: 105 :: 108
          :: 115 :: 34 :: 58 :: 34
          :: ((quote_units m ++ [34]) ++ []) ++ [125])%N.
  rewrite app_nil_r, <- app_assoc. cbn [app].
  remember (Parsed (Obj [ (js "error", Str (js "Bad gateway"));
                  (js "details", Str m) ])) as expected.
  cbn -[quote_units].
  rewrite parse_string_quote_units. subst expected. reflexivity.
Qed.

(** ** The listener on the completions endpoint *)

Lemma completions_not_health (target : list N) :
  includes (js "/chat/completions") target = true -> target <> js "/health".
Proof. intros H ->. vm_compute in H. discriminate. Qed.

Section Completions.

Variable rt : runtime.
Variable cfg : config.
Variable req : request.
Variable reply : upstream_result.

Hypothesis is_post : req_method req = js "POST".
Hypothesis is_completions :
  includes (js "/chat/completions") (req_url req) = true.

Lemma listener_on_end :
  listener rt cfg req reply = on_end rt cfg req reply.
Proof.
  unfold listener.
  rewrite bool_decide_eq_false_2
    by (apply completions_not_health; exact is_completions).
  rewrite bool_decide_eq_true_2 by exact is_post.
  rewrite is_completions. reflexivity.
Qed.

(** Once the [try] block has its payload, the listener hands its
    serialization to [proxyRequestWithBody]. *)
Lemma listener_prepared (events : list event) (payload : value) :
  prepare rt cfg (req_body req) = Done (events, payload) ->
  listener rt cfg req reply
  = forward rt cfg req reply events (stringify rt payload).
Proof.
  intros Hp. rewrite listener_on_end. unfold on_end. rewrite Hp.
  reflexivity.
Qed.

(** When the request target resolves, the text goes upstream. *)
Lemma forward_resolved (events : list event) (text : list N) (u : url) :
  URL rt (req_url req) (baseUrl cfg) = Some u ->
  forward rt cfg req reply events text =
    (events ++ (settle rt reply).1,
     Forwarded
       {| up_hostname := hostname u;
          up_port := target_port u;
          up_path := pathname u ++ search u;
          up_method := req_method req;
          up_headers :=
            <["content-length" :=
                number_to_string (Z.of_nat (byteLength text))]>
            (forwarded_headers cfg req u);
          up_body := text |}
       (settle rt reply).2).
Proof.
  intros Hu. unfold forward, proxyRequestWithBody. rewrite Hu.
  destruct (settle rt reply) as [events' r]. reflexivity.
Qed.

Lemma listener_thrown (e : error) :
  prepare rt cfg (req_body req) = Throws e ->
  listener rt cfg req reply = caught rt cfg [] e.
Proof.
  intros Hp. rewrite listener_on_end. unfold on_end. rewrite Hp.
  reflexivity.
Qed.

End Completions.

(** ** A concrete setting *)

(** ** A model that is not a sentinel *)

(** C4, as stated, fails: the body goes through JSON.parse and
    JSON.stringify, which drops the space; what is sent upstream is not the
    original text. *)
Lemma non_sentinel_body_not_verbatim :
  JSON_parse spaced_body = Parsed (Obj [(js "model", Str (js "gpt-4o"))])
  /\ forwarded_body
       (listener sample_runtime sample_config (post spaced_body)
          (Answered 200 ∅ [])).2
     = Some compact_body
  /\ compact_body <> spaced_body.
Proof.
  split; [vm_compute; reflexivity |].
  split; [vm_compute; reflexivity |].
  vm_compute. discriminate.
Qed.

(** The body [null] parses, and its model cannot be read: the request is
    answered with 500 and nothing is sent upstream. *)
Lemma null_body_not_forwarded :
  JSON_parse (js "null") = Parsed Null
  /\ (listener sample_runtime sample_config (post (js "null"))
        (Answered 200 ∅ [])).2
     = Direct {| status := 500;
                 headers := json_headers;
                 body := stringify sample_runtime
                   (Obj [(js "error",
                          Str (sample_message (ReadOfNullish Null "model")))]) |}.
Proof. split; vm_compute; reflexivity. Qed.

Lemma bind_done {A B : Type} (a : A) (f : A -> attempt B) :
  (Done a ≫= f) = f a.
Proof. reflexivity. Qed.

Lemma read_property_object (fields : list (list N * value)) (k : string) :
  read_property (Obj fields) k = Done (default Undefined (get (js k) fields)).
Proof. reflexivity. Qed.

Lemma prepare_not_auto (rt : runtime) (cfg : config) (text : list N)
    (payload originalModel : value) :
  JSON_parse text = Parsed payload ->
  read payload (js "model") = Some originalModel ->
  isAutoRoute originalModel = false ->
  prepare rt cfg text = Done ([], payload).
Proof.
  intros Hp Hm Ha. unfold prepare. rewrite Hp.
  unfold read_property. rewrite Hm. simpl. rewrite Ha. reflexivity.
Qed.

(** C4, amended.  On a POST to the completions endpoint whose body parses
    as JSON to a value other than null and whose model is not an auto
    sentinel, nothing is classified and no callback runs; the proxy hands
    JSON.stringify of the parsed body to proxyRequestWithBody, which sends
    it upstream, the same value in compact form, with content-length set to
    its byte length.  The original text is sent exactly when it is that
    compact form. *)
Theorem non_sentinel_forwarded_reserialized
    (rt : runtime) (cfg : config) (req : request) (reply : upstream_result)
    (payload : value) :
  req_method req = js "POST" ->
  includes (js "/chat/completions") (req_url req) = true ->
  JSON_parse (req_body req) = Parsed payload ->
  payload <> Null ->
  (forall m, read payload (js "model") = Some m -> isAutoRoute m = false) ->
  prepare rt cfg (req_body req) = Done ([], payload)
  /\ JSON_stringify (Number_toString rt) payload = Some (stringify rt payload)
  /\ listener rt cfg req reply
     = forward rt cfg req reply [] (stringify rt payload)
  /\ forall u : url,
       URL rt (req_url req) (baseUrl cfg) = Some u ->
       exists up : upstream_request,
         listener rt cfg req reply
         = ((settle rt reply).1, Forwarded up (settle rt reply).2)
         /\ up_body up = stringify rt payload
         /\ up_headers up !! "content-length"
            = Some (number_to_string (Z.of_nat (byteLength (up_body up))))
         /\ (up_body up = req_body req <-> req_body req = stringify rt payload).
Proof.
  intros Hpost Hpath Hparse Hnull Hmodel.
  destruct (read_parsed _ _ (js "model") Hparse Hnull) as [m Hm].
  pose proof (prepare_not_auto rt cfg _ _ _ Hparse Hm (Hmodel m Hm)) as Hprep.
  pose proof (listener_prepared rt cfg req reply Hpost Hpath
                [] payload Hprep) as Hl.
  split; [exact Hprep |]. split; [| split; [exact Hl |]].
  - pose proof (JSON_parse_defined _ _ Hparse).
    destruct payload; try congruence; reflexivity.
  - intros u Hurl. eexists. split.
    + rewrite Hl. apply (forward_resolved rt cfg req reply); exact Hurl.
    + cbn [up_body up_headers]. split; [reflexivity |].
      split; [apply lookup_insert_eq |]. split; congruence.
Qed.

Lemma non_sentinel_forwarded_reserialized_witness :
  exists up : upstream_request,
    listener sample_runtime sample_config (post spaced_body)
      (Answered 200 ∅ [])
    = ([], Forwarded up {| status := 200; headers := ∅; body := [] |})
    /\ up_body up = compact_body.
Proof.
  destruct (non_sentinel_forwarded_reserialized sample_runtime
              sample_config (post spaced_body) (Answered 200 ∅ [])
              (Obj [(js "model", Str (js "gpt-4o"))]))
    as (_ & _ & _ & H).
  - reflexivity.
  - vm_compute. reflexivity.
  - vm_compute. reflexivity.
  - discriminate.
  - intros m Hm. vm_compute in Hm. injection Hm as <-. vm_compute. reflexivity.
  - destruct (H {| protocol := js "http:"; hostname := js "localhost";
                   port := js "4000"; host := js "localhost:4000";
                   pathname := js "/v1/chat/completions"; search := [] |}
                eq_refl) as (up & Hl & Hb & _).
    exists up. split; [exact Hl |]. rewrite Hb. vm_compute. reflexivity.
Defined.

(** ** Errors *)

Lemma prepare_syntax_error (rt : runtime) (cfg : config) (text : list N) :
  JSON_parse text = SyntaxError ->
  prepare rt cfg text = Throws (JsonSyntaxError text).
Proof. intros H. unfold prepare. rewrite H. reflexivity. Qed.

Lemma settle_failed (rt : runtime) (details : list N) :
  settle rt (Failed details) = ([ConsoleError details], bad_gateway rt details).
Proof. reflexivity. Qed.

Lemma proxyRequestWithBody_done
    (rt : runtime) (cfg : config) (req : request)
    (text : list N) (reply : upstream_result)
    (events : list event) (up : upstream_request) (r : response) :
  proxyRequestWithBody rt cfg req text reply = Done (events, up, r) ->
  events = (settle rt reply).1 /\ r = (settle rt reply).2 /\ up_body up = text.
Proof.
  unfold proxyRequestWithBody.
  destruct (URL rt (req_url req) (baseUrl cfg)); [| discriminate].
  destruct (settle rt reply) as [events' r']. intros [= <- <- <-].
  repeat split.
Qed.

Lemma proxyRequest_done
    (rt : runtime) (cfg : config) (req : request)
    (reply : upstream_result)
    (events : list event) (up : upstream_request) (r : response) :
  proxyRequest rt cfg req reply = Done (events, up, r) ->
  events = (settle rt reply).1 /\ r = (settle rt reply).2
  /\ up_body up = req_body req.
Proof.
  unfold proxyRequest.
  destruct (URL rt (req_url req) (baseUrl cfg)); [| discriminate].
  destruct (settle rt reply) as [events' r']. intros [= <- <- <-].
  repeat split.
Qed.

(** Whatever is sent upstream, the client gets what the upstream connection
    settles on. *)
Lemma forwarded_response
    (rt : runtime) (cfg : config) (req : request) (reply : upstream_result)
    (events : list event) (up : upstream_request) (r : response) :
  listener rt cfg req reply = (events, Forwarded up r) ->
  r = (settle rt reply).2.
Proof.
  unfold listener.
  destruct (bool_decide (req_url req = js "/health")); [discriminate |].
  destruct (negb (bool_decide (req_method req = js "POST"))
            || negb (includes (js "/chat/completions") (req_url req))).
  - destruct (proxyRequest rt cfg req reply) as [[[ev u] r'] | e |] eqn:E;
      try discriminate.
    intros [= <- <- <-]. apply (proxyRequest_done _ _ _ _ _ _ _ E).
  - unfold on_end, forward, caught.
    destruct (prepare rt cfg (req_body req)) as [[ev payload] | e |];
      try discriminate.
    destruct (proxyRequestWithBody rt cfg req (stringify rt payload) reply)
      as [[[ev' u] r'] | e |] eqn:E; try discriminate.
    intros [= <- <- <-]. apply (proxyRequestWithBody_done _ _ _ _ _ _ _ _ E).
Qed.

(** C5.  A POST to the completions endpoint whose body is not valid JSON is
    answered with 500 and the JSON text of an object whose error field is
    the message of the exception; a request whose upstream connection fails
    is answered with 502 and the JSON text of an object with the fields
    error and details. *)
Theorem error_responses
    (rt : runtime) (cfg : config) (req : request) :
  (forall reply : upstream_result,
     req_method req = js "POST" ->
     includes (js "/chat/completions") (req_url req) = true ->
     (forall v : value, JSON_parse (req_body req) <> Parsed v) ->
     exists r : response,
       listener rt cfg req reply
       = ((if onError cfg then [OnError (JsonSyntaxError (req_body req))]
           else []),
          Direct r)
       /\ status r = 500%Z
       /\ headers r = json_headers
       /\ JSON_stringify (Number_toString rt)
            (Obj [(js "error",
                   Str (message rt (JsonSyntaxError (req_body req))))])
          = Some (body r)
       /\ JSON_parse (body r)
          = Parsed
              (Obj [(js "error",
                     Str (message rt (JsonSyntaxError (req_body req))))]))
  /\ (forall (details : list N) (events : list event)
        (up : upstream_request) (r : response),
        listener rt cfg req (Failed details)
        = (events, Forwarded up r) ->
        status r = 502%Z
        /\ headers r = json_headers
        /\ JSON_stringify (Number_toString rt)
             (Obj [ (js "error", Str (js "Bad gateway"));
                    (js "details", Str details) ])
           = Some (body r)
        /\ JSON_parse (body r)
           = Parsed (Obj [ (js "error", Str (js "Bad gateway"));
                           (js "details", Str details) ])).
Proof.
  split.
  - intros reply Hpost Hpath Hinvalid.
    assert (Hparse : JSON_parse (req_body req) = SyntaxError).
    { pose proof (JSON_parse_not_exhausted (req_body req)) as Hne.
      destruct (JSON_parse (req_body req)) as [v | |];
        [exfalso; exact (Hinvalid v eq_refl) | reflexivity | congruence]. }
    rewrite (listener_thrown rt cfg req reply Hpost Hpath
               _ (prepare_syntax_error rt cfg _ Hparse)).
    unfold caught. eexists. split; [reflexivity |].
    cbn [status headers body]. repeat split.
    apply parse_error_object.
  - intros details events up r H.
    rewrite (forwarded_response rt cfg req (Failed details)
               events up r H).
    rewrite settle_failed. unfold bad_gateway.
    cbn [snd status headers body]. repeat split.
    apply parse_bad_gateway_object.
Qed.

Lemma error_responses_witness :
  (exists r : response,
     listener sample_runtime sample_config (post broken_body)
       (Answered 200 ∅ [])
     = ([OnError (JsonSyntaxError broken_body)], Direct r)
     /\ status r = 500%Z
     /\ JSON_parse (body r)
        = Parsed (Obj [(js "error", Str (js "Unexpected token in JSON"))]))
  /\ exists (events : list event) (up : upstream_request) (r : response),
       listener sample_runtime sample_config (post compact_body)
         (Failed (js "connect ECONNREFUSED"))
       = (events, Forwarded up r)
       /\ status r = 502%Z
       /\ JSON_parse (body r)
          = Parsed (Obj [ (js "error", Str (js "Bad gateway"));
                          (js "details", Str (js "connect ECONNREFUSED")) ]).
Proof.
  split.
  - destruct (proj1 (error_responses sample_runtime sample_config
                       (post broken_body)) (Answered 200 ∅ []))
      as (r & Hl & Hs & _ & _ & Hp).
    + reflexivity.
    + vm_compute. reflexivity.
    + intros v Hv. vm_compute in Hv. discriminate.
    + exists r. split; [exact Hl |]. split; [exact Hs | exact Hp].
  - destruct (listener sample_runtime sample_config
                (post compact_body) (Failed (js "connect ECONNREFUSED")))
      as [events o] eqn:E.
    destruct o as [r | up r | e |];
      try (exfalso; vm_compute in E; discriminate).
    exists events, up, r.
    destruct (proj2 (error_responses sample_runtime sample_config
                       (post compact_body)) _ _ _ _ E)
      as (Hs & _ & _ & Hp).
    split; [reflexivity |]. split; [exact Hs | exact Hp].
Defined.

(** ** A sentinel without messages *)

Lemma settle_no_routing (rt : runtime) (reply : upstream_result) :
  Forall no_routing_event (settle rt reply).1.
Proof. destruct reply; simpl; repeat constructor. Qed.

(** The forwarding call adds no routing event. *)
Lemma forward_no_routing
    (rt : runtime) (cfg : config) (req : request) (reply : upstream_result)
    (events : list event) (text : list N) :
  Forall no_routing_event events ->
  Forall no_routing_event (forward rt cfg req reply events text).1.
Proof.
  intros He. unfold forward, caught.
  destruct (proxyRequestWithBody rt cfg req text reply)
    as [[[events' up] r] | e |] eqn:E; simpl.
  - apply Forall_app. split; [exact He |].
    destruct (proxyRequestWithBody_done _ _ _ _ _ _ _ _ E) as (-> & _ & _).
    apply settle_no_routing.
  - apply Forall_app. split; [exact He |].
    destruct (onError cfg); repeat constructor.
  - exact He.
Qed.

(** C10.  On a POST to the completions endpoint whose body parses as a JSON
    object with an auto sentinel as model and with messages missing or an
    empty list, nothing is classified, onRouted is not called, and the body
    handed to proxyRequestWithBody and sent upstream is the serialization
    of the parsed object as it is, model still the sentinel. *)
Theorem sentinel_without_messages_not_routed
    (rt : runtime) (cfg : config) (req : request) (reply : upstream_result)
    (fields : list (list N * value)) (sentinel : list N) :
  req_method req = js "POST" ->
  includes (js "/chat/completions") (req_url req) = true ->
  JSON_parse (req_body req) = Parsed (Obj fields) ->
  get (js "model") fields = Some (Str sentinel) ->
  sentinel ∈ [js "auto"; js "litellm/auto"; js "litellm-clawrouter/auto"] ->
  (get (js "messages") fields = None
   \/ get (js "messages") fields = Some (Arr [])) ->
  prepare rt cfg (req_body req) = Done ([], Obj fields)
  /\ read (Obj fields) (js "model") = Some (Str sentinel)
  /\ listener rt cfg req reply
     = forward rt cfg req reply [] (stringify rt (Obj fields))
  /\ Forall no_routing_event (listener rt cfg req reply).1
  /\ forall u : url,
       URL rt (req_url req) (baseUrl cfg) = Some u ->
       exists (up : upstream_request),
         listener rt cfg req reply
         = ((settle rt reply).1, Forwarded up (settle rt reply).2)
         /\ up_body up = stringify rt (Obj fields).
Proof.
  intros Hpost Hpath Hparse Hmodel Hs Hmsgs.
  assert (Hauto : isAutoRoute (Str sentinel) = true).
  { simpl. repeat (apply elem_of_cons in Hs; destruct Hs as [-> | Hs]);
      [reflexivity | reflexivity | reflexivity |].
    apply elem_of_nil in Hs. contradiction. }
  assert (Hprep : prepare rt cfg (req_body req) = Done ([], Obj fields)).
  { unfold prepare. rewrite Hparse, !read_property_object, Hmodel.
    change (default Undefined (Some (Str sentinel))) with (Str sentinel).
    rewrite !bind_done, Hauto.
    destruct Hmsgs as [-> | ->]; reflexivity. }
  pose proof (listener_prepared rt cfg req reply Hpost Hpath
                [] (Obj fields) Hprep) as Hl.
  split; [exact Hprep |].
  split; [simpl; rewrite Hmodel; reflexivity |].
  split; [exact Hl |]. split.
  - rewrite Hl. apply forward_no_routing. constructor.
  - intros u Hurl. eexists. split.
    + rewrite Hl.
      apply (forward_resolved rt cfg req reply); exact Hurl.
    + reflexivity.
Qed.

Lemma sentinel_without_messages_not_routed_witness :
  exists (up : upstream_request),
    listener sample_runtime sample_config
      (post empty_messages_body) (Answered 200 ∅ [])
    = ([], Forwarded up {| status := 200; headers := ∅; body := [] |})
    /\ up_body up = empty_messages_body.
Proof.
  destruct (sentinel_without_messages_not_routed sample_runtime
              sample_config (post empty_messages_body) (Answered 200 ∅ [])
              [(js "model", Str (js "auto")); (js "messages", Arr [])]
              (js "auto"))
    as (_ & _ & _ & _ & H).
  - reflexivity.
  - vm_compute. reflexivity.
  - vm_compute. reflexivity.
  - vm_compute. reflexivity.
  - apply list_elem_of_here.
  - right. vm_compute. reflexivity.
  - destruct (H {| protocol := js "http:"; hostname := js "localhost";
                   port := js "4000"; host := js "localhost:4000";
                   pathname := js "/v1/chat/completions"; search := [] |}
                eq_refl) as (up & Hl & Hb).
    exists up. split; [exact Hl |]. rewrite Hb. vm_compute. reflexivity.
Defined.

(** * More on the router *)

(** ** Bounds of the weighted sum *)

Lemma score_of_unit (prompt : list N) (dim : string) :
  unit_interval (score_of prompt dim).
Proof.
  unfold score_of. destruct (scoreDimensions prompt !! dim) as [v |] eqn:E.
  - exact (scoreDimensions_unit prompt dim v E).
  - simpl. unfold unit_interval. lra.
Qed.

Lemma tokenCount_score_floor (n : nat) : 0.2 <= tokenCount_score n.
Proof.
  unfold tokenCount_score.
  destruct (n <? 50)%nat eqn:Hlo; [lra |].
  destruct (500 <? n)%nat eqn:Hhi; [lra |].
  apply Nat.ltb_ge in Hlo.
  pose proof (of_nat_le 50 n Hlo) as H1. change (of_nat 50) with 50 in H1.
  assert (0 <= (of_nat n - 50) / 900) by (apply Qle_shift_div_l; lra).
  lra.
Qed.

Lemma score_of_tokenCount (prompt : list N) :
  score_of prompt "tokenCount" = tokenCount_score (tokenCount prompt).
Proof. unfold score_of. rewrite tokenCount_lookup. reflexivity. Qed.

(** X1.  The weighted sum of every prompt lies between 0.016 and 1: the
    token count never scores below 0.2, and no score exceeds 1. *)
Theorem weightedSum_bounds (prompt : list N) :
  0.016 <= weightedSum (scoreDimensions prompt) <= 1.
Proof.
  rewrite weightedSum_total.
  unfold weighted_total, WEIGHTS. cbn [fold_right].
  pose proof (tokenCount_score_floor (tokenCount prompt)) as Ht.
  rewrite <- score_of_tokenCount in Ht.
  pose proof (score_of_unit prompt "reasoning").
  pose proof (score_of_unit prompt "code").
  pose proof (score_of_unit prompt "simple").
  pose proof (score_of_unit prompt "multiStep").
  pose proof (score_of_unit prompt "technical").
  pose proof (score_of_unit prompt "tokenCount").
  pose proof (score_of_unit prompt "creative").
  pose proof (score_of_unit prompt "questionComplexity").
  pose proof (score_of_unit prompt "constraints").
  pose proof (score_of_unit prompt "imperative").
  pose proof (score_of_unit prompt "outputFormat").
  pose proof (score_of_unit prompt "domain").
  pose proof (score_of_unit prompt "reference").
  pose proof (score_of_unit prompt "negation").
  unfold unit_interval in *. lra.
Qed.

(** ** The scores of the pattern table *)

Ltac in_table :=
  repeat first [apply list_elem_of_here | apply list_elem_of_further].

Lemma pattern_lookup (prompt : list N) (dim : string) (patterns : list regex) :
  (dim, patterns) ∈ PATTERNS ->
  scoreDimensions prompt !! dim = Some (pattern_score patterns prompt).
Proof.
  intros H. unfold PATTERNS in H.
  repeat (apply elem_of_cons in H; destruct H as [H | H]);
    [.. | apply elem_of_nil in H; contradiction];
    injection H as -> ->;
    unfold scoreDimensions, PATTERNS; cbn [fold_left];
    rewrite ?lookup_insert_ne by discriminate;
    apply lookup_insert_eq.
Qed.

Lemma PATTERNS_nonempty (dim : string) (patterns : list regex) :
  (dim, patterns) ∈ PATTERNS -> (0 < length patterns)%nat.
Proof.
  intros H. unfold PATTERNS in H.
  repeat (apply elem_of_cons in H; destruct H as [H | H]);
    [.. | apply elem_of_nil in H; contradiction];
    injection H as -> ->; simpl; lia.
Qed.

Lemma count_matches_le (patterns : list regex) (prompt : list N) :
  (count_matches patterns prompt <= length patterns)%nat.
Proof. unfold count_matches. apply length_filter. Qed.

Lemma count_matches_all (patterns : list regex) (prompt : list N) :
  count_matches patterns prompt = length patterns
  <-> Forall (fun r => test r prompt = true) patterns.
Proof.
  unfold count_matches. induction patterns as [| r l IH].
  - split; [constructor | reflexivity].
  - pose proof (length_filter (fun r => test r prompt = true) l) as Hle.
    destruct (decide (test r prompt = true)) as [T | T].
    + rewrite filter_cons_True by exact T. simpl. split.
      * intros H. constructor; [exact T | apply IH; lia].
      * intros H. inversion H; subst. f_equal. apply IH. assumption.
    + rewrite filter_cons_False by exact T. simpl. split.
      * intros H. lia.
      * intros H. inversion H; subst. contradiction.
Qed.

Lemma count_matches_none (patterns : list regex) (prompt : list N) :
  count_matches patterns prompt = 0%nat
  <-> Forall (fun r => test r prompt = false) patterns.
Proof.
  unfold count_matches. induction patterns as [| r l IH].
  - split; [constructor | reflexivity].
  - destruct (test r prompt) eqn:T.
    + rewrite filter_cons_True by exact T. simpl. split.
      * intros H. lia.
      * intros H. inversion H; subst. congruence.
    + rewrite filter_cons_False by congruence. split.
      * intros H. constructor; [exact T | apply IH; exact H].
      * intros H. inversion H; subst. apply IH. assumption.
Qed.

Lemma of_nat_positive (n : nat) : (0 < n)%nat -> 0 < of_nat n.
Proof.
  intros H. unfold of_nat. change 0 with (inject_Z 0).
  rewrite <- Zlt_Qlt. lia.
Qed.

Lemma of_nat_eq (n m : nat) : of_nat n == of_nat m <-> n = m.
Proof.
  unfold of_nat. rewrite inject_Z_injective. lia.
Qed.

(** The score of a table of patterns is the fraction that matches; the
    minimum with 1 changes nothing. *)
Lemma pattern_score_ratio (patterns : list regex) (prompt : list N) :
  (0 < length patterns)%nat ->
  pattern_score patterns prompt
  == of_nat (count_matches patterns prompt) / of_nat (length patterns).
Proof.
  intros Hn. unfold pattern_score, Math_min.
  destruct (Qle_bool _ 1.0) eqn:E; [reflexivity |].
  exfalso. apply not_true_iff_false in E. apply E. apply Qle_bool_iff.
  pose proof (of_nat_positive _ Hn) as Hpos.
  apply Qle_shift_div_r; [exact Hpos |].
  pose proof (of_nat_le _ _ (count_matches_le patterns prompt)). lra.
Qed.

(** X2.  For every dimension of the pattern table the stored score is the
    number of matching patterns over the number of patterns: it is 1
    exactly when every pattern matches and 0 exactly when none does. *)
Theorem pattern_score_is_fraction
    (prompt : list N) (dim : string) (patterns : list regex) :
  (dim, patterns) ∈ PATTERNS ->
  exists v : Q,
    scoreDimensions prompt !! dim = Some v
    /\ v == of_nat (count_matches patterns prompt) / of_nat (length patterns)
    /\ (v == 1 <-> Forall (fun r => test r prompt = true) patterns)
    /\ (v == 0 <-> Forall (fun r => test r prompt = false) patterns).
Proof.
  intros Hin. exists (pattern_score patterns prompt).
  pose proof (PATTERNS_nonempty dim patterns Hin) as Hn.
  pose proof (of_nat_positive _ Hn) as Hpos.
  pose proof (pattern_score_ratio patterns prompt Hn) as Hr.
  split; [exact (pattern_lookup prompt dim patterns Hin) |].
  split; [exact Hr |].
  rewrite Hr, <- count_matches_all, <- count_matches_none.
  rewrite <- (of_nat_eq (count_matches patterns prompt) (length patterns)).
  rewrite <- (of_nat_eq (count_matches patterns prompt) 0).
  change (of_nat 0) with 0.
  set (c := of_nat (count_matches patterns prompt)) in *.
  set (n := of_nat (length patterns)) in *.
  assert (Hc : c == c / n * n) by (field; lra).
  split; split; intros H.
  - rewrite Hc, H. ring.
  - rewrite H. field. lra.
  - rewrite Hc, H. ring.
  - rewrite H. field. lra.
Qed.

Lemma pattern_score_is_fraction_witness :
  exists v : Q,
    scoreDimensions (js "What is 2+2?") !! "simple" = Some v
    /\ v == of_nat (count_matches simple_patterns (js "What is 2+2?"))
            / of_nat (length simple_patterns).
Proof.
  destruct (pattern_score_is_fraction (js "What is 2+2?") "simple"
              simple_patterns) as (v & Hv & Hr & _).
  - unfold PATTERNS. in_table.
  - exists v. split; [exact Hv | exact Hr].
Defined.

(** ** Prompts that match no pattern *)

Lemma unmatched_dimension
    (prompt : list N) (dim : string) (patterns : list regex) :
  (dim, patterns) ∈ PATTERNS ->
  count_matches patterns prompt = 0%nat ->
  score_of prompt dim == 0.
Proof.
  intros Hin Hc. unfold score_of.
  rewrite (pattern_lookup prompt dim patterns Hin). simpl.
  rewrite (pattern_score_ratio _ _ (PATTERNS_nonempty _ _ Hin)), Hc.
  change (of_nat 0) with 0. unfold Qdiv. ring.
Qed.

Lemma selected_simple (score : string -> Q) (sum : Q) (m : nat) (t : Tier) :
  simple_rule score sum -> selected score sum m t -> t = SIMPLE.
Proof. intros Hs Ht. inversion Ht; subst; [reflexivity | tauto ..]. Qed.

(** X3.  A prompt that matches none of the patterns of the table is routed
    to SIMPLE by the weighted method, whatever its length and its question
    marks: these two scores weigh 0.12 at most. *)
Theorem route_without_matches_simple (prompt : list N) (opts : options) :
  (forall dim patterns,
     (dim, patterns) ∈ PATTERNS -> count_matches patterns prompt = 0%nat) ->
  tier (route prompt opts) = SIMPLE
  /\ method (route prompt opts) = weighted
  /\ weightedSum (scoreDimensions prompt) <= 0.12.
Proof.
  intros H.
  assert (Hz : forall dim patterns,
            (dim, patterns) ∈ PATTERNS -> score_of prompt dim == 0).
  { intros dim patterns Hin.
    exact (unmatched_dimension prompt dim patterns Hin (H dim patterns Hin)). }
  assert (Hm : (reasoningMatches prompt < 2)%nat).
  { unfold reasoningMatches.
    rewrite (H "reasoning" reasoning_patterns) by (unfold PATTERNS; in_table).
    lia. }
  pose proof (Hz "reasoning" reasoning_patterns
                ltac:(unfold PATTERNS; in_table)) as Z1.
  pose proof (Hz "code" code_patterns ltac:(unfold PATTERNS; in_table)) as Z2.
  pose proof (Hz "simple" simple_patterns
                ltac:(unfold PATTERNS; in_table)) as Z3.
  pose proof (Hz "multiStep" multiStep_patterns
                ltac:(unfold PATTERNS; in_table)) as Z4.
  pose proof (Hz "technical" technical_patterns
                ltac:(unfold PATTERNS; in_table)) as Z5.
  pose proof (Hz "creative" creative_patterns
                ltac:(unfold PATTERNS; in_table)) as Z6.
  pose proof (Hz "constraints" constraints_patterns
                ltac:(unfold PATTERNS; in_table)) as Z7.
  pose proof (Hz "imperative" imperative_patterns
                ltac:(unfold PATTERNS; in_table)) as Z8.
  pose proof (Hz "outputFormat" outputFormat_patterns
                ltac:(unfold PATTERNS; in_table)) as Z9.
  pose proof (Hz "domain" domain_patterns
                ltac:(unfold PATTERNS; in_table)) as Z10.
  pose proof (Hz "reference" reference_patterns
                ltac:(unfold PATTERNS; in_table)) as Z11.
  pose proof (Hz "negation" negation_patterns
                ltac:(unfold PATTERNS; in_table)) as Z12.
  pose proof (score_of_unit prompt "tokenCount") as U1.
  pose proof (score_of_unit prompt "questionComplexity") as U2.
  unfold unit_interval in U1, U2.
  assert (Hsum : weightedSum (scoreDimensions prompt) <= 0.12).
  { rewrite weightedSum_total. unfold weighted_total, WEIGHTS.
    cbn [fold_right]. lra. }
  assert (Hsimple : simple_rule (score_of prompt)
                      (weightedSum (scoreDimensions prompt))).
  { unfold simple_rule, hasStrongCode, hasStrongImperative.
    split; [lra |]. split; lra. }
  rewrite (route_weighted prompt opts Hm).
  cbv beta iota delta [tier method].
  split; [| split; [reflexivity | exact Hsum]].
  exact (selected_simple _ _ _ _ Hsimple (weighted_tier_selected prompt)).
Qed.

Lemma route_without_matches_simple_witness :
  tier (route (js "hello there") no_options) = SIMPLE.
Proof.
  refine (proj1 (route_without_matches_simple (js "hello there") no_options _)).
  intros dim patterns H. unfold PATTERNS in H.
  repeat (apply elem_of_cons in H; destruct H as [H | H]);
    [.. | apply elem_of_nil in H; contradiction];
    injection H as -> ->; vm_compute; reflexivity.
Defined.

(** ** The reasoning tier of the weighted method *)



(** ** What the options decide *)

(** X5.  The options of route decide the model and nothing else: tier,
    confidence, weighted score, method and scores are the same under any
    two tier maps, and the model is the entry of the map in use for that
    tier. *)
Theorem route_options_choose_only_the_model
    (prompt : list N) (o1 o2 : options) :
  tier (route prompt o1) = tier (route prompt o2)
  /\ confidence (route prompt o1) = confidence (route prompt o2)
  /\ weightedScore (route prompt o1) = weightedScore (route prompt o2)
  /\ method (route prompt o1) = method (route prompt o2)
  /\ scores (route prompt o1) = scores (route prompt o2)
  /\ model (route prompt o1)
     = default DEFAULT_TIER_MODELS (Router.tierModels o1)
         !! tier_key (tier (route prompt o2)).
Proof.
  destruct (Nat.le_gt_cases 2 (reasoningMatches prompt)) as [H | H].
  - rewrite !(route_rules prompt _ H).
    cbv beta iota delta [tier confidence weightedScore method scores model
                         tier_key].
    repeat split.
  - rewrite !(route_weighted prompt _ H).
    cbv beta iota delta [tier confidence weightedScore method scores model].
    repeat split.
Qed.

(** ** The pieces of a prompt *)

Lemma trailing_gap_cons (c d : N) (s : list N) :
  trailing_gap (c :: d :: s) = trailing_gap (d :: s).
Proof. reflexivity. Qed.

Lemma count_words_leading (s : list N) :
  count_words false s
  = (count_words true s + (if leading_gap s then 0 else 1))%nat.
Proof.
  destruct s as [| c s]; [reflexivity |].
  simpl. destruct (is_space c); lia.
Qed.

Lemma pieces_count (s : list N) :
  length (pieces false s)
  = (1 + count_words true s + (if trailing_gap s then 1 else 0))%nat
  /\ length (pieces true s)
     = (count_words false s
        + match s with
          | [] => 1
          | _ :: _ => if trailing_gap s then 1 else 0
          end)%nat.
Proof.
  induction s as [| c s [IHa IHb]]; [split; reflexivity |].
  destruct (is_space c) eqn:Hc.
  - assert (Hgap : (if trailing_gap (c :: s) then 1 else 0)%nat
                   = match s with
                     | [] => 1%nat
                     | _ :: _ => if trailing_gap s then 1%nat else 0%nat
                     end).
    { destruct s as [| d s]; [| rewrite trailing_gap_cons; reflexivity].
      unfold trailing_gap. simpl. rewrite Hc. reflexivity. }
    rewrite Hgap. simpl. rewrite Hc. simpl. rewrite IHb. split; lia.
  - assert (Hgap : trailing_gap (c :: s) = trailing_gap s).
    { destruct s as [| d s]; [| apply trailing_gap_cons].
      unfold trailing_gap. simpl. rewrite Hc. reflexivity. }
    rewrite !pieces_cons by exact Hc. rewrite Hgap, IHa.
    simpl. rewrite Hc. split; lia.
Qed.

(** X6.  The token count of [prompt.split(/\s+/)] is the number of
    white-space delimited words, plus one when the prompt is empty or
    starts with white space, plus one when it ends with white space; it is
    never 0. *)
Theorem tokenCount_counts_gaps (prompt : list N) :
  tokenCount prompt
  = (word_count prompt
     + (if leading_gap prompt then 1 else 0)
     + (if trailing_gap prompt then 1 else 0))%nat
  /\ (1 <= tokenCount prompt)%nat
  /\ (tokenCount prompt <= word_count prompt + 2)%nat.
Proof.
  unfold tokenCount, split_ws, word_count.
  rewrite (proj1 (pieces_count prompt)), count_words_leading.
  destruct (leading_gap prompt), (trailing_gap prompt); lia.
Qed.

(** ** The score of the token count *)

(** X7.  The token count score does not grow with the count throughout: it
    is 0.2 below 50, rises from 0.5 at 50 to 1 at 500, and is 0.9 from 501
    on, below the score of every count from 411 to 500. *)
Theorem tokenCount_score_peak (n m k : nat) :
  (50 <= n)%nat -> (n <= m)%nat -> (m <= 500)%nat -> (500 < k)%nat ->
  tokenCount_score 49 < tokenCount_score n
  /\ tokenCount_score n <= tokenCount_score m
  /\ tokenCount_score m <= tokenCount_score 500
  /\ tokenCount_score 500 == 1
  /\ tokenCount_score k == 0.9
  /\ ((410 < m)%nat -> tokenCount_score k < tokenCount_score m).
Proof.
  intros Hn Hnm Hm Hk.
  assert (Hmid : forall j : nat, (50 <= j)%nat -> (j <= 500)%nat ->
            tokenCount_score j = 0.5 + (of_nat j - 50) / 900).
  { intros j H1 H2. unfold tokenCount_score.
    assert (E1 : (j <? 50)%nat = false) by (apply Nat.ltb_ge; lia).
    assert (E2 : (500 <? j)%nat = false) by (apply Nat.ltb_ge; lia).
    rewrite E1, E2. reflexivity. }
  assert (Hhigh : tokenCount_score k = 0.9).
  { unfold tokenCount_score.
    assert (E1 : (k <? 50)%nat = false) by (apply Nat.ltb_ge; lia).
    assert (E2 : (500 <? k)%nat = true) by (apply Nat.ltb_lt; lia).
    rewrite E1, E2. reflexivity. }
  rewrite Hhigh, (Hmid n), (Hmid m), (Hmid 500%nat) by lia.
  change (tokenCount_score 49) with 0.2. change (of_nat 500) with 500.
  pose proof (of_nat_le 50 n Hn) as H1. change (of_nat 50) with 50 in H1.
  pose proof (of_nat_le n m Hnm) as H2.
  pose proof (of_nat_le m 500 Hm) as H3. change (of_nat 500) with 500 in H3.
  assert (D : forall x : Q, x / 900 == x * (1 # 900)) by (intros x; field).
  rewrite !D.
  split; [lra |]. split; [lra |]. split; [lra |]. split; [lra |].
  split; [lra |].
  intros H4. pose proof (of_nat_le 411 m H4) as H5.
  change (of_nat 411) with 411 in H5. lra.
Qed.

Lemma tokenCount_score_peak_witness :
  tokenCount_score 501 < tokenCount_score 450.
Proof.
  apply (proj2 (proj2 (proj2 (proj2 (proj2
           (tokenCount_score_peak 50 450 501
              ltac:(lia) ltac:(lia) ltac:(lia) ltac:(lia))))))).
  lia.
Defined.

(** ** More on costs and savings *)








(** ** Patterns that start with a word boundary *)

Lemma anchored_no_match (r : regex) (prev : option N) (s : list N) :
  anchored r = true ->
  word_before (prev, s) = false ->
  Forall (fun c => is_word c = false) s ->
  RegExp.search r prev s = false.
Proof.
  intros Hr. destruct r as [| | a b | | |]; try discriminate.
  destruct a; try discriminate. clear Hr.
  revert prev. induction s as [| c s IH]; intros prev Hprev Hs.
  - simpl. unfold matches_at. simpl. rewrite Hprev. reflexivity.
  - inversion Hs as [| ? ? Hc Hs']; subst.
    cbn [RegExp.search]. rewrite (IH (Some c)); [| exact Hc | exact Hs'].
    unfold matches_at. cbn [run]. rewrite Hprev.
    unfold word_after. cbn [snd]. rewrite Hc. reflexivity.
Qed.

Lemma anchored_count (patterns : list regex) (prompt : list N) :
  forallb anchored patterns = true ->
  Forall (fun c => is_word c = false) prompt ->
  count_matches patterns prompt = 0%nat.
Proof.
  intros Ha Hp. apply count_matches_none.
  apply Forall_forall. intros r Hin.
  apply anchored_no_match; [| reflexivity | exact Hp].
  rewrite forallb_forall in Ha. apply Ha. apply list_elem_of_In. exact Hin.
Qed.

(** X11.  Every pattern of ten of the dimensions starts with the
    word-boundary assertion, which needs a letter, a digit or an underscore
    of ASCII on one of its sides: a prompt without such a character, as a
    text of Chinese or Japanese characters only, scores 0 on all ten, also
    on the patterns written in these scripts. *)
Theorem anchored_dimensions_need_a_word_character
    (prompt : list N) (dim : string) :
  Forall (fun c => is_word c = false) prompt ->
  dim ∈ anchored_dimensions ->
  exists (patterns : list regex) (v : Q),
    (dim, patterns) ∈ PATTERNS
    /\ forallb anchored patterns = true
    /\ Forall (fun r => test r prompt = false) patterns
    /\ scoreDimensions prompt !! dim = Some v
    /\ v == 0.
Proof.
  intros Hp Hdim.
  assert (Hgen : forall patterns,
            (dim, patterns) ∈ PATTERNS ->
            forallb anchored patterns = true ->
            exists (patterns : list regex) (v : Q),
              (dim, patterns) ∈ PATTERNS
              /\ forallb anchored patterns = true
              /\ Forall (fun r => test r prompt = false) patterns
              /\ scoreDimensions prompt !! dim = Some v
              /\ v == 0).
  { intros patterns Hin Ha.
    pose proof (anchored_count patterns prompt Ha Hp) as Hc.
    exists patterns, (pattern_score patterns prompt).
    split; [exact Hin |]. split; [exact Ha |].
    split; [apply count_matches_none; exact Hc |].
    split; [exact (pattern_lookup prompt dim patterns Hin) |].
    pose proof (unmatched_dimension prompt dim patterns Hin Hc) as Hz.
    unfold score_of in Hz.
    rewrite (pattern_lookup prompt dim patterns Hin) in Hz. exact Hz. }
  unfold anchored_dimensions in Hdim.
  repeat (apply elem_of_cons in Hdim; destruct Hdim as [-> | Hdim]);
    [.. | apply elem_of_nil in Hdim; contradiction].
  - apply (Hgen simple_patterns); [unfold PATTERNS; in_table | reflexivity].
  - apply (Hgen multiStep_patterns); [unfold PATTERNS; in_table | reflexivity].
  - apply (Hgen technical_patterns); [unfold PATTERNS; in_table | reflexivity].
  - apply (Hgen creative_patterns); [unfold PATTERNS; in_table | reflexivity].
  - apply (Hgen constraints_patterns);
      [unfold PATTERNS; in_table | reflexivity].
  - apply (Hgen imperative_patterns);
      [unfold PATTERNS; in_table | reflexivity].
  - apply (Hgen outputFormat_patterns);
      [unfold PATTERNS; in_table | reflexivity].
  - apply (Hgen domain_patterns); [unfold PATTERNS; in_table | reflexivity].
  - apply (Hgen reference_patterns); [unfold PATTERNS; in_table | reflexivity].
  - apply (Hgen negation_patterns); [unfold PATTERNS; in_table | reflexivity].
Qed.

Lemma anchored_dimensions_need_a_word_character_witness :
  exists v : Q,
    scoreDimensions chinese_prompt !! "simple" = Some v /\ v == 0.
Proof.
  destruct (anchored_dimensions_need_a_word_character chinese_prompt "simple")
    as (patterns & v & _ & _ & _ & Hv & Hz).
  - unfold chinese_prompt. repeat constructor.
  - unfold anchored_dimensions. in_table.
  - exists v. split; [exact Hv | exact Hz].
Defined.

(** * More on the proxy *)

(** ** The index of the last message *)

Lemma js_cons (c : ascii) (s : string) :
  js (String c s) = N_of_ascii c :: js s.
Proof. reflexivity. Qed.

Lemma digits_value_uint (d : Decimal.uint) (acc : positive) :
  digits_value (Npos acc) (js (NilEmpty.string_of_uint d))
  = Some (Npos (Pos.of_uint_acc d acc)).
Proof.
  revert acc.
  induction d as [| d IH | d IH | d IH | d IH | d IH | d IH | d IH | d IH
                  | d IH | d IH]; intros acc;
    cbn [NilEmpty.string_of_uint Pos.of_uint_acc];
    [reflexivity | ..];
    rewrite js_cons, <- IH; cbn [digits_value];
    match goal with
    | |- context [is_digit ?x] => change (is_digit x) with true
    end;
    cbv iota; f_equal; cbn; lia.
Qed.

Lemma length_uint (d : Decimal.uint) :
  length (js (NilEmpty.string_of_uint d)) = Decimal.nb_digits d.
Proof.
  induction d; cbn [NilEmpty.string_of_uint Decimal.nb_digits];
    [reflexivity | ..]; rewrite js_cons; cbn [length]; f_equal; assumption.
Qed.

Lemma of_uint_acc_grows (d : Decimal.uint) (acc : positive) :
  (Npos acc * 10 ^ N.of_nat (Decimal.nb_digits d)
   <= Npos (Pos.of_uint_acc d acc))%N.
Proof.
  revert acc.
  induction d as [| d IH | d IH | d IH | d IH | d IH | d IH | d IH | d IH
                  | d IH | d IH]; intros acc;
    cbn [Pos.of_uint_acc Decimal.nb_digits];
    [rewrite N.pow_0_r; lia | ..];
    rewrite Nat2N.inj_succ, N.pow_succ_r';
    (etransitivity; [| apply IH]);
    rewrite N.mul_assoc; apply N.mul_le_mono_r; lia.
Qed.

(** The decimal numeral of a positive number has no zero in front. *)
Lemma to_uint_head (p : positive) :
  forall d : Decimal.uint, Pos.to_uint p <> Decimal.D0 d.
Proof.
  intros d Hd.
  pose proof (DecimalPos.Unsigned.to_of (Pos.to_uint p)) as Hn.
  rewrite DecimalPos.Unsigned.of_to in Hn. cbn [N.to_uint] in Hn.
  pose proof (DecimalPos.Unsigned.to_uint_nonzero p) as Hz.
  unfold Decimal.unorm in Hn.
  destruct (Decimal.nzhead (Pos.to_uint p)) eqn:E;
    try (rewrite Hn in Hd; discriminate).
  - congruence.
  - apply (DecimalFacts.nzhead_nonzero (Pos.to_uint p) d). congruence.
Qed.

Lemma array_index_numeral (c : N) (k : positive) (d : Decimal.uint) :
  c = (48 + Npos k)%N -> (Npos k <= 9)%N ->
  (Npos (Pos.of_uint_acc d k) < 4294967295)%N ->
  array_index (c :: js (NilEmpty.string_of_uint d))
  = Some (Npos (Pos.of_uint_acc d k)).
Proof.
  intros -> Hk Hn. unfold array_index.
  assert (E1 : (48 + Npos k =? 48)%N = false) by (apply N.eqb_neq; lia).
  rewrite E1. cbn [andb length]. rewrite length_uint.
  assert (Hd : (Decimal.nb_digits d < 10)%nat).
  { destruct (Nat.lt_ge_cases (Decimal.nb_digits d) 10) as [H | H];
      [exact H | exfalso].
    pose proof (of_uint_acc_grows d k) as Hg.
    assert (Hp : (10 ^ 10 <= 10 ^ N.of_nat (Decimal.nb_digits d))%N)
      by (apply N.pow_le_mono_r; lia).
    change (10 ^ 10)%N with 10000000000%N in Hp. nia. }
  assert (E2 : (10 <? S (Decimal.nb_digits d))%nat = false)
    by (apply Nat.ltb_ge; lia).
  rewrite E2. cbn [digits_value].
  assert (E3 : is_digit (48 + Npos k) = true).
  { unfold is_digit, in_range. apply andb_true_intro.
    split; apply N.leb_le; lia. }
  rewrite E3.
  replace (0 * 10 + (48 + Npos k - 48))%N with (Npos k) by lia.
  rewrite digits_value_uint.
  apply N.ltb_lt in Hn. rewrite Hn. reflexivity.
Qed.

(** The numeral that [String(n)] gives for an index is read as that
    index. *)
Lemma array_index_of_number (n : N) :
  (n < 4294967295)%N -> array_index (number_to_string (Z.of_N n)) = Some n.
Proof.
  intros Hn. destruct n as [| p]; [reflexivity |].
  cbn [Z.of_N number_to_string].
  pose proof (to_uint_head p) as Hhead.
  pose proof (DecimalPos.Unsigned.of_to p) as Hval.
  pose proof (DecimalPos.Unsigned.to_uint_nonnil p) as Hnil.
  destruct (Pos.to_uint p) as [| d | d | d | d | d | d | d | d | d | d];
    [congruence | exfalso; exact (Hhead d eq_refl) | ..];
    cbn [Pos.of_uint] in Hval;
    cbn [NilEmpty.string_of_uint]; rewrite js_cons, <- Hval;
    (apply array_index_numeral; [reflexivity | lia | rewrite Hval; exact Hn]).
Qed.

Lemma read_last_array (msgs : list value) (m : value) :
  last msgs = Some m ->
  (Z.of_nat (length msgs) <= 4294967295)%Z ->
  read_last (Arr msgs) (Z.of_nat (length msgs)) = Done m.
Proof.
  intros Hlast Hlen.
  assert (Hpos : (0 < length msgs)%nat).
  { destruct msgs; [discriminate | simpl; lia]. }
  replace (Z.of_nat (length msgs) - 1)%Z
    with (Z.of_N (N.of_nat (length msgs - 1))) in * by lia.
  unfold read_last.
  replace (Z.of_nat (length msgs) - 1)%Z
    with (Z.of_N (N.of_nat (length msgs - 1))) by lia.
  pose proof (array_index_of_number (N.of_nat (length msgs - 1))
                ltac:(lia)) as Hi.
  unfold read.
  rewrite bool_decide_eq_false_2.
  - rewrite Hi, Nat2N.id.
    rewrite last_lookup in Hlast.
    replace (length msgs - 1)%nat with (pred (length msgs)) by lia.
    rewrite Hlast. reflexivity.
  - intros E. rewrite E in Hi. vm_compute in Hi. discriminate.
Qed.

(** ** Assignments to a property *)

Lemma get_replace_ne (k k' : list N) (v : value)
    (fields : list (list N * value)) :
  k <> k' -> get k (replace k' v fields) = get k fields.
Proof.
  intros Hne. induction fields as [| [k1 v1] l IH]; [reflexivity |].
  cbn [replace get]. destruct (bool_decide (k' = k1)) eqn:E1.
  - apply bool_decide_eq_true_1 in E1. subst k1. cbn [get].
    rewrite !bool_decide_eq_false_2 by exact Hne. reflexivity.
  - cbn [get]. rewrite IH. reflexivity.
Qed.

Lemma get_replace_eq (k : list N) (v : value)
    (fields : list (list N * value)) :
  is_Some (get k fields) -> get k (replace k v fields) = Some v.
Proof.
  induction fields as [| [k1 v1] l IH]; intros [x Hx]; [discriminate |].
  cbn [replace get] in *. destruct (bool_decide (k = k1)) eqn:E1.
  - cbn [get]. rewrite bool_decide_eq_true_2 by reflexivity. reflexivity.
  - cbn [get]. rewrite E1. apply IH. exists x. exact Hx.
Qed.

Lemma keys_replace (k : list N) (v : value) (fields : list (list N * value)) :
  is_Some (get k fields) -> map fst (replace k v fields) = map fst fields.
Proof.
  induction fields as [| [k1 v1] l IH]; intros [x Hx]; [reflexivity |].
  cbn [replace get] in *. destruct (bool_decide (k = k1)) eqn:E1.
  - apply bool_decide_eq_true_1 in E1. subst k1. reflexivity.
  - cbn [map fst]. f_equal. apply IH. exists x. exact Hx.
Qed.

Lemma get_app (k : list N) (l1 l2 : list (list N * value)) :
  get k (l1 ++ l2)
  = match get k l1 with
    | Some x => Some x
    | None => get k l2
    end.
Proof.
  induction l1 as [| [k1 v1] l1 IH]; [reflexivity |].
  cbn [app get]. destruct (bool_decide (k = k1)); [reflexivity | exact IH].
Qed.

Lemma get_insert_index_ne (i : N) (k k' : list N) (v : value)
    (fields : list (list N * value)) :
  k <> k' -> get k (insert_index i k' v fields) = get k fields.
Proof.
  intros Hne. induction fields as [| [k1 v1] l IH]; cbn [insert_index].
  - cbn [get]. rewrite bool_decide_eq_false_2 by exact Hne. reflexivity.
  - destruct (array_index k1) as [j |].
    + destruct (j <? i)%N.
      * cbn [get]. rewrite IH. reflexivity.
      * cbn [get]. rewrite (bool_decide_eq_false_2 (k = k')) by exact Hne.
        reflexivity.
    + cbn [get]. rewrite (bool_decide_eq_false_2 (k = k')) by exact Hne.
      reflexivity.
Qed.

Lemma get_insert_index_eq (i : N) (k : list N) (v : value)
    (fields : list (list N * value)) :
  get k fields = None -> get k (insert_index i k v fields) = Some v.
Proof.
  induction fields as [| [k1 v1] l IH]; intros Hnone; cbn [insert_index].
  - cbn [get]. rewrite bool_decide_eq_true_2 by reflexivity. reflexivity.
  - cbn [get] in Hnone. destruct (bool_decide (k = k1)) eqn:E1;
      [discriminate |].
    destruct (array_index k1) as [j |].
    + destruct (j <? i)%N.
      * cbn [get]. rewrite E1. apply IH. exact Hnone.
      * cbn [get]. rewrite bool_decide_eq_true_2 by reflexivity. reflexivity.
    + cbn [get]. rewrite bool_decide_eq_true_2 by reflexivity. reflexivity.
Qed.

(** After [obj[k'] = v], another property reads as before. *)
Lemma get_set_ne (k k' : list N) (v : value)
    (fields : list (list N * value)) :
  k <> k' -> get k (set k' v fields) = get k fields.
Proof.
  intros Hne. unfold set. destruct (get k' fields).
  - apply get_replace_ne. exact Hne.
  - destruct (array_index k').
    + apply get_insert_index_ne. exact Hne.
    + rewrite get_app. destruct (get k fields); [reflexivity |].
      cbn [get]. rewrite bool_decide_eq_false_2 by exact Hne. reflexivity.
Qed.

(** After [obj[k] = v], the property reads [v]. *)
Lemma get_set_eq (k : list N) (v : value) (fields : list (list N * value)) :
  get k (set k v fields) = Some v.
Proof.
  unfold set. destruct (get k fields) eqn:E.
  - apply get_replace_eq. exists v0. exact E.
  - destruct (array_index k).
    + apply get_insert_index_eq. exact E.
    + rewrite get_app, E. cbn [get].
      rewrite bool_decide_eq_true_2 by reflexivity. reflexivity.
Qed.

Lemma get_split (k : list N) (x : value) (fields : list (list N * value)) :
  get k fields = Some x ->
  exists before after : list (list N * value),
    fields = before ++ (k, x) :: after /\ get k before = None.
Proof.
  induction fields as [| [k1 v1] l IH]; [discriminate |].
  cbn [get]. destruct (bool_decide (k = k1)) eqn:E1.
  - apply bool_decide_eq_true_1 in E1. subst k1. intros [= ->].
    exists [], l. split; reflexivity.
  - intros H. destruct (IH H) as (before & after & -> & Hb).
    exists ((k1, v1) :: before), after. split; [reflexivity |].
    cbn [get]. rewrite E1. exact Hb.
Qed.

Lemma replace_split (k : list N) (x v : value)
    (before after : list (list N * value)) :
  get k before = None ->
  replace k v (before ++ (k, x) :: after) = before ++ (k, v) :: after.
Proof.
  induction before as [| [k1 v1] l IH]; intros Hb.
  - cbn [app replace]. rewrite bool_decide_eq_true_2 by reflexivity.
    reflexivity.
  - cbn [get] in Hb. destruct (bool_decide (k = k1)) eqn:E1; [discriminate |].
    cbn [app replace]. rewrite E1, (IH Hb). reflexivity.
Qed.

(** A property whose value is [undefined] leaves no trace in the text. *)
Lemma serialize_skips_undefined (number_text : list N -> list N)
    (k : list N) (before after : list (list N * value)) :
  serialize number_text (Obj (before ++ (k, Undefined) :: after))
  = serialize number_text (Obj (before ++ after)).
Proof.
  cbn [serialize]. do 2 f_equal.
  match goal with
  | |- ?members true _ = _ =>
      enough (H : forall first : bool,
                members first (before ++ (k, Undefined) :: after)
                = members first (before ++ after)) by apply H
  end.
  induction before as [| [k1 v1] l IH]; intros first.
  - reflexivity.
  - cbn [app]. destruct v1; rewrite ?IH; reflexivity.
Qed.

(** ** A sentinel with messages *)

Lemma sentinel_auto (sentinel : list N) :
  sentinel ∈ sentinels -> isAutoRoute (Str sentinel) = true.
Proof.
  intros Hs. unfold sentinels in Hs. simpl.
  repeat (apply elem_of_cons in Hs; destruct Hs as [-> | Hs]);
    [reflexivity | reflexivity | reflexivity |].
  apply elem_of_nil in Hs. contradiction.
Qed.

Lemma auto_route_done
    (rt : runtime) (cfg : config) (payload originalModel : value)
    (msgs : list value) (lastMessage content : value) :
  last msgs = Some lastMessage ->
  (Z.of_nat (length msgs) <= 4294967295)%Z ->
  read lastMessage (js "content") = Some content ->
  content <> Undefined ->
  auto_route rt cfg payload originalModel (Arr msgs) (Z.of_nat (length msgs))
  = Done (routing_events cfg originalModel (prompt_of rt content)
            (decide_route cfg (prompt_of rt content)),
          assign_model payload
            (model (decide_route cfg (prompt_of rt content)))).
Proof.
  intros Hlast Hlen Hcontent Hdef. unfold auto_route.
  rewrite (read_last_array msgs lastMessage Hlast Hlen), bind_done.
  unfold read_property. rewrite Hcontent, bind_done.
  destruct content; [congruence | reflexivity ..].
Qed.

Lemma optional_length_array (msgs : list value) :
  optional_length (Arr msgs) = Some (Some (Z.of_nat (length msgs))).
Proof. reflexivity. Qed.

Lemma prepare_routed
    (rt : runtime) (cfg : config) (text : list N)
    (fields : list (list N * value)) (sentinel : list N)
    (msgs : list value) (lastMessage content : value) :
  JSON_parse text = Parsed (Obj fields) ->
  get (js "model") fields = Some (Str sentinel) ->
  sentinel ∈ sentinels ->
  get (js "messages") fields = Some (Arr msgs) ->
  (Z.of_nat (length msgs) <= 4294967295)%Z ->
  last msgs = Some lastMessage ->
  read lastMessage (js "content") = Some content ->
  content <> Undefined ->
  prepare rt cfg text
  = Done (routing_events cfg (Str sentinel) (prompt_of rt content)
            (decide_route cfg (prompt_of rt content)),
          Obj (set (js "model")
                 (model_value (model (decide_route cfg (prompt_of rt content))))
                 fields)).
Proof.
  intros Hparse Hmodel Hs Hmsgs Hlen Hlast Hcontent Hdef.
  unfold prepare. rewrite Hparse, !read_property_object, Hmodel.
  change (default Undefined (Some (Str sentinel))) with (Str sentinel).
  rewrite !bind_done, (sentinel_auto sentinel Hs), Hmsgs.
  change (default Undefined (Some (Arr msgs))) with (Arr msgs).
  rewrite optional_length_array.
  assert (Hpos : (0 <? Z.of_nat (length msgs))%Z = true).
  { apply Z.ltb_lt. destruct msgs; [discriminate | simpl; lia]. }
  rewrite Hpos.
  rewrite (auto_route_done rt cfg _ _ msgs lastMessage content
             Hlast Hlen Hcontent Hdef).
  reflexivity.
Qed.

(** X12.  On a POST to the completions endpoint whose body is an object
    with an auto sentinel as model and a list of messages that is not empty,
    the handler classifies the content of the last message (the text of a
    string, the JSON text of anything else), stores the model of the
    decision in the payload, calls onRouted, if present, once, with the
    first 100 units of the prompt, logs the decision, and hands the
    serialization of the payload to proxyRequestWithBody.  Every other
    property of the payload reads as before. *)
Theorem sentinel_with_messages_routed
    (rt : runtime) (cfg : config) (req : request) (reply : upstream_result)
    (fields : list (list N * value)) (sentinel : list N)
    (msgs : list value) (lastMessage content : value) :
  req_method req = js "POST" ->
  includes (js "/chat/completions") (req_url req) = true ->
  JSON_parse (req_body req) = Parsed (Obj fields) ->
  get (js "model") fields = Some (Str sentinel) ->
  sentinel ∈ sentinels ->
  get (js "messages") fields = Some (Arr msgs) ->
  (Z.of_nat (length msgs) <= 4294967295)%Z ->
  last msgs = Some lastMessage ->
  read lastMessage (js "content") = Some content ->
  content <> Undefined ->
  let prompt := prompt_of rt content in
  let decision :=
    route prompt {| Router.tierModels := Some (Proxy.tierModels cfg) |} in
  let events := routing_events cfg (Str sentinel) prompt decision in
  let payload :=
    Obj (set (js "model") (model_value (model decision)) fields) in
  prepare rt cfg (req_body req) = Done (events, payload)
  /\ listener rt cfg req reply
     = forward rt cfg req reply events (stringify rt payload)
  /\ read payload (js "model") = Some (model_value (model decision))
  /\ (forall k : list N,
        k <> js "model" -> read payload k = read (Obj fields) k)
  /\ (exists info : routed,
        events = (if onRouted cfg then [OnRouted info] else [])
                 ++ [ConsoleLog (tier decision) (model decision) (savings info)]
        /\ originalModel info = Str sentinel
        /\ routedModel info = model decision
        /\ routed_tier info = tier decision
        /\ routed_confidence info = confidence decision
        /\ savings info
           = estimateSavings_default (default "undefined" (model decision))
        /\ promptPreview info = take 100 prompt)
  /\ forall u : url,
       URL rt (req_url req) (baseUrl cfg) = Some u ->
       exists up : upstream_request,
         listener rt cfg req reply
         = (events ++ (settle rt reply).1, Forwarded up (settle rt reply).2)
         /\ up_body up = stringify rt payload.
Proof.
  intros Hpost Hpath Hparse Hmodel Hs Hmsgs Hlen Hlast Hcontent Hdef
         prompt decision events payload.
  pose proof (prepare_routed rt cfg _ fields sentinel msgs lastMessage
                content Hparse Hmodel Hs Hmsgs Hlen Hlast Hcontent Hdef)
    as Hprep.
  fold prompt in Hprep. unfold decide_route in Hprep.
  fold decision in Hprep. fold events payload in Hprep.
  pose proof (listener_prepared rt cfg req reply Hpost Hpath
                events payload Hprep) as Hl.
  split; [exact Hprep |]. split; [exact Hl |]. split; [| split; [| split]].
  - unfold payload. cbn [read]. rewrite get_set_eq. reflexivity.
  - intros k Hk. unfold payload. cbn [read].
    rewrite get_set_ne by exact Hk. reflexivity.
  - exists {| originalModel := Str sentinel;
               routedModel := model decision;
               routed_tier := tier decision;
               routed_confidence := confidence decision;
               savings :=
                 estimateSavings_default (default "undefined" (model decision));
               promptPreview := take 100 prompt |}.
    repeat split.
  - intros u Hurl. eexists. split.
    + rewrite Hl. apply (forward_resolved rt cfg req reply); exact Hurl.
    + reflexivity.
Qed.

Lemma sentinel_with_messages_routed_witness :
  exists (events : list event) (up : upstream_request),
    listener sample_runtime sample_config (post auto_body)
      (Answered 200 ∅ [])
    = (events, Forwarded up {| status := 200; headers := ∅; body := [] |})
    /\ up_body up = routed_body.
Proof.
  destruct (sentinel_with_messages_routed sample_runtime sample_config
              (post auto_body) (Answered 200 ∅ [])
              auto_fields (js "auto")
              [Obj [ (js "role", Str (js "user"));
                     (js "content", Str (js "What is 2+2?")) ]]
              (Obj [ (js "role", Str (js "user"));
                     (js "content", Str (js "What is 2+2?")) ])
              (Str (js "What is 2+2?")))
    as (_ & _ & _ & _ & _ & H).
  - reflexivity.
  - vm_compute. reflexivity.
  - vm_compute. reflexivity.
  - reflexivity.
  - unfold sentinels. apply list_elem_of_here.
  - reflexivity.
  - simpl. lia.
  - reflexivity.
  - reflexivity.
  - discriminate.
  - destruct (H sample_url eq_refl) as (up & Hl & Hb).
    eexists. exists up. split; [exact Hl |]. rewrite Hb.
    vm_compute. reflexivity.
Defined.

(** ** What the handler changes *)

Lemma isAutoRoute_sentinel (m : value) :
  isAutoRoute m = true -> exists s : list N, m = Str s /\ s ∈ sentinels.
Proof.
  destruct m; try discriminate. simpl. intros H. exists s.
  split; [reflexivity |].
  apply orb_true_iff in H. destruct H as [H | H].
  - apply orb_true_iff in H. destruct H as [H | H];
      apply bool_decide_eq_true_1 in H; subst s; unfold sentinels; in_table.
  - apply bool_decide_eq_true_1 in H. subst s. unfold sentinels. in_table.
Qed.

Lemma throws_bind {A B : Type} (e : error) (f : A -> attempt B) :
  (Throws e ≫= f) = Throws e.
Proof. reflexivity. Qed.

Lemma beyond_bind {A B : Type} (f : A -> attempt B) :
  (Beyond ≫= f) = Beyond.
Proof. reflexivity. Qed.

(** What the [try] block can make of a parsed payload: the payload itself,
    or the object with a new model. *)
Lemma prepare_payload
    (rt : runtime) (cfg : config) (text : list N)
    (payload payload' : value) (events : list event) :
  JSON_parse text = Parsed payload ->
  prepare rt cfg text = Done (events, payload') ->
  (events = [] /\ payload' = payload)
  \/ exists (fields : list (list N * value)) (sentinel : list N)
            (prompt : list N),
       payload = Obj fields
       /\ get (js "model") fields = Some (Str sentinel)
       /\ sentinel ∈ sentinels
       /\ events = routing_events cfg (Str sentinel) prompt
                     (decide_route cfg prompt)
       /\ payload' = Obj (set (js "model")
                            (model_value (model (decide_route cfg prompt)))
                            fields).
Proof.
  intros Hparse. unfold prepare. rewrite Hparse. unfold read_property.
  destruct (read payload (js "model")) as [m |] eqn:Hm;
    cbn [mbind attempt_bind]; [| discriminate].
  destruct (isAutoRoute m) eqn:Ha;
    [| intros [= <- <-]; left; split; reflexivity].
  destruct (isAutoRoute_sentinel m Ha) as (sentinel & -> & Hs).
  destruct (read payload (js "messages")) as [ms |];
    cbn [mbind attempt_bind]; [| discriminate].
  destruct (optional_length ms) as [[n |] |];
    [| intros [= <- <-]; left; split; reflexivity | discriminate].
  destruct (0 <? n)%Z; [| intros [= <- <-]; left; split; reflexivity].
  unfold auto_route, read_property.
  destruct (read_last ms n) as [lastMessage | e |];
    cbn [mbind attempt_bind]; [| discriminate | discriminate].
  destruct (read lastMessage (js "content")) as [content |];
    cbn [mbind attempt_bind]; [| discriminate].
  assert (Hobj : forall prompt : list N,
            Done (routing_events cfg (Str sentinel) prompt
                    (decide_route cfg prompt),
                  assign_model payload (model (decide_route cfg prompt)))
            = Done (events, payload') ->
            (events = [] /\ payload' = payload)
            \/ exists (fields : list (list N * value)) (sentinel : list N)
                      (prompt : list N),
                 payload = Obj fields
                 /\ get (js "model") fields = Some (Str sentinel)
                 /\ sentinel ∈ sentinels
                 /\ events = routing_events cfg (Str sentinel) prompt
                               (decide_route cfg prompt)
                 /\ payload' = Obj (set (js "model")
                                      (model_value
                                         (model (decide_route cfg prompt)))
                                      fields)).
  { intros prompt [= <- <-].
    destruct payload as [| | | | | | | fields]; try discriminate;
      try (vm_compute in Hm; discriminate).
    right. exists fields, sentinel, prompt.
    cbn [read] in Hm.
    destruct (get (js "model") fields) as [x |]; [| discriminate].
      injection Hm as ->. repeat split. exact Hs. }
  destruct content; cbn [JSON_stringify mbind attempt_bind];
    [discriminate | apply Hobj ..].
Qed.

Lemma array_index_model : array_index (js "model") = None.
Proof. reflexivity. Qed.

Lemma set_model_keys (x old : value) (fields : list (list N * value)) :
  get (js "model") fields = Some old ->
  map fst (set (js "model") x fields) = map fst fields.
Proof.
  intros H. unfold set. rewrite H. apply keys_replace. exists old. exact H.
Qed.

(** X13.  Whatever the completions handler sends upstream is the
    serialization of the parsed body with at most its model replaced: every
    other property reads as in the body, and the properties keep their
    order. *)
Theorem handler_changes_only_the_model
    (rt : runtime) (cfg : config) (req : request) (reply : upstream_result)
    (payload : value) (events : list event) (up : upstream_request)
    (r : response) :
  req_method req = js "POST" ->
  includes (js "/chat/completions") (req_url req) = true ->
  JSON_parse (req_body req) = Parsed payload ->
  listener rt cfg req reply = (events, Forwarded up r) ->
  exists payload' : value,
    up_body up = stringify rt payload'
    /\ (forall k : list N,
          k <> js "model" -> read payload' k = read payload k)
    /\ (payload' = payload
        \/ exists (fields fields' : list (list N * value)),
             payload = Obj fields /\ payload' = Obj fields'
             /\ map fst fields' = map fst fields
             /\ isAutoRoute (default Undefined (get (js "model") fields))
                = true).
Proof.
  intros Hpost Hpath Hparse Hl.
  rewrite (listener_on_end rt cfg req reply Hpost Hpath) in Hl.
  unfold on_end in Hl.
  destruct (prepare rt cfg (req_body req)) as [[ev payload'] | e |] eqn:Hprep;
    [| unfold caught in Hl; discriminate | discriminate].
  unfold forward in Hl.
  destruct (proxyRequestWithBody rt cfg req (stringify rt payload') reply)
    as [[[ev' up'] r'] | e |] eqn:E;
    [| unfold caught in Hl; discriminate | discriminate].
  injection Hl as _ <- _.
  destruct (proxyRequestWithBody_done _ _ _ _ _ _ _ _ E) as (_ & _ & Hb).
  exists payload'. split; [exact Hb |].
  destruct (prepare_payload rt cfg _ payload payload' ev Hparse Hprep)
    as [[_ ->] | (fields & sentinel & prompt & -> & Hm & Hs & _ & ->)].
  - split; [reflexivity | left; reflexivity].
  - split.
    + intros k Hk. cbn [read]. rewrite get_set_ne by exact Hk. reflexivity.
    + right. eexists _, _. split; [reflexivity |]. split; [reflexivity |].
      split; [exact (set_model_keys _ _ _ Hm) |].
      rewrite Hm. exact (sentinel_auto sentinel Hs).
Qed.

Lemma handler_changes_only_the_model_witness :
  exists (payload' : value) (up : upstream_request),
    (listener sample_runtime sample_config (post auto_body)
       (Answered 200 ∅ [])).2
    = Forwarded up {| status := 200; headers := ∅; body := [] |}
    /\ up_body up = stringify sample_runtime payload'
    /\ read payload' (js "messages") = read (Obj auto_fields) (js "messages").
Proof.
  destruct (listener sample_runtime sample_config (post auto_body)
              (Answered 200 ∅ [])) as [events o] eqn:E.
  destruct o as [r | up r | e |];
    try (exfalso; vm_compute in E; discriminate).
  assert (Hr : r = {| status := 200; headers := ∅; body := [] |}).
  { apply (forwarded_response _ _ _ _ _ _ _ E). }
  destruct (handler_changes_only_the_model sample_runtime sample_config
              (post auto_body) (Answered 200 ∅ []) (Obj auto_fields)
              events up r) as (payload' & Hb & Hk & _).
  - reflexivity.
  - vm_compute. reflexivity.
  - vm_compute. reflexivity.
  - exact E.
  - exists payload', up. split; [rewrite Hr; reflexivity |].
    split; [exact Hb |]. apply Hk. vm_compute. discriminate.
Defined.

(** ** A tier map without the selected tier *)

(** A model that is not defined is looked up under the name undefined,
    which the table of costs does not have: the default rates apply. *)
Lemma unknown_model_savings :
  exists q : Q, estimateSavings_default "undefined" = Some q /\ q == 14 # 15.
Proof.
  eexists. split; [vm_compute; reflexivity |]. vm_compute. reflexivity.
Qed.

(** X14.  When the tier map of the proxy has no entry for the tier of the
    decision, the decision has no model, the assignment stores undefined,
    and the body that goes upstream is the parsed body without its model
    property, the other properties in their order; the log line reports
    the savings of a model of unknown cost, 14/15. *)
Theorem missing_tier_removes_model
    (rt : runtime) (cfg : config) (req : request) (reply : upstream_result)
    (fields : list (list N * value)) (sentinel : list N)
    (msgs : list value) (lastMessage content : value) :
  req_method req = js "POST" ->
  includes (js "/chat/completions") (req_url req) = true ->
  JSON_parse (req_body req) = Parsed (Obj fields) ->
  get (js "model") fields = Some (Str sentinel) ->
  sentinel ∈ sentinels ->
  get (js "messages") fields = Some (Arr msgs) ->
  (Z.of_nat (length msgs) <= 4294967295)%Z ->
  last msgs = Some lastMessage ->
  read lastMessage (js "content") = Some content ->
  content <> Undefined ->
  let prompt := prompt_of rt content in
  let decision :=
    route prompt {| Router.tierModels := Some (Proxy.tierModels cfg) |} in
  Proxy.tierModels cfg !! tier_key (tier decision) = None ->
  model decision = None
  /\ (exists q : Q,
        routing_events cfg (Str sentinel) prompt decision
        = (if onRouted cfg
           then [OnRouted {| originalModel := Str sentinel;
                             routedModel := None;
                             routed_tier := tier decision;
                             routed_confidence := confidence decision;
                             savings := Some q;
                             promptPreview := take 100 prompt |}]
           else [])
          ++ [ConsoleLog (tier decision) None (Some q)]
        /\ q == 14 # 15)
  /\ exists before after : list (list N * value),
       fields = before ++ (js "model", Str sentinel) :: after
       /\ get (js "model") before = None
       /\ listener rt cfg req reply
          = forward rt cfg req reply
              (routing_events cfg (Str sentinel) prompt decision)
              (stringify rt (Obj (before ++ after))).
Proof.
  intros Hpost Hpath Hparse Hmodel Hs Hmsgs Hlen Hlast Hcontent Hdef
         prompt decision Htier.
  assert (Hnone : model decision = None).
  { unfold decision. rewrite route_model. exact Htier. }
  split; [exact Hnone |]. split.
  - assert (Hq : exists q : Q,
              estimateSavings_default "undefined" = Some q /\ q == 14 # 15).
    { exact unknown_model_savings. }
    destruct Hq as (q & Hq & Hv). exists q. split; [| exact Hv].
    unfold routing_events. rewrite Hnone.
    change (default "undefined" (@None string)) with "undefined".
    rewrite Hq. reflexivity.
  - destruct (get_split _ _ _ Hmodel) as (before & after & Hf & Hb).
    exists before, after. split; [exact Hf |]. split; [exact Hb |].
    pose proof (prepare_routed rt cfg _ fields sentinel msgs lastMessage
                  content Hparse Hmodel Hs Hmsgs Hlen Hlast Hcontent Hdef)
      as Hprep.
    fold prompt in Hprep. unfold decide_route in Hprep.
    fold decision in Hprep.
    rewrite (listener_prepared rt cfg req reply Hpost Hpath _ _ Hprep).
    f_equal. rewrite Hnone. unfold set. rewrite Hmodel.
    rewrite Hf at 1. rewrite (replace_split _ _ _ _ _ Hb).
    apply serialize_skips_undefined.
Qed.

Lemma missing_tier_removes_model_witness :
  exists up : upstream_request,
    (listener sample_runtime partial_config (post auto_body)
       (Answered 200 ∅ [])).2
    = Forwarded up {| status := 200; headers := ∅; body := [] |}
    /\ up_body up = modelless_body.
Proof.
  destruct (missing_tier_removes_model sample_runtime partial_config
              (post auto_body) (Answered 200 ∅ [])
              auto_fields (js "auto")
              [Obj [ (js "role", Str (js "user"));
                     (js "content", Str (js "What is 2+2?")) ]]
              (Obj [ (js "role", Str (js "user"));
                     (js "content", Str (js "What is 2+2?")) ])
              (Str (js "What is 2+2?")))
    as (_ & _ & before & after & Hf & Hb & Hl).
  - reflexivity.
  - vm_compute. reflexivity.
  - vm_compute. reflexivity.
  - reflexivity.
  - unfold sentinels. apply list_elem_of_here.
  - reflexivity.
  - simpl. lia.
  - reflexivity.
  - reflexivity.
  - discriminate.
  - vm_compute. reflexivity.
  - assert (Hsplit : before = []
                     /\ after = [(js "messages",
                                  Arr [Obj [ (js "role", Str (js "user"));
                                             (js "content",
                                              Str (js "What is 2+2?")) ]])]).
    { clear Hl. unfold auto_fields in Hf.
      destruct before as [| [k v] before].
      - split; [reflexivity |]. inversion Hf. reflexivity.
      - exfalso. inversion Hf; subst.
        assert (Hx : get (js "model")
                       ((js "model", Str (js "auto")) :: before)
                     = Some (Str (js "auto"))) by (vm_compute; reflexivity).
        rewrite Hx in Hb. discriminate. }
    destruct Hsplit as [Hbefore Hafter].
    rewrite Hl.
    rewrite (forward_resolved sample_runtime partial_config (post auto_body)
               (Answered 200 ∅ []) _ _ sample_url eq_refl).
    eexists. split; [reflexivity |]. cbn [up_body].
    rewrite Hbefore, Hafter. vm_compute. reflexivity.
Defined.

(** ** A last message without a prompt *)

(** X15.  When the model is an auto sentinel and the last message is null,
    or has no content, the handler throws before anything is classified:
    the request is answered with 500 and the message of the exception,
    nothing goes upstream, onRouted is not called, and onError, if present,
    is called once. *)
Theorem unreadable_prompt_answered_500
    (rt : runtime) (cfg : config) (req : request) (reply : upstream_result)
    (fields : list (list N * value)) (sentinel : list N)
    (msgs : list value) (lastMessage : value) :
  req_method req = js "POST" ->
  includes (js "/chat/completions") (req_url req) = true ->
  JSON_parse (req_body req) = Parsed (Obj fields) ->
  get (js "model") fields = Some (Str sentinel) ->
  sentinel ∈ sentinels ->
  get (js "messages") fields = Some (Arr msgs) ->
  (Z.of_nat (length msgs) <= 4294967295)%Z ->
  last msgs = Some lastMessage ->
  (read lastMessage (js "content") = None
   \/ read lastMessage (js "content") = Some Undefined) ->
  exists (e : error) (r : response),
    listener rt cfg req reply
    = ((if onError cfg then [OnError e] else []), Direct r)
    /\ (e = ReadOfNullish lastMessage "content"
        \/ e = ReadOfNullish Undefined "toLowerCase")
    /\ status r = 500%Z
    /\ headers r = json_headers
    /\ JSON_parse (body r) = Parsed (Obj [(js "error", Str (message rt e))]).
Proof.
  intros Hpost Hpath Hparse Hmodel Hs Hmsgs Hlen Hlast Hcontent.
  assert (Hprep : exists e : error,
            prepare rt cfg (req_body req) = Throws e
            /\ (e = ReadOfNullish lastMessage "content"
                \/ e = ReadOfNullish Undefined "toLowerCase")).
  { unfold prepare. rewrite Hparse, !read_property_object, Hmodel.
    change (default Undefined (Some (Str sentinel))) with (Str sentinel).
    rewrite !bind_done, (sentinel_auto sentinel Hs), Hmsgs.
    change (default Undefined (Some (Arr msgs))) with (Arr msgs).
    rewrite optional_length_array.
    assert (Hpos : (0 <? Z.of_nat (length msgs))%Z = true).
    { apply Z.ltb_lt. destruct msgs; [discriminate | simpl; lia]. }
    rewrite Hpos. unfold auto_route.
    rewrite (read_last_array msgs lastMessage Hlast Hlen), bind_done.
    unfold read_property.
    destruct Hcontent as [-> | ->]; cbn [mbind attempt_bind JSON_stringify];
      eexists; (split; [reflexivity |]); [left | right]; reflexivity. }
  destruct Hprep as (e & Hprep & He).
  rewrite (listener_thrown rt cfg req reply Hpost Hpath e Hprep).
  unfold caught. exists e. eexists. split; [reflexivity |].
  split; [exact He |]. cbn [status headers body].
  split; [reflexivity |]. split; [reflexivity |].
  apply parse_error_object.
Qed.

Lemma unreadable_prompt_answered_500_witness :
  exists r : response,
    listener sample_runtime sample_config (post null_message_body)
      (Answered 200 ∅ [])
    = ([OnError (ReadOfNullish Null "content")], Direct r)
    /\ status r = 500%Z.
Proof.
  destruct (unreadable_prompt_answered_500 sample_runtime sample_config
              (post null_message_body) (Answered 200 ∅ [])
              [(js "model", Str (js "auto")); (js "messages", Arr [Null])]
              (js "auto") [Null] Null)
    as (e & r & Hl & He & Hst & _).
  - reflexivity.
  - vm_compute. reflexivity.
  - vm_compute. reflexivity.
  - vm_compute. reflexivity.
  - unfold sentinels. apply list_elem_of_here.
  - vm_compute. reflexivity.
  - simpl. lia.
  - reflexivity.
  - left. reflexivity.
  - exists r. split; [| exact Hst].
    destruct He as [-> | ->]; [exact Hl |].
    exfalso. vm_compute in Hl. discriminate.
Defined.

(** ** Every way through the listener *)

Lemma not_completions_post (req : request) :
  negb (bool_decide (req_method req = js "POST"))
  || negb (includes (js "/chat/completions") (req_url req)) = true
  <-> ~ completions_post req.
Proof.
  unfold completions_post. rewrite orb_true_iff, !negb_true_iff. split.
  - intros [H | H] [Hm Hi].
    + apply bool_decide_eq_false_1 in H. contradiction.
    + congruence.
  - intros H.
    destruct (bool_decide (req_method req = js "POST")) eqn:E1;
      [| left; reflexivity].
    right.
    destruct (includes (js "/chat/completions") (req_url req)) eqn:E2;
      [| reflexivity].
    exfalso. apply H. split; [| reflexivity].
    apply bool_decide_eq_true_1 in E1. exact E1.
Qed.

Lemma proxyRequest_cases
    (rt : runtime) (cfg : config) (req : request) (reply : upstream_result) :
  (exists u : url,
     URL rt (req_url req) (baseUrl cfg) = Some u
     /\ proxyRequest rt cfg req reply
        = Done ((settle rt reply).1, passed_on cfg req u, (settle rt reply).2))
  \/ (URL rt (req_url req) (baseUrl cfg) = None
      /\ proxyRequest rt cfg req reply
         = Throws (InvalidUrl (req_url req) (baseUrl cfg))).
Proof.
  unfold proxyRequest.
  destruct (URL rt (req_url req) (baseUrl cfg)) as [u |].
  - left. exists u. split; [reflexivity |].
    destruct (settle rt reply). reflexivity.
  - right. split; reflexivity.
Qed.

Lemma forward_cases
    (rt : runtime) (cfg : config) (req : request) (reply : upstream_result)
    (events : list event) (text : list N) :
  (exists u : url,
     URL rt (req_url req) (baseUrl cfg) = Some u
     /\ forward rt cfg req reply events text
        = (events ++ (settle rt reply).1,
           Forwarded (sent_with cfg req u text) (settle rt reply).2))
  \/ (URL rt (req_url req) (baseUrl cfg) = None
      /\ forward rt cfg req reply events text
         = caught rt cfg events (InvalidUrl (req_url req) (baseUrl cfg))).
Proof.
  unfold forward, proxyRequestWithBody.
  destruct (URL rt (req_url req) (baseUrl cfg)) as [u |].
  - left. exists u. split; [reflexivity |].
    destruct (settle rt reply). reflexivity.
  - right. split; reflexivity.
Qed.

(** The ways through the listener: the health check, the pass-through, and
    the completions handler with its [try] block. *)
Lemma listener_cases
    (rt : runtime) (cfg : config) (req : request) (reply : upstream_result) :
  (req_url req = js "/health"
   /\ listener rt cfg req reply = ([], Direct (health rt)))
  \/ (req_url req <> js "/health" /\ ~ completions_post req
      /\ ((exists u : url,
             URL rt (req_url req) (baseUrl cfg) = Some u
             /\ listener rt cfg req reply
                = ((settle rt reply).1,
                   Forwarded (passed_on cfg req u) (settle rt reply).2))
          \/ (URL rt (req_url req) (baseUrl cfg) = None
              /\ listener rt cfg req reply
                 = ([], Uncaught (InvalidUrl (req_url req) (baseUrl cfg))))))
  \/ (req_url req <> js "/health" /\ completions_post req
      /\ ((prepare rt cfg (req_body req) = Beyond
           /\ listener rt cfg req reply = ([], OutsideModel))
          \/ (exists e : error,
                prepare rt cfg (req_body req) = Throws e
                /\ listener rt cfg req reply = caught rt cfg [] e)
          \/ (exists (events : list event) (payload : value),
                prepare rt cfg (req_body req) = Done (events, payload)
                /\ ((exists u : url,
                       URL rt (req_url req) (baseUrl cfg) = Some u
                       /\ listener rt cfg req reply
                          = (events ++ (settle rt reply).1,
                             Forwarded
                               (sent_with cfg req u (stringify rt payload))
                               (settle rt reply).2))
                    \/ (URL rt (req_url req) (baseUrl cfg) = None
                        /\ listener rt cfg req reply
                           = caught rt cfg events
                               (InvalidUrl (req_url req) (baseUrl cfg))))))).
Proof.
  unfold listener.
  destruct (bool_decide (req_url req = js "/health")) eqn:Eh.
  { left. apply bool_decide_eq_true_1 in Eh. split; [exact Eh | reflexivity]. }
  apply bool_decide_eq_false_1 in Eh. right.
  destruct (negb (bool_decide (req_method req = js "POST"))
            || negb (includes (js "/chat/completions") (req_url req))) eqn:Ec.
  - left. apply not_completions_post in Ec.
    split; [exact Eh |]. split; [exact Ec |].
    destruct (proxyRequest_cases rt cfg req reply)
      as [(u & Hu & ->) | (Hu & ->)].
    + left. exists u. split; [exact Hu | reflexivity].
    + right. split; [exact Hu | reflexivity].
  - right.
    assert (Hc : completions_post req).
    { destruct (bool_decide (req_method req = js "POST")) eqn:E1;
        [| discriminate].
      destruct (includes (js "/chat/completions") (req_url req)) eqn:E2;
        [| discriminate].
      split; [apply bool_decide_eq_true_1 in E1; exact E1 | exact E2]. }
    split; [exact Eh |]. split; [exact Hc |].
    unfold on_end.
    destruct (prepare rt cfg (req_body req)) as [[events payload] | e |].
    + right. right. exists events, payload. split; [reflexivity |].
      destruct (forward_cases rt cfg req reply events (stringify rt payload))
        as [(u & Hu & ->) | (Hu & ->)].
      * left. exists u. split; [exact Hu | reflexivity].
      * right. split; [exact Hu | reflexivity].
    + right. left. exists e. split; reflexivity.
    + left. split; reflexivity.
Qed.

(** ** The request that goes upstream *)

(** X16.  Whatever the listener sends upstream goes to the target that the
    request URL resolves to against the base URL, with the client's method
    and headers, except that host is the host of the target and
    authorization is the key of the proxy: an authorization header of the
    client never reaches LiteLLM.  The completions handler sets
    content-length to the byte length of the new body; the pass-through
    leaves the client's content-length and body as they are. *)
Theorem upstream_request_headers
    (rt : runtime) (cfg : config) (req : request) (reply : upstream_result)
    (events : list event) (up : upstream_request) (r : response) :
  listener rt cfg req reply = (events, Forwarded up r) ->
  exists u : url,
    URL rt (req_url req) (baseUrl cfg) = Some u
    /\ up_headers up !! "authorization"
       = Some (js "Bearer " ++ litellmApiKey cfg)
    /\ up_headers up !! "host" = Some (host u)
    /\ (forall k : string,
          k ∉ ["authorization"; "host"; "content-length"] ->
          up_headers up !! k = req_headers req !! k)
    /\ up_method up = req_method req
    /\ up_hostname up = hostname u
    /\ up_path up = pathname u ++ search u
    /\ (completions_post req ->
        up_headers up !! "content-length"
        = Some (number_to_string (Z.of_nat (byteLength (up_body up)))))
    /\ (~ completions_post req ->
        up_headers up !! "content-length"
        = req_headers req !! "content-length"
        /\ up_body up = req_body req).
Proof.
  intros H.
  assert (Hother : forall (u : url) (k : string),
            k ∉ ["authorization"; "host"; "content-length"] ->
            forwarded_headers cfg req u !! k = req_headers req !! k).
  { intros u k Hk. unfold forwarded_headers.
    rewrite !lookup_insert_ne; [reflexivity | |];
      intros <-; apply Hk; in_table. }
  destruct (listener_cases rt cfg req reply)
    as [[_ Hl] | [(_ & Hc & [(u & Hu & Hl) | (_ & Hl)])
                 | (_ & Hc & [[_ Hl] | [(e & _ & Hl)
                     | (ev & payload & _ & [(u & Hu & Hl) | (_ & Hl)])]])]];
    rewrite Hl in H; try discriminate H; try (unfold caught in H; discriminate H);
    injection H as _ <- _; exists u; (split; [exact Hu |]).
  - unfold passed_on. cbn [up_headers up_method up_hostname up_path up_body].
    split; [unfold forwarded_headers; apply lookup_insert_eq |].
    split; [unfold forwarded_headers;
            rewrite lookup_insert_ne by discriminate; apply lookup_insert_eq |].
    split; [exact (Hother u) |].
    split; [reflexivity |]. split; [reflexivity |]. split; [reflexivity |].
    split; [intros Hp; contradiction |].
    intros _. split; [| reflexivity].
    unfold forwarded_headers. rewrite !lookup_insert_ne by discriminate.
    reflexivity.
  - unfold sent_with. cbn [up_headers up_method up_hostname up_path up_body].
    split; [rewrite lookup_insert_ne by discriminate;
            unfold forwarded_headers; apply lookup_insert_eq |].
    split; [rewrite lookup_insert_ne by discriminate;
            unfold forwarded_headers;
            rewrite lookup_insert_ne by discriminate; apply lookup_insert_eq |].
    split.
    { intros k Hk. rewrite lookup_insert_ne; [exact (Hother u k Hk) |].
      intros <-. apply Hk. in_table. }
    split; [reflexivity |]. split; [reflexivity |]. split; [reflexivity |].
    split; [intros _; apply lookup_insert_eq |].
    intros Hn. contradiction.
Qed.

Lemma upstream_request_headers_witness :
  exists up : upstream_request,
    (listener sample_runtime sample_config models_request
       (Answered 200 ∅ [])).2
    = Forwarded up {| status := 200; headers := ∅; body := [] |}
    /\ up_headers up !! "authorization" = Some (js "Bearer sk-test")
    /\ up_headers up !! "accept" = Some (js "application/json").
Proof.
  destruct (listener sample_runtime sample_config models_request
              (Answered 200 ∅ [])) as [events o] eqn:E.
  destruct o as [r | up r | e |];
    try (exfalso; vm_compute in E; discriminate).
  assert (Hr : r = {| status := 200; headers := ∅; body := [] |}).
  { apply (forwarded_response _ _ _ _ _ _ _ E). }
  destruct (upstream_request_headers sample_runtime sample_config
              models_request (Answered 200 ∅ []) events up r E)
    as (u & _ & Ha & _ & Hk & _).
  exists up. split; [rewrite Hr; reflexivity |].
  split; [exact Ha |].
  rewrite Hk; [vm_compute; reflexivity |].
  intros Hin. repeat (apply elem_of_cons in Hin; destruct Hin as [Hin | Hin];
                      [discriminate Hin |]).
  apply elem_of_nil in Hin. exact Hin.
Defined.

(** ** How a request ends *)

Lemma auto_model_object (payload m : value) :
  read payload (js "model") = Some m -> isAutoRoute m = true ->
  exists fields : list (list N * value),
    payload = Obj fields /\ get (js "model") fields = Some m.
Proof.
  intros Hm Ha.
  destruct (isAutoRoute_sentinel m Ha) as (s & -> & _).
  destruct payload as [| | | | | | | fields]; try discriminate;
    try (vm_compute in Hm; discriminate).
  exists fields. split; [reflexivity |].
  cbn [read] in Hm.
  destruct (get (js "model") fields) as [x |]; [| discriminate].
  injection Hm as ->. reflexivity.
Qed.

Lemma auto_route_not_beyond
    (rt : runtime) (cfg : config) (payload originalModel messages : value)
    (n : Z) :
  auto_route rt cfg payload originalModel messages n <> Beyond.
Proof.
  unfold auto_route, read_last, read_property.
  destruct (read messages (number_to_string (n - 1))) as [lastMessage |];
    cbn [mbind attempt_bind]; [| discriminate].
  destruct (read lastMessage (js "content")) as [content |];
    cbn [mbind attempt_bind]; [| discriminate].
  destruct content; cbn [JSON_stringify mbind attempt_bind]; discriminate.
Qed.

(** The conversion that the embedding does not follow is met only with a
    messages object that has a length of its own. *)
Lemma prepare_beyond (rt : runtime) (cfg : config) (text : list N) :
  prepare rt cfg text = Beyond ->
  exists (fields fs : list (list N * value)) (x : value),
    JSON_parse text = Parsed (Obj fields)
    /\ get (js "messages") fields = Some (Obj fs)
    /\ get (js "length") fs = Some x.
Proof.
  unfold prepare.
  pose proof (JSON_parse_not_exhausted text) as Hne.
  destruct (JSON_parse text) as [payload | |]; [| discriminate | congruence].
  unfold read_property.
  destruct (read payload (js "model")) as [m |] eqn:Hm;
    cbn [mbind attempt_bind]; [| discriminate].
  destruct (isAutoRoute m) eqn:Ha; [| discriminate].
  destruct (auto_model_object payload m Hm Ha) as (fields & -> & _).
  cbn [read mbind attempt_bind].
  destruct (get (js "messages") fields) as [ms |] eqn:Hms.
  2: { change (default Undefined (@None value)) with Undefined.
       cbn [optional_length]. discriminate. }
  change (default Undefined (Some ms)) with ms.
  destruct (optional_length ms) as [[n |] |] eqn:Ho.
  - destruct (0 <? n)%Z; [| discriminate].
    intros H. exfalso. exact (auto_route_not_beyond _ _ _ _ _ _ H).
  - discriminate.
  - intros _. unfold optional_length in Ho.
    destruct ms as [| | | | | | | fs]; try discriminate;
      try (vm_compute in Ho; discriminate).
    cbn [read] in Ho.
    destruct (get (js "length") fs) as [x |] eqn:Hx; [| discriminate].
    exists fields, fs, x. split; [reflexivity |].
    split; [exact Hms | exact Hx].
Qed.

(** X17.  The listener ends a request in one of these ways.  It answers
    itself only with 200, for the health check, and with 500, for an
    exception in the completions handler; it never lets an exception of the
    completions handler escape.  A request that it sends upstream gets what
    the upstream connection settles on.  The pass-through does not catch: a
    request URL that does not resolve leaves the listener as an exception,
    with no answer. *)
Theorem listener_outcomes
    (rt : runtime) (cfg : config) (req : request) (reply : upstream_result) :
  match (listener rt cfg req reply).2 with
  | Direct r =>
      (req_url req = js "/health"
       /\ (listener rt cfg req reply).1 = []
       /\ status r = 200%Z
       /\ JSON_parse (body r)
          = Parsed (Obj [ (js "status", Str (js "ok"));
                          (js "version", Str (js "1.0.0")) ]))
      \/ (completions_post req
          /\ status r = 500%Z
          /\ headers r = json_headers
          /\ exists e : error,
               body r = stringify rt (Obj [(js "error", Str (message rt e))]))
  | Forwarded up r =>
      req_url req <> js "/health"
      /\ r = (settle rt reply).2
      /\ exists u : url, URL rt (req_url req) (baseUrl cfg) = Some u
  | Uncaught e =>
      req_url req <> js "/health"
      /\ ~ completions_post req
      /\ (listener rt cfg req reply).1 = []
      /\ e = InvalidUrl (req_url req) (baseUrl cfg)
      /\ URL rt (req_url req) (baseUrl cfg) = None
  | OutsideModel =>
      completions_post req
      /\ exists (fields fs : list (list N * value)) (x : value),
           JSON_parse (req_body req) = Parsed (Obj fields)
           /\ get (js "messages") fields = Some (Obj fs)
           /\ get (js "length") fs = Some x
  end.
Proof.
  destruct (listener_cases rt cfg req reply)
    as [[Hh Hl] | [(Hh & Hc & [(u & Hu & Hl) | (Hu & Hl)])
                 | (Hh & Hc & [[Hp Hl] | [(e & Hp & Hl)
                     | (ev & payload & Hp & [(u & Hu & Hl) | (Hu & Hl)])]])]];
    rewrite Hl; unfold caught; cbn [fst snd].
  - left. split; [exact Hh |]. split; [reflexivity |].
    split; [reflexivity |].
    unfold health. cbn [body]. vm_compute. reflexivity.
  - split; [exact Hh |]. split; [reflexivity |]. exists u. exact Hu.
  - repeat split; assumption.
  - split; [exact Hc |]. exact (prepare_beyond rt cfg _ Hp).
  - right. split; [exact Hc |]. cbn [status headers body].
    split; [reflexivity |]. split; [reflexivity |]. exists e. reflexivity.
  - split; [exact Hh |]. split; [reflexivity |]. exists u. exact Hu.
  - right. split; [exact Hc |]. cbn [status headers body].
    split; [reflexivity |]. split; [reflexivity |]. eexists. reflexivity.
Qed.

(** ** The onError hook *)

Lemma routing_events_no_hook
    (cfg : config) (originalModel : value) (prompt : list N) (d : decision)
    (e : error) :
  OnError e ∉ routing_events cfg originalModel prompt d.
Proof.
  unfold routing_events. cbv zeta. intros H.
  apply elem_of_app in H. destruct H as [H | H].
  - destruct (onRouted cfg).
    + apply list_elem_of_singleton in H. discriminate.
    + apply elem_of_nil in H. exact H.
  - apply list_elem_of_singleton in H. discriminate.
Qed.

Lemma settle_no_hook (rt : runtime) (reply : upstream_result) (e : error) :
  OnError e ∉ (settle rt reply).1.
Proof.
  destruct reply; simpl; intros H.
  - apply list_elem_of_singleton in H. discriminate.
  - apply elem_of_nil in H. exact H.
Qed.

Lemma prepare_no_hook
    (rt : runtime) (cfg : config) (text : list N)
    (events : list event) (payload : value) (e : error) :
  prepare rt cfg text = Done (events, payload) -> OnError e ∉ events.
Proof.
  intros Hp.
  assert (Hparsed : exists p : value, JSON_parse text = Parsed p).
  { unfold prepare in Hp.
    destruct (JSON_parse text) as [p | |]; [| discriminate ..].
    exists p. reflexivity. }
  destruct Hparsed as [p Hparse].
  destruct (prepare_payload rt cfg text p payload events Hparse Hp)
    as [[-> _] | (fields & sentinel & prompt & _ & _ & _ & -> & _)].
  - apply not_elem_of_nil.
  - apply routing_events_no_hook.
Qed.

(** X18.  The onError hook is called exactly when the proxy answers with
    500 and the hook is present: the call is then the last event, and the
    body of the answer carries the message of the exception passed to the
    hook.  A failure of the upstream connection, answered with 502, does
    not reach the hook. *)
Theorem onError_with_every_500
    (rt : runtime) (cfg : config) (req : request) (reply : upstream_result) :
  ((exists e : error, OnError e ∈ (listener rt cfg req reply).1)
   <-> onError cfg = true
       /\ exists r : response,
            (listener rt cfg req reply).2 = Direct r /\ status r = 500%Z)
  /\ forall e : error,
       OnError e ∈ (listener rt cfg req reply).1 ->
       last (listener rt cfg req reply).1 = Some (OnError e)
       /\ (listener rt cfg req reply).2
          = Direct {| status := 500;
                      headers := json_headers;
                      body := stringify rt
                                (Obj [(js "error", Str (message rt e))]) |}.
Proof.
  assert (Hcaught : forall (ev : list event) (e0 : error),
            (forall e, OnError e ∉ ev) ->
            ((exists e : error, OnError e ∈ (caught rt cfg ev e0).1)
             <-> onError cfg = true
                 /\ exists r : response,
                      (caught rt cfg ev e0).2 = Direct r /\ status r = 500%Z)
            /\ forall e : error,
                 OnError e ∈ (caught rt cfg ev e0).1 ->
                 last (caught rt cfg ev e0).1 = Some (OnError e)
                 /\ (caught rt cfg ev e0).2
                    = Direct {| status := 500;
                                headers := json_headers;
                                body := stringify rt
                                  (Obj [(js "error", Str (message rt e))]) |}).
  { intros ev e0 Hev. unfold caught. cbn [fst snd].
    destruct (onError cfg).
    - split.
      + split.
        * intros _. split; [reflexivity |]. eexists. split; reflexivity.
        * intros _. exists e0. apply elem_of_app. right.
          apply list_elem_of_singleton. reflexivity.
      + intros e He. apply elem_of_app in He. destruct He as [He | He];
          [exfalso; exact (Hev e He) |].
        apply list_elem_of_singleton in He. injection He as ->.
        split; [apply last_snoc | reflexivity].
    - rewrite app_nil_r. split.
      + split.
        * intros [e He]. exfalso. exact (Hev e He).
        * intros [H _]. discriminate.
      + intros e He. exfalso. exact (Hev e He). }
  assert (Hnone : forall (ev : list event) (o : outcome),
            (forall e, OnError e ∉ ev) ->
            (forall r, o = Direct r -> status r <> 500%Z) ->
            ((exists e : error, OnError e ∈ ev)
             <-> onError cfg = true
                 /\ exists r : response, o = Direct r /\ status r = 500%Z)
            /\ forall e : error,
                 OnError e ∈ ev ->
                 last ev = Some (OnError e)
                 /\ o = Direct {| status := 500;
                                  headers := json_headers;
                                  body := stringify rt
                                    (Obj [(js "error",
                                           Str (message rt e))]) |}).
  { intros ev o Hev Ho. split.
    - split.
      + intros [e He]. exfalso. exact (Hev e He).
      + intros (_ & r & Hr & Hs). exfalso. exact (Ho r Hr Hs).
    - intros e He. exfalso. exact (Hev e He). }
  destruct (listener_cases rt cfg req reply)
    as [[Hh Hl] | [(Hh & Hc & [(u & Hu & Hl) | (Hu & Hl)])
                 | (Hh & Hc & [[Hp Hl] | [(e & Hp & Hl)
                     | (ev & payload & Hp & [(u & Hu & Hl) | (Hu & Hl)])]])]];
    rewrite Hl.
  - apply Hnone; cbn [fst snd].
    + intros e. apply not_elem_of_nil.
    + intros r [= <-]. discriminate.
  - apply Hnone; cbn [fst snd].
    + intros e. apply settle_no_hook.
    + intros r Hr. discriminate.
  - apply Hnone; cbn [fst snd].
    + intros e. apply not_elem_of_nil.
    + intros r Hr. discriminate.
  - apply Hnone; cbn [fst snd].
    + intros e. apply not_elem_of_nil.
    + intros r Hr. discriminate.
  - apply Hcaught. intros e0. apply not_elem_of_nil.
  - apply Hnone; cbn [fst snd].
    + intros e He. apply elem_of_app in He. destruct He as [He | He].
      * exact (prepare_no_hook rt cfg _ _ _ e Hp He).
      * exact (settle_no_hook rt reply e He).
    + intros r Hr. discriminate.
  - apply Hcaught. intros e0. exact (prepare_no_hook rt cfg _ _ _ e0 Hp).
Qed.

(** ** The base URL *)

Lemma strip_trailing_slash_snoc (s : list N) (c : N) :
  strip_trailing_slash (s ++ [c]) = if (c =? 47)%N then s else s ++ [c].
Proof.
  induction s as [| a s IH]; [reflexivity |].
  cbn [app strip_trailing_slash].
  destruct (s ++ [c]) as [| b t] eqn:E.
  - destruct s; discriminate.
  - rewrite IH. destruct (c =? 47)%N; reflexivity.
Qed.

(** X19.  The base URL that requests are resolved against is the option
    without one slash at its end, if it has one: exactly one slash is
    removed, and an option that does not end in a slash is taken as it
    is. *)
Theorem baseUrl_strips_one_slash (cfg : config) :
  (forall s : list N, litellmBaseUrl cfg = s ++ js "/" -> baseUrl cfg = s)
  /\ (last (litellmBaseUrl cfg) <> Some 47%N ->
      baseUrl cfg = litellmBaseUrl cfg)
  /\ (length (baseUrl cfg) <= length (litellmBaseUrl cfg)
      <= S (length (baseUrl cfg)))%nat.
Proof.
  unfold baseUrl.
  destruct (litellmBaseUrl cfg) as [| a s] using rev_ind.
  - split; [intros s H; destruct s; discriminate |].
    split; [reflexivity | simpl; lia].
  - rewrite strip_trailing_slash_snoc, last_snoc, length_app. cbn [length].
    destruct (a =? 47)%N eqn:E.
    + apply N.eqb_eq in E. subst a. split.
      * intros s0 H. apply app_inj_tail in H. destruct H as [H _]. exact H.
      * split; [congruence | lia].
    + apply N.eqb_neq in E. split.
      * intros s0 H. change (js "/") with [47%N] in H.
        apply app_inj_tail in H. destruct H as [_ H]. congruence.
      * split; [reflexivity | rewrite length_app; simpl; lia].
Qed.

Lemma baseUrl_strips_one_slash_witness :
  baseUrl sample_config = js "http://localhost:4000".
Proof.
  apply (proj1 (baseUrl_strips_one_slash sample_config)). reflexivity.
Defined.

(** * Starting the proxy *)

Lemma compatible_spec (data : list N) :
  Server.compatible data = true
  <-> exists health : value,
        JSON_parse data = Parsed health
        /\ read health (js "status") = Some (Str (js "ok")).
Proof.
  unfold Server.compatible. split.
  - destruct (JSON_parse data) as [health | |]; [| discriminate ..].
    destruct (read health (js "status")) as [[| | | | | s | |] |] eqn:Hs;
      try discriminate.
    intros H. apply bool_decide_eq_true_1 in H. subst s.
    exists health. split; [reflexivity | exact Hs].
  - intros (health & -> & ->). reflexivity.
Qed.

(** X20.  startProxy resolves exactly when both the base URL and the key
    are given and not empty, and the server listens or the port is in use
    and the probe of its health endpoint ends with a JSON text whose
    status is ok, whatever else it holds and whatever its HTTP status.  It
    resolves with the port it was given and the local URL of that port;
    reused tells that the port was in use, and onReady is called only when
    the server listens. *)
Theorem startProxy_resolves_iff
    (o : Server.options) (env : option (list N))
    (listen : Server.listen_result) (probe : Server.probe_result) :
  let port := default (Server.default_port env) (Server.port o) in
  let started := Server.startProxy o env listen probe in
  ((exists h : Server.handle, started.2 = Server.Resolved h)
   <-> Server.missing (Server.litellmBaseUrl o) = false
       /\ Server.missing (Server.litellmApiKey o) = false
       /\ (listen = Server.Listening
           \/ (listen = Server.ListenError (js "EADDRINUSE")
               /\ exists (data : list N) (health : value),
                    probe = Server.ProbeEnd data
                    /\ JSON_parse data = Parsed health
                    /\ read health (js "status") = Some (Str (js "ok")))))
  /\ forall h : Server.handle,
       started.2 = Server.Resolved h ->
       Server.handle_port h = port
       /\ Server.handle_baseUrl h
          = js "http://localhost:" ++ Server.port_text port
       /\ (Server.reused h = false <-> listen = Server.Listening)
       /\ (Server.OnReady port ∈ started.1
           <-> Server.onReady o = true /\ listen = Server.Listening).
Proof.
  intros port started. unfold started, Server.startProxy. fold port.
  destruct (Server.missing (Server.litellmBaseUrl o)).
  { cbn [fst snd]. split.
    - split; [intros [h H]; discriminate | intros [H _]; discriminate].
    - intros h H. discriminate. }
  destruct (Server.missing (Server.litellmApiKey o)).
  { cbn [fst snd]. split.
    - split; [intros [h H]; discriminate | intros (_ & H & _); discriminate].
    - intros h H. discriminate. }
  destruct listen as [| code].
  { cbn [fst snd]. split.
    - split; [intros _; repeat split; left; reflexivity |].
      intros _. eexists. reflexivity.
    - intros h [= <-]. cbn [Server.handle_port Server.handle_baseUrl
                             Server.reused].
      split; [reflexivity |]. split; [reflexivity |].
      split; [split; reflexivity |].
      destruct (Server.onReady o).
      + split; [intros _; split; reflexivity |].
        intros _. apply list_elem_of_singleton. reflexivity.
      + split; [intros H; apply elem_of_nil in H; contradiction |].
        intros [H _]. discriminate. }
  destruct (bool_decide (code = js "EADDRINUSE")) eqn:Ecode.
  2: { apply bool_decide_eq_false_1 in Ecode. cbn [fst snd]. split.
       - split; [intros [h H]; discriminate |].
         intros (_ & _ & [H | (H & _)]); [discriminate | congruence].
       - intros h H. discriminate. }
  apply bool_decide_eq_true_1 in Ecode. subst code.
  destruct probe as [| data].
  { cbn [fst snd]. split.
    - split; [intros [h H]; discriminate |].
      intros (_ & _ & [H | (_ & data & health & H & _)]); discriminate.
    - intros h H. discriminate. }
  destruct (Server.compatible data) eqn:Ecompat; cbn [fst snd].
  - apply compatible_spec in Ecompat. destruct Ecompat as (health & Hp & Hs).
    split.
    + split; [| intros _; eexists; reflexivity].
      intros _. split; [reflexivity |]. split; [reflexivity |].
      right. split; [reflexivity |]. exists data, health.
      split; [reflexivity |]. split; assumption.
    + intros h [= <-]. cbn [Server.handle_port Server.handle_baseUrl
                             Server.reused].
      split; [reflexivity |]. split; [reflexivity |].
      split; [split; discriminate |].
      split; [| intros [_ H]; discriminate].
      intros H. exfalso.
      repeat (apply elem_of_cons in H; destruct H as [H | H];
              [discriminate H |]).
      apply elem_of_nil in H. exact H.
  - split.
    + split; [intros [h H]; discriminate |].
      intros (_ & _ & [H | (_ & data' & health & H & Hp & Hs)]);
        [discriminate |].
      injection H as <-.
      assert (Hc : Server.compatible data = true).
      { apply compatible_spec. exists health. split; assumption. }
      congruence.
    + intros h H. discriminate.
Qed.

(** X21.  startProxy rejects with an error of its own in three cases: the
    base URL is missing or empty; else the key is missing or empty; else
    the port is in use and the probe fails or does not end with a JSON text
    whose status is ok.  It rejects with the error of the server when that
    error is not a port in use.  The options are checked before anything
    else: without them nothing is logged and no hook is called. *)
Theorem startProxy_rejections
    (o : Server.options) (env : option (list N))
    (listen : Server.listen_result) (probe : Server.probe_result) :
  let port := default (Server.default_port env) (Server.port o) in
  let started := Server.startProxy o env listen probe in
  let given :=
    Server.missing (Server.litellmBaseUrl o) = false
    /\ Server.missing (Server.litellmApiKey o) = false in
  (forall m : list N,
     started.2 = Server.Rejected m
     <-> (Server.missing (Server.litellmBaseUrl o) = true
          /\ m = js "litellmBaseUrl is required")
         \/ (Server.missing (Server.litellmBaseUrl o) = false
             /\ Server.missing (Server.litellmApiKey o) = true
             /\ m = js "litellmApiKey is required")
         \/ (given
             /\ listen = Server.ListenError (js "EADDRINUSE")
             /\ (forall data, probe = Server.ProbeEnd data ->
                   Server.compatible data = false)
             /\ m = js "Port " ++ Server.port_text port
                    ++ js " is in use by another service"))
  /\ (forall code : list N,
        started.2 = Server.RejectedWith code
        <-> given /\ listen = Server.ListenError code
            /\ code <> js "EADDRINUSE")
  /\ (~ given -> started.1 = []).
Proof.
  intros port started given.
  unfold started, given, Server.startProxy. fold port.
  destruct (Server.missing (Server.litellmBaseUrl o)).
  { cbn [fst snd]. split; [| split].
    - intros m. split.
      + intros [= <-]. left. split; reflexivity.
      + intros [[_ ->] | [(H & _) | ((H & _) & _)]];
          [reflexivity | discriminate ..].
    - intros code. split; [discriminate | intros ((H & _) & _); discriminate].
    - reflexivity. }
  destruct (Server.missing (Server.litellmApiKey o)).
  { cbn [fst snd]. split; [| split].
    - intros m. split.
      + intros [= <-]. right. left. repeat split.
      + intros [[H _] | [(_ & _ & ->) | ((_ & H) & _)]];
          [discriminate | reflexivity | discriminate].
    - intros code. split; [discriminate | intros ((_ & H) & _); discriminate].
    - reflexivity. }
  destruct listen as [| code].
  { cbn [fst snd]. split; [| split].
    - intros m. split; [discriminate |].
      intros [[H _] | [(_ & H & _) | (_ & H & _)]]; discriminate.
    - intros code. split; [discriminate | intros (_ & H & _); discriminate].
    - intros H. exfalso. apply H. split; reflexivity. }
  destruct (bool_decide (code = js "EADDRINUSE")) eqn:Ecode.
  2: { apply bool_decide_eq_false_1 in Ecode. cbn [fst snd].
       split; [| split].
       - intros m. split; [discriminate |].
         intros [[H _] | [(_ & H & _) | (_ & H & _)]];
           [discriminate | discriminate | congruence].
       - intros code'. split.
         + intros [= <-]. repeat split. exact Ecode.
         + intros (_ & [= <-] & _). reflexivity.
       - intros H. exfalso. apply H. split; reflexivity. }
  apply bool_decide_eq_true_1 in Ecode. subst code.
  assert (Hthird : forall (events : list Server.start_event),
            (forall data, probe = Server.ProbeEnd data ->
                          Server.compatible data = false) ->
            (forall m : list N,
               Server.Rejected (Server.in_use port) = Server.Rejected m
               <-> (false = true /\ m = js "litellmBaseUrl is required")
                   \/ (false = false /\ false = true
                       /\ m = js "litellmApiKey is required")
                   \/ ((false = false /\ false = false)
                       /\ Server.ListenError (js "EADDRINUSE")
                          = Server.ListenError (js "EADDRINUSE")
                       /\ (forall data, probe = Server.ProbeEnd data ->
                             Server.compatible data = false)
                       /\ m = js "Port " ++ Server.port_text port
                              ++ js " is in use by another service"))
            /\ (forall code : list N,
                  Server.Rejected (Server.in_use port)
                  = Server.RejectedWith code
                  <-> (false = false /\ false = false)
                      /\ Server.ListenError (js "EADDRINUSE")
                         = Server.ListenError code
                      /\ code <> js "EADDRINUSE")
            /\ (~ (false = false /\ false = false) -> events = [])).
  { intros events Hprobe. split; [| split].
    - intros m. split.
      + intros [= <-]. right. right. repeat split. exact Hprobe.
      + intros [[H _] | [(_ & H & _) | (_ & _ & _ & ->)]];
          [discriminate | discriminate | reflexivity].
    - intros code. split; [discriminate |].
      intros (_ & [= <-] & H). contradiction.
    - intros H. exfalso. apply H. split; reflexivity. }
  destruct probe as [| data].
  { cbn [fst snd]. apply Hthird. intros data H. discriminate. }
  destruct (Server.compatible data) eqn:Ecompat; cbn [fst snd].
  - split; [| split].
    + intros m. split; [discriminate |].
      intros [[H _] | [(_ & H & _) | (_ & _ & H & _)]];
        [discriminate | discriminate |].
      specialize (H data eq_refl). congruence.
    + intros code. split; [discriminate |].
      intros (_ & [= <-] & H). contradiction.
    + intros H. exfalso. apply H. split; reflexivity.
  - apply Hthird. intros data' [= <-]. exact Ecompat.
Qed.

(** X22.  A second proxy started on the port of a running one finds the
    port in use, probes the health endpoint, and is answered by the
    listener of the first: the probe is compatible, and the second
    startProxy resolves with reused set, without listening and without
    calling onReady. *)
Theorem second_start_reuses_the_proxy
    (rt : runtime) (cfg : config) (req : request) (reply : upstream_result)
    (o : Server.options) (env : option (list N)) :
  req_url req = js "/health" ->
  Server.missing (Server.litellmBaseUrl o) = false ->
  Server.missing (Server.litellmApiKey o) = false ->
  let port := default (Server.default_port env) (Server.port o) in
  exists r : response,
    listener rt cfg req reply = ([], Direct r)
    /\ status r = 200%Z
    /\ Server.compatible (body r) = true
    /\ (Server.startProxy o env (Server.ListenError (js "EADDRINUSE"))
          (Server.ProbeEnd (body r))).2
       = Server.Resolved
           {| Server.handle_port := port;
              Server.handle_baseUrl := Server.proxyUrl port;
              Server.reused := true |}
    /\ forall p : Server.port_t,
         Server.OnReady p
         ∉ (Server.startProxy o env (Server.ListenError (js "EADDRINUSE"))
              (Server.ProbeEnd (body r))).1.
Proof.
  intros Hurl Hbase Hkey port.
  exists (health rt).
  assert (Hc : Server.compatible (body (health rt)) = true).
  { unfold health. cbn [body]. vm_compute. reflexivity. }
  split.
  { unfold listener. rewrite bool_decide_eq_true_2 by exact Hurl.
    reflexivity. }
  split; [reflexivity |]. split; [exact Hc |].
  unfold Server.startProxy. fold port. rewrite Hbase, Hkey.
  rewrite bool_decide_eq_true_2 by reflexivity. rewrite Hc. cbn [fst snd].
  split; [reflexivity |].
  intros p H.
  repeat (apply elem_of_cons in H; destruct H as [H | H];
          [discriminate H |]).
  apply elem_of_nil in H. exact H.
Qed.

Lemma second_start_reuses_the_proxy_witness :
  exists h : Server.handle,
    (Server.startProxy sample_options None
       (Server.ListenError (js "EADDRINUSE"))
       (Server.ProbeEnd
          (body (health sample_runtime)))).2
    = Server.Resolved h
    /\ Server.reused h = true
    /\ Server.handle_baseUrl h = js "http://localhost:8401".
Proof.
  destruct (second_start_reuses_the_proxy sample_runtime sample_config
              {| req_method := js "GET"; req_url := js "/health";
                 req_headers := ∅; req_body := [] |}
              (Answered 200 ∅ []) sample_options None)
    as (r & Hl & _ & _ & Hs & _).
  - reflexivity.
  - reflexivity.
  - reflexivity.
  - injection Hl as <-. eexists. split; [exact Hs |].
    split; reflexivity.
Defined.

(** X23.  The port of the proxy is the port option when there is one, also
    when it is 0; else the environment variable, as the text it is, when it
    is set and not empty; else 8401.  The URL that startProxy resolves with
    is the local URL of that port. *)
Theorem startProxy_port
    (o : Server.options) (env : option (list N))
    (listen : Server.listen_result) (probe : Server.probe_result)
    (h : Server.handle) :
  (Server.startProxy o env listen probe).2 = Server.Resolved h ->
  Server.handle_baseUrl h
  = js "http://localhost:" ++ Server.port_text (Server.handle_port h)
  /\ (forall p : Server.port_t,
        Server.port o = Some p -> Server.handle_port h = p)
  /\ (forall (c : N) (s : list N),
        Server.port o = None -> env = Some (c :: s) ->
        Server.handle_port h = Server.PortText (c :: s))
  /\ (Server.port o = None -> env = None \/ env = Some [] ->
      Server.handle_port h = Server.PortNumber 8401
      /\ Server.handle_baseUrl h = js "http://localhost:8401").
Proof.
  intros H.
  assert (Hh : Server.handle_port h
               = default (Server.default_port env) (Server.port o)
               /\ Server.handle_baseUrl h
                  = Server.proxyUrl (Server.handle_port h)).
  { unfold Server.startProxy in H.
    destruct (Server.missing (Server.litellmBaseUrl o)); [discriminate |].
    destruct (Server.missing (Server.litellmApiKey o)); [discriminate |].
    destruct listen as [| code].
    - injection H as <-. split; reflexivity.
    - destruct (bool_decide (code = js "EADDRINUSE")); [| discriminate].
      destruct probe as [| data]; [discriminate |].
      destruct (Server.compatible data); [| discriminate].
      injection H as <-. split; reflexivity. }
  destruct Hh as [Hp Hu]. split; [exact Hu |]. split; [| split].
  - intros p E. rewrite Hp, E. reflexivity.
  - intros c s E1 E2. rewrite Hp, E1, E2. reflexivity.
  - intros E1 E2. rewrite Hu, Hp, E1.
    destruct E2 as [-> | ->]; split; reflexivity.
Qed.

Lemma startProxy_port_witness :
  exists h : Server.handle,
    (Server.startProxy sample_options (Some (js "8402")) Server.Listening
       Server.ProbeError).2
    = Server.Resolved h
    /\ Server.handle_baseUrl h = js "http://localhost:8402".
Proof.
  eexists. split; [reflexivity |].
  destruct (startProxy_port sample_options (Some (js "8402"))
              Server.Listening Server.ProbeError _ eq_refl)
    as (Hu & _ & Hp & _).
  rewrite Hu, (Hp 56%N (js "402") eq_refl eq_refl). reflexivity.
Defined.

(** * The test command *)

Lemma score_entries_lookup (prompt : list N) (dim : string) (v : Q) :
  (dim, v) ∈ Cli.score_entries prompt ->
  scoreDimensions prompt !! dim = Some v.
Proof.
  unfold Cli.score_entries. intros H. apply elem_of_app in H.
  destruct H as [H | H].
  - apply list_elem_of_fmap in H. destruct H as ([d ps] & Heq & Hin).
    injection Heq as -> ->. apply pattern_lookup. exact Hin.
  - apply elem_of_cons in H. destruct H as [H | H].
    + injection H as -> ->. apply tokenCount_lookup.
    + apply list_elem_of_singleton in H. injection H as -> ->.
      unfold scoreDimensions. apply lookup_insert_eq.
Qed.

Lemma dimension_cases (dim : string) :
  dim ∈ dimensions ->
  (exists patterns : list regex, (dim, patterns) ∈ PATTERNS)
  \/ dim = "tokenCount" \/ dim = "questionComplexity".
Proof.
  intros H. unfold dimensions in H.
  repeat (apply elem_of_cons in H; destruct H as [-> | H]);
    [.. | apply elem_of_nil in H; contradiction];
    first [ right; left; reflexivity
          | right; right; reflexivity
          | left; eexists; unfold PATTERNS; in_table ].
Qed.

Lemma score_entries_cover (prompt : list N) (dim : string) (v : Q) :
  scoreDimensions prompt !! dim = Some v ->
  (dim, v) ∈ Cli.score_entries prompt.
Proof.
  intros Hv.
  assert (Hdim : dim ∈ dimensions).
  { assert (Hdom : dim ∈ dom (scoreDimensions prompt))
      by (apply elem_of_dom; exists v; exact Hv).
    rewrite (proj1 (scoreDimensions_dom_and_range prompt)) in Hdom.
    apply elem_of_list_to_set in Hdom. exact Hdom. }
  assert (Hsome : exists v0 : Q, (dim, v0) ∈ Cli.score_entries prompt).
  { unfold Cli.score_entries.
    destruct (dimension_cases dim Hdim) as [[patterns Hin] | [-> | ->]].
    - exists (pattern_score patterns prompt). apply elem_of_app. left.
      apply list_elem_of_fmap. exists (dim, patterns).
      split; [reflexivity | exact Hin].
    - eexists. apply elem_of_app. right. apply list_elem_of_here.
    - eexists. apply elem_of_app. right. apply list_elem_of_further.
      apply list_elem_of_here. }
  destruct Hsome as [v0 Hin].
  pose proof (score_entries_lookup prompt dim v0 Hin) as Hv0.
  rewrite Hv in Hv0. injection Hv0 as <-. exact Hin.
Qed.

Lemma score_entries_keys (prompt : list N) :
  NoDup (Cli.score_entries prompt).*1.
Proof.
  unfold Cli.score_entries. rewrite fmap_app, <- list_fmap_compose.
  assert (E : (fst ∘ (fun '(dim, patterns) =>
                        (dim, pattern_score patterns prompt)))
                <$> PATTERNS
              = PATTERNS.*1).
  { apply list_fmap_ext. intros i [d ps] _. reflexivity. }
  rewrite E. cbn [fmap list_fmap fst]. compute_done.
Qed.

Lemma insert_desc_perm (x : string * Q) (l : list (string * Q)) :
  Cli.insert_desc x l ≡ₚ x :: l.
Proof.
  induction l as [| y l IH]; [reflexivity |].
  cbn [Cli.insert_desc]. destruct (Qltb x.2 y.2); [| reflexivity].
  rewrite IH. apply Permutation_swap.
Qed.

Lemma sort_desc_perm (l : list (string * Q)) : Cli.sort_desc l ≡ₚ l.
Proof.
  unfold Cli.sort_desc. induction l as [| x l IH]; [reflexivity |].
  cbn [fold_right]. rewrite insert_desc_perm, IH. reflexivity.
Qed.

Lemma insert_desc_sorted (x : string * Q) (l : list (string * Q)) :
  Sorted.StronglySorted not_smaller l ->
  Sorted.StronglySorted not_smaller (Cli.insert_desc x l).
Proof.
  induction l as [| y l IH]; intros Hs.
  - repeat constructor.
  - apply Sorted.StronglySorted_inv in Hs. destruct Hs as [Hs Hy].
    cbn [Cli.insert_desc]. destruct (Qltb x.2 y.2) eqn:E.
    + apply Qltb_lt in E. apply Sorted.SSorted_cons; [exact (IH Hs) |].
      rewrite insert_desc_perm. constructor; [| exact Hy].
      unfold not_smaller. lra.
    + apply Qltb_nlt in E. apply Sorted.SSorted_cons.
      * apply Sorted.SSorted_cons; assumption.
      * assert (Hxy : not_smaller x y) by (unfold not_smaller; lra).
        constructor; [exact Hxy |].
        eapply Forall_impl; [exact Hy |].
        intros z Hz. unfold not_smaller in *. lra.
Qed.

Lemma sort_desc_sorted (l : list (string * Q)) :
  Sorted.StronglySorted not_smaller (Cli.sort_desc l).
Proof.
  unfold Cli.sort_desc. induction l as [| x l IH]; [constructor |].
  cbn [fold_right]. apply insert_desc_sorted. exact IH.
Qed.

Lemma sorted_take (n : nat) (l : list (string * Q)) :
  Sorted.StronglySorted not_smaller l ->
  Sorted.StronglySorted not_smaller (take n l).
Proof.
  revert n. induction l as [| x l IH]; intros n Hs.
  - destruct n; constructor.
  - destruct n as [| n]; [constructor |].
    apply Sorted.StronglySorted_inv in Hs. destruct Hs as [Hs Hx].
    cbn [take]. apply Sorted.SSorted_cons; [exact (IH n Hs) |].
    apply Forall_take. exact Hx.
Qed.

Lemma sorted_take_drop (n : nat) (l : list (string * Q))
    (x y : string * Q) :
  Sorted.StronglySorted not_smaller l ->
  x ∈ take n l -> y ∈ drop n l -> not_smaller x y.
Proof.
  revert n. induction l as [| a l IH]; intros n Hs Hx Hy.
  - destruct n; apply elem_of_nil in Hx; contradiction.
  - destruct n as [| n]; [apply elem_of_nil in Hx; contradiction |].
    apply Sorted.StronglySorted_inv in Hs. destruct Hs as [Hs Ha].
    cbn [take drop] in Hx, Hy. apply elem_of_cons in Hx.
    destruct Hx as [-> | Hx].
    + rewrite Forall_forall in Ha. apply Ha.
      apply (subseteq_drop n l). exact Hy.
    + exact (IH n Hs Hx Hy).
Qed.

(** X24.  For a message that is not empty, the test command routes it as
    route does and prints at most five dimensions, never none: each has a
    positive score, they come in the order of their scores, largest first,
    no dimension comes twice, and no dimension that is left out scores
    more than one that is printed. *)
Theorem testRouting_top_scores
    (message : list N) (tierModels : option (gmap string string)) :
  message <> [] ->
  exists rep : Cli.report,
    Cli.testRouting message tierModels = Some rep
    /\ Cli.report_tier rep
       = tier (route message {| Router.tierModels := tierModels |})
    /\ Cli.report_model rep
       = model (route message {| Router.tierModels := tierModels |})
    /\ Cli.preview rep
       = take 80 message
         ++ (if (80 <? length message)%nat then js "..." else [])
    /\ (0 < length (Cli.report_scores rep) <= 5)%nat
    /\ Sorted.StronglySorted not_smaller (Cli.report_scores rep)
    /\ NoDup (Cli.report_scores rep).*1
    /\ (forall (dim : string) (v : Q),
          (dim, v) ∈ Cli.report_scores rep ->
          0 < v /\ scoreDimensions message !! dim = Some v)
    /\ (forall (dim dim' : string) (v v' : Q),
          (dim, v) ∈ Cli.report_scores rep ->
          scoreDimensions message !! dim' = Some v' ->
          dim' ∉ (Cli.report_scores rep).*1 ->
          v' <= v).
Proof.
  intros Hne. destruct message as [| c message]; [congruence |].
  eexists. split; [reflexivity |].
  cbn [Cli.report_tier Cli.report_model Cli.preview Cli.report_scores].
  split; [reflexivity |]. split; [reflexivity |]. split; [reflexivity |].
  set (prompt := c :: message).
  set (entries := Cli.score_entries prompt).
  set (positive := filter (fun e : string * Q => Qltb 0 e.2 = true) entries).
  unfold Cli.topScores. fold entries. fold positive.
  assert (Hin : forall x : string * Q,
            x ∈ Cli.sort_desc positive
            <-> Qltb 0 x.2 = true /\ x ∈ entries).
  { intros x. rewrite (sort_desc_perm positive). unfold positive.
    rewrite list_elem_of_filter. reflexivity. }
  assert (Htake : forall x : string * Q,
            x ∈ take 5 (Cli.sort_desc positive) -> x ∈ Cli.sort_desc positive).
  { intros x. apply subseteq_take. }
  split; [| split; [| split; [| split]]].
  - rewrite length_take. split; [| lia].
    assert (Ht : ("tokenCount", tokenCount_score (tokenCount prompt))
                 ∈ Cli.sort_desc positive).
    { apply Hin. split.
      - apply Qltb_lt. cbn [snd].
        pose proof (tokenCount_score_floor (tokenCount prompt)). lra.
      - unfold entries, Cli.score_entries. apply elem_of_app. right.
        apply list_elem_of_here. }
    destruct (Cli.sort_desc positive);
      [apply elem_of_nil in Ht; contradiction | simpl; lia].
  - apply sorted_take. apply sort_desc_sorted.
  - apply (sublist_NoDup _ ((Cli.sort_desc positive).*1));
      [| apply fmap_sublist; apply sublist_take].
    rewrite (sort_desc_perm positive).
    apply (sublist_NoDup _ (entries.*1)); [apply score_entries_keys |].
    apply fmap_sublist. apply sublist_filter.
  - intros dim v Hv. apply Htake, Hin in Hv. destruct Hv as [Hpos He].
    split; [apply Qltb_lt in Hpos; exact Hpos |].
    apply score_entries_lookup. exact He.
  - intros dim dim' v v' Hv Hv' Hout.
    destruct (Qlt_le_dec 0 v') as [Hpos | Hle].
    + assert (Hs : (dim', v') ∈ Cli.sort_desc positive).
      { apply Hin. split; [apply Qltb_lt; exact Hpos |].
        apply score_entries_cover. exact Hv'. }
      rewrite <- (take_drop 5 (Cli.sort_desc positive)) in Hs.
      apply elem_of_app in Hs. destruct Hs as [Hs | Hs].
      * exfalso. apply Hout. apply list_elem_of_fmap.
        exists (dim', v'). split; [reflexivity | exact Hs].
      * exact (sorted_take_drop 5 _ _ _ (sort_desc_sorted positive) Hv Hs).
    + apply Htake, Hin in Hv. destruct Hv as [Hv _].
      apply Qltb_lt in Hv. cbn [snd] in Hv. lra.
Qed.

Lemma testRouting_top_scores_witness :
  exists rep : Cli.report,
    Cli.testRouting (js "What is 2+2?") None = Some rep
    /\ Cli.report_tier rep = SIMPLE
    /\ (length (Cli.report_scores rep) <= 5)%nat.
Proof.
  destruct (testRouting_top_scores (js "What is 2+2?") None)
    as (rep & Hr & Ht & _ & _ & Hlen & _).
  - discriminate.
  - exists rep. split; [exact Hr |].
    split; [rewrite Ht; vm_compute; reflexivity | lia].
Defined.

(** * More on costs and on the endpoint *)



Lemma is_prefix_spec (p s : list N) :
  is_prefix p s = true <-> exists b : list N, s = p ++ b.
Proof.
  revert s. induction p as [| a p IH]; intros s.
  - split; [intros _; exists s; reflexivity | reflexivity].
  - destruct s as [| c s]; cbn [is_prefix].
    + split; [discriminate | intros [b H]; discriminate].
    + rewrite andb_true_iff, N.eqb_eq, IH. split.
      * intros [-> [b ->]]. exists b. reflexivity.
      * intros [b [= -> ->]]. split; [reflexivity | exists b; reflexivity].
Qed.

Lemma includes_spec (needle s : list N) :
  includes needle s = true <-> exists a b : list N, s = a ++ needle ++ b.
Proof.
  induction s as [| c s IH].
  - cbn [includes]. rewrite orb_false_r, is_prefix_spec. split.
    + intros [b H]. exists [], b. exact H.
    + intros (a & b & H). destruct a as [| x a]; [| discriminate].
      exists b. exact H.
  - cbn [includes]. rewrite orb_true_iff, is_prefix_spec, IH. split.
    + intros [[b H] | (a & b & H)].
      * exists [], b. exact H.
      * exists (c :: a), b. rewrite H. reflexivity.
    + intros (a & b & H). destruct a as [| x a].
      * left. exists b. exact H.
      * right. injection H as -> ->. exists a, b. reflexivity.
Qed.

(** X26.  The completions handler takes every POST whose URL holds the text
    /chat/completions anywhere, also in its query: the body of such a
    request is parsed, and a body that is not JSON is answered with 500
    instead of going upstream as it is. *)
Theorem completions_path_anywhere
    (rt : runtime) (cfg : config) (req : request) (reply : upstream_result) :
  (completions_post req
   <-> req_method req = js "POST"
       /\ exists a b : list N, req_url req = a ++ js "/chat/completions" ++ b)
  /\ (completions_post req ->
      listener rt cfg req reply = on_end rt cfg req reply
      /\ (JSON_parse (req_body req) = SyntaxError ->
          forwarded_body (listener rt cfg req reply).2 = None
          /\ exists r : response,
               (listener rt cfg req reply).2 = Direct r
               /\ status r = 500%Z))
  /\ (~ completions_post req -> req_url req <> js "/health" ->
      forall u : url,
        URL rt (req_url req) (baseUrl cfg) = Some u ->
        forwarded_body (listener rt cfg req reply).2 = Some (req_body req)).
Proof.
  split; [| split].
  - unfold completions_post. rewrite includes_spec. reflexivity.
  - intros [Hpost Hpath].
    split; [exact (listener_on_end rt cfg req reply Hpost Hpath) |].
    intros Hparse.
    rewrite (listener_thrown rt cfg req reply Hpost Hpath _
               (prepare_syntax_error rt cfg _ Hparse)).
    unfold caught. cbn [snd forwarded_body]. split; [reflexivity |].
    eexists. split; reflexivity.
  - intros Hc Hh u Hu.
    destruct (listener_cases rt cfg req reply)
      as [[Hh' _] | [(_ & _ & [(u' & Hu' & Hl) | (Hu' & _)])
                   | (_ & Hc' & _)]];
      [contradiction | | congruence | contradiction].
    rewrite Hl. reflexivity.
Qed.

Lemma completions_path_anywhere_witness :
  completions_post
    {| req_method := js "POST";
       req_url := js "/v1/models?next=/chat/completions";
       req_headers := ∅;
       req_body := [] |}.
Proof.
  apply (proj1 (completions_path_anywhere sample_runtime sample_config
                  {| req_method := js "POST";
                     req_url := js "/v1/models?next=/chat/completions";
                     req_headers := ∅;
                     req_body := [] |}
                  (Answered 200 ∅ []))).
  split; [reflexivity |].
  exists (js "/v1/models?next="), []. reflexivity.
Defined.

(** * The router inside the proxy *)





(** * The thresholds of the strong signals *)

Lemma score_of_ratio
    (prompt : list N) (dim : string) (patterns : list regex) :
  (dim, patterns) ∈ PATTERNS ->
  score_of prompt dim
  == of_nat (count_matches patterns prompt) / of_nat (length patterns).
Proof.
  intros Hin. unfold score_of.
  rewrite (pattern_lookup prompt dim patterns Hin). simpl.
  apply pattern_score_ratio. exact (PATTERNS_nonempty _ _ Hin).
Qed.

Lemma of_nat_lt (k n : nat) : of_nat k < of_nat n <-> (k < n)%nat.
Proof.
  unfold of_nat. rewrite <- Zlt_Qlt. lia.
Qed.

(** X28.  In counts of matching patterns: a strong code signal is three or
    more of the seven code patterns, or two or more of the four technical
    patterns; a strong imperative signal is one of the two imperative
    patterns together with one code or technical pattern. *)
Theorem strong_signals_by_counts (prompt : list N) :
  (hasStrongCode (score_of prompt)
   <-> (3 <= count_matches code_patterns prompt)%nat
       \/ (2 <= count_matches technical_patterns prompt)%nat)
  /\ (hasStrongImperative (score_of prompt)
      <-> (1 <= count_matches imperative_patterns prompt)%nat
          /\ ((1 <= count_matches code_patterns prompt)%nat
              \/ (1 <= count_matches technical_patterns prompt)%nat)).
Proof.
  pose proof (score_of_ratio prompt "code" code_patterns
                ltac:(unfold PATTERNS; in_table)) as Hc.
  pose proof (score_of_ratio prompt "technical" technical_patterns
                ltac:(unfold PATTERNS; in_table)) as Ht.
  pose proof (score_of_ratio prompt "imperative" imperative_patterns
                ltac:(unfold PATTERNS; in_table)) as Hi.
  change (of_nat (length code_patterns)) with 7 in Hc.
  change (of_nat (length technical_patterns)) with 4 in Ht.
  change (of_nat (length imperative_patterns)) with 2 in Hi.
  unfold hasStrongCode, hasStrongImperative. rewrite Hc, Ht, Hi.
  set (nc := count_matches code_patterns prompt).
  set (nt := count_matches technical_patterns prompt).
  set (ni := count_matches imperative_patterns prompt).
  assert (Dc : of_nat nc / 7 == of_nat nc * (1 # 7)) by field.
  assert (Dt : of_nat nt / 4 == of_nat nt * (1 # 4)) by field.
  assert (Di : of_nat ni / 2 == of_nat ni * (1 # 2)) by field.
  rewrite Dc, Dt, Di.
  assert (Up : forall k n : nat, of_nat k < of_nat n -> (S k <= n)%nat)
    by (intros k n H; apply of_nat_lt in H; lia).
  assert (Down : forall k n : nat, (k <= n)%nat -> of_nat k <= of_nat n)
    by (intros k n H; apply of_nat_le; exact H).
  split; split.
  - intros [H | H]; [left; apply (Up 2%nat) | right; apply (Up 1%nat)];
      [change (of_nat 2) with 2 | change (of_nat 1) with 1]; lra.
  - intros [H | H]; [left; apply (Down 3%nat) in H; change (of_nat 3) with 3 in H
                    | right; apply (Down 2%nat) in H;
                      change (of_nat 2) with 2 in H]; lra.
  - intros [H [H' | H']]; (split; [apply (Up 0%nat); change (of_nat 0) with 0; lra |]);
      [left | right]; apply (Up 0%nat); change (of_nat 0) with 0; lra.
  - intros [H [H' | H']]; apply (Down 1%nat) in H, H';
      change (of_nat 1) with 1 in H, H'; (split; [lra |]);
      [left | right]; lra.
Qed.

(** * The setup wizard *)

(** ** The tier map *)

Lemma cli_defaults_agree :
  list_to_map Cli.DEFAULT_TIER_MODELS = DEFAULT_TIER_MODELS.
Proof.
  unfold Cli.DEFAULT_TIER_MODELS, DEFAULT_TIER_MODELS.
  cbn [list_to_map foldr fst snd uncurry].
  apply map_eq. intros k.
  destruct (decide (k = "SIMPLE")) as [-> | H1]; [reflexivity |].
  destruct (decide (k = "MEDIUM")) as [-> | H2]; [reflexivity |].
  destruct (decide (k = "COMPLEX")) as [-> | H3]; [reflexivity |].
  destruct (decide (k = "REASONING")) as [-> | H4]; [reflexivity |].
  rewrite !lookup_insert_ne by congruence. reflexivity.
Qed.

Lemma wizard_lookup (answer : string -> string) (t : Tier) :
  Cli.wizard_tierModels answer !! tier_key t = Some (wizard_model answer t).
Proof.
  unfold Cli.wizard_tierModels. rewrite cli_defaults_agree.
  unfold Cli.DEFAULT_TIER_MODELS, wizard_model. cbn [fold_left].
  destruct t; cbn [tier_key];
    repeat case_bool_decide;
    repeat first [ rewrite lookup_insert_eq
                 | rewrite lookup_insert_ne by discriminate ];
    reflexivity.
Qed.

(** X29.  The tier map that the wizard stores is complete whatever is
    answered: the table of the command is the table of the router, the
    stored map has exactly the four tiers, each with the answer given for
    it or, after an empty answer, with the default, and never with an
    empty model; with no answers it is the default map; and a decision
    routed with the stored map always has the stored model of its tier. *)
Theorem wizard_tier_map_complete (answer : string -> string) :
  list_to_map Cli.DEFAULT_TIER_MODELS = DEFAULT_TIER_MODELS
  /\ dom (Cli.wizard_tierModels answer) = dom DEFAULT_TIER_MODELS
  /\ (forall t : Tier,
        Cli.wizard_tierModels answer !! tier_key t
        = Some (wizard_model answer t)
        /\ wizard_model answer t <> EmptyString)
  /\ ((forall t : Tier, answer (tier_key t) = EmptyString) ->
      Cli.wizard_tierModels answer = DEFAULT_TIER_MODELS)
  /\ (forall prompt : list N,
        let decision :=
          route prompt
            {| Router.tierModels := Some (Cli.wizard_tierModels answer) |} in
        model decision = Some (wizard_model answer (tier decision))).
Proof.
  split; [exact cli_defaults_agree |].
  split.
  { apply set_eq. intros k. rewrite !elem_of_dom.
    destruct (decide (k = "SIMPLE")) as [-> | H1].
    { pose proof (wizard_lookup answer SIMPLE) as E. cbn [tier_key] in E.
      rewrite E. split; intros _; eexists; reflexivity. }
    destruct (decide (k = "MEDIUM")) as [-> | H2].
    { pose proof (wizard_lookup answer MEDIUM) as E. cbn [tier_key] in E.
      rewrite E. split; intros _; eexists; reflexivity. }
    destruct (decide (k = "COMPLEX")) as [-> | H3].
    { pose proof (wizard_lookup answer COMPLEX) as E. cbn [tier_key] in E.
      rewrite E. split; intros _; eexists; reflexivity. }
    destruct (decide (k = "REASONING")) as [-> | H4].
    { pose proof (wizard_lookup answer REASONING) as E. cbn [tier_key] in E.
      rewrite E. split; intros _; eexists; reflexivity. }
    unfold Cli.wizard_tierModels. rewrite cli_defaults_agree.
    unfold Cli.DEFAULT_TIER_MODELS, DEFAULT_TIER_MODELS. cbn [fold_left].
    repeat case_bool_decide;
      rewrite !lookup_insert_ne by congruence; reflexivity. }
  split.
  { intros t. split; [apply wizard_lookup |].
    unfold wizard_model. case_bool_decide as E; [| exact E].
    destruct t; vm_compute; discriminate. }
  split.
  { intros Hnone. unfold Cli.wizard_tierModels.
    unfold Cli.DEFAULT_TIER_MODELS at 1. cbn [fold_left].
    rewrite !bool_decide_eq_true_2.
    - exact cli_defaults_agree.
    - exact (Hnone SIMPLE).
    - exact (Hnone MEDIUM).
    - exact (Hnone COMPLEX).
    - exact (Hnone REASONING). }
  intros prompt decision. unfold decision.
  rewrite route_model. cbn [Router.tierModels default].
  apply wizard_lookup.
Qed.

(** ** Merging into the configuration *)

Lemma set_same (k : list N) (v : value) (fields : list (list N * value)) :
  get k fields = Some v -> set k v fields = fields.
Proof.
  intros H. unfold set. rewrite H. clear - H.
  induction fields as [| [k1 v1] l IH]; [discriminate |].
  cbn [get replace] in *. destruct (bool_decide (k = k1)) eqn:E.
  - apply bool_decide_eq_true_1 in E. subst k1. congruence.
  - f_equal. apply IH. exact H.
Qed.

Lemma keys_set (k : list N) (v : value) (fields : list (list N * value)) :
  array_index k = None ->
  exists added, map fst (set k v fields) = map fst fields ++ added.
Proof.
  intros Hk. unfold set. destruct (get k fields) eqn:E.
  - exists []. rewrite app_nil_r. apply keys_replace. eauto.
  - rewrite Hk. exists [k]. rewrite map_app. reflexivity.
Qed.

Lemma ensure_object (k : list N) (fields sub : list (list N * value)) :
  get k fields = Some (Obj sub) -> Cli.ensure k fields = (fields, Cli.Fields sub).
Proof.
  intros H. unfold Cli.ensure. rewrite H. reflexivity.
Qed.

Lemma ensure_spec (k : list N) (fields : list (list N * value)) :
  absent_or_object k fields ->
  Cli.ensure k fields
  = (set k (Obj (child k fields)) fields, Cli.Fields (child k fields)).
Proof.
  intros [H | [sub H]].
  - unfold Cli.ensure, child. rewrite H. reflexivity.
  - rewrite (ensure_object k fields sub H). unfold child. rewrite H.
    rewrite (set_same _ _ _ H). reflexivity.
Qed.

Lemma read_path_step (fields : list (list N * value)) (k : list N)
    (path : list (list N)) :
  Cli.read_path (Obj fields) (k :: path)
  = Cli.read_path (default Undefined (get k fields)) path.
Proof. reflexivity. Qed.

Lemma read_path_get (fields : list (list N * value)) (k : list N)
    (x : value) (path : list (list N)) :
  get k fields = Some x ->
  Cli.read_path (Obj fields) (k :: path) = Cli.read_path x path.
Proof.
  intros H. rewrite read_path_step, H. reflexivity.
Qed.

(** The nested assignment on a configuration without obstacles. *)
Lemma assign_nested_spec (outer inner : list N)
    (extra : option (list N * value)) (k : list N) (v : value)
    (m : list (list N * value)) :
  absent_or_object outer m ->
  absent_or_object inner (child outer m) ->
  (forall name w, extra = Some (name, w) -> name <> inner) ->
  exists out sub inside,
    Cli.assign_nested outer inner extra k (Some v) m = Some (Some out)
    /\ get outer out = Some (Obj sub)
    /\ (forall k', k' <> outer -> get k' out = get k' m)
    /\ get inner sub = Some (Obj inside)
    /\ (forall name w, extra = Some (name, w) -> get name sub = Some w)
    /\ (forall k', k' <> inner ->
          (forall name w, extra = Some (name, w) -> k' <> name) ->
          get k' sub = get k' (child outer m))
    /\ get k inside = Some v
    /\ (forall k', k' <> k ->
          get k' inside = get k' (child inner (child outer m)))
    /\ (array_index outer = None ->
        exists added, map fst out = map fst m ++ added).
Proof.
  intros Houter Hinner Hextra. unfold Cli.assign_nested.
  rewrite (ensure_spec outer m Houter).
  rewrite (ensure_spec inner (child outer m) Hinner).
  set (sub0 := child outer m). set (inside0 := child inner sub0).
  eexists. eexists. eexists. split; [reflexivity |].
  split; [apply get_set_eq |].
  split.
  { intros k' Hne. rewrite !get_set_ne by exact Hne. reflexivity. }
  split; [apply get_set_eq |].
  split.
  { intros name w ->. rewrite get_set_ne by (eapply Hextra; reflexivity).
    apply get_set_eq. }
  split.
  { intros k' Hne Hname. rewrite get_set_ne by exact Hne.
    destruct extra as [[name w] |].
    - rewrite get_set_ne by (eapply Hname; reflexivity).
      rewrite get_set_ne by exact Hne. reflexivity.
    - rewrite get_set_ne by exact Hne. reflexivity. }
  split; [apply get_set_eq |].
  split.
  { intros k' Hne. apply get_set_ne. exact Hne. }
  intros Hk.
  destruct (keys_set outer (Obj sub0) m Hk) as [a1 E1].
  match goal with
  | |- exists added, map fst (set outer ?x ?f) = _ =>
      destruct (keys_set outer x f Hk) as [a2 E2]
  end.
  exists (a1 ++ a2). rewrite E2, E1, app_assoc. reflexivity.
Qed.

(** The nested assignment on a configuration that already holds the
    values. *)
Lemma assign_nested_fixed (outer inner : list N)
    (extra : option (list N * value)) (k : list N) (v : value)
    (out sub inside : list (list N * value)) :
  get outer out = Some (Obj sub) ->
  get inner sub = Some (Obj inside) ->
  (forall name w, extra = Some (name, w) -> get name sub = Some w) ->
  get k inside = Some v ->
  Cli.assign_nested outer inner extra k (Some v) out = Some (Some out).
Proof.
  intros Houter Hinner Hextra Hk. unfold Cli.assign_nested.
  rewrite (ensure_object outer out sub Houter).
  rewrite (ensure_object inner sub inside Hinner).
  assert (E : match extra with
              | Some (name, w) => set name w sub
              | None => sub
              end = sub).
  { destruct extra as [[name w] |]; [| reflexivity].
    apply set_same. eapply Hextra. reflexivity. }
  cbv zeta. rewrite E.
  rewrite (set_same k v inside Hk), (set_same inner _ sub Hinner),
    (set_same outer _ out Houter).
  reflexivity.
Qed.

Lemma child_of (k : list N) (fields sub : list (list N * value)) :
  get k fields = Some (Obj sub) -> child k fields = sub.
Proof.
  intros H. unfold child. rewrite H. reflexivity.
Qed.

Lemma child_frame (k : list N) (f g : list (list N * value)) :
  get k f = get k g -> child k f = child k g.
Proof.
  intros H. unfold child. rewrite H. reflexivity.
Qed.

Lemma absent_or_object_frame (k : list N) (f g : list (list N * value)) :
  get k f = get k g -> absent_or_object k g -> absent_or_object k f.
Proof.
  intros H. unfold absent_or_object. rewrite H. exact id.
Qed.

(** X30.  mergeConfig with a generated configuration that has a provider
    and a default model.  Where [models], [models.providers], [agents] and
    [agents.defaults] of the existing configuration are each missing or an
    object, the merged configuration has the provider under
    [models.providers], the mode [merge] and the default model under
    [agents.defaults]; every other property at each of these levels,
    other providers among them, is as it was; the properties that were
    there keep their places, new ones following them; and merging once
    more changes nothing.  Where [models] holds [true], a number other
    than zero or a string that is not empty, the merge throws a
    TypeError. *)
Theorem mergeConfig_keeps_the_rest (m : list (list N * value))
    (c p d : value)
    (Hp : Cli.read_path c
            [js "models"; js "providers"; js "litellm-clawrouter"] = Some p)
    (Hd : Cli.read_path c [js "agents"; js "defaults"; js "model"] = Some d) :
  (absent_or_object (js "models") m ->
   absent_or_object (js "providers") (child (js "models") m) ->
   absent_or_object (js "agents") m ->
   absent_or_object (js "defaults") (child (js "agents") m) ->
   exists out,
     Cli.mergeConfig (Obj m) c = Cli.Merged (Obj out)
     /\ Cli.read_path (Obj out)
          [js "models"; js "providers"; js "litellm-clawrouter"] = Some p
     /\ Cli.read_path (Obj out) [js "models"; js "mode"]
        = Some (Str (js "merge"))
     /\ Cli.read_path (Obj out) [js "agents"; js "defaults"; js "model"]
        = Some d
     /\ (forall k, k <> js "models" -> k <> js "agents" ->
           get k out = get k m)
     /\ (forall k, k <> js "providers" -> k <> js "mode" ->
           get k (child (js "models") out) = get k (child (js "models") m))
     /\ (forall k, k <> js "litellm-clawrouter" ->
           get k (child (js "providers") (child (js "models") out))
           = get k (child (js "providers") (child (js "models") m)))
     /\ (forall k, k <> js "defaults" ->
           get k (child (js "agents") out) = get k (child (js "agents") m))
     /\ (forall k, k <> js "model" ->
           get k (child (js "defaults") (child (js "agents") out))
           = get k (child (js "defaults") (child (js "agents") m)))
     /\ (exists added, map fst out = map fst m ++ added)
     /\ Cli.mergeConfig (Obj out) c = Cli.Merged (Obj out))
  /\ (forall v, get (js "models") m = Some v -> truthy_primitive v ->
      Cli.mergeConfig (Obj m) c = Cli.TypeError).
Proof.
  assert (Hma : js "models" <> js "agents") by (vm_compute; discriminate).
  assert (Ham : js "agents" <> js "models") by (vm_compute; discriminate).
  assert (Hmp : js "mode" <> js "providers") by (vm_compute; discriminate).
  split.
  - intros Hmodels Hproviders Hagents Hdefaults.
    destruct (assign_nested_spec (js "models") (js "providers")
                (Some (js "mode", Str (js "merge")))
                (js "litellm-clawrouter") p m Hmodels Hproviders)
      as (m1 & sub1 & in1 & E1 & G1 & F1 & Gi1 & X1 & Fs1 & Gk1 & Fk1 & K1).
    { intros name w [= <- <-]. exact Hmp. }
    assert (Hagents1 : absent_or_object (js "agents") m1)
      by (apply (absent_or_object_frame _ _ m (F1 _ Ham)); exact Hagents).
    assert (Hchild1 : child (js "agents") m1 = child (js "agents") m)
      by (apply child_frame, F1; exact Ham).
    destruct (assign_nested_spec (js "agents") (js "defaults") None
                (js "model") d m1 Hagents1)
      as (out & sub2 & in2 & E2 & G2 & F2 & Gi2 & X2 & Fs2 & Gk2 & Fk2 & K2).
    { rewrite Hchild1. exact Hdefaults. }
    { intros name w [=]. }
    assert (Gm : get (js "models") out = Some (Obj sub1))
      by (rewrite (F2 _ Hma); exact G1).
    exists out.
    split.
    { unfold Cli.mergeConfig. cbn [Cli.spread]. rewrite Hp, E1, Hd, E2.
      reflexivity. }
    split.
    { rewrite (read_path_get _ _ _ _ Gm), (read_path_get _ _ _ _ Gi1),
        (read_path_get _ _ _ _ Gk1).
      reflexivity. }
    split.
    { rewrite (read_path_get _ _ _ _ Gm),
        (read_path_get _ _ _ _ (X1 _ _ eq_refl)).
      reflexivity. }
    split.
    { rewrite (read_path_get _ _ _ _ G2), (read_path_get _ _ _ _ Gi2),
        (read_path_get _ _ _ _ Gk2).
      reflexivity. }
    split.
    { intros k Hk1 Hk2. rewrite (F2 _ Hk2). apply F1. exact Hk1. }
    split.
    { intros k Hk1 Hk2. rewrite (child_of _ _ _ Gm). apply Fs1; [exact Hk1 |].
      intros name w [= <- <-]. exact Hk2. }
    split.
    { intros k Hk. rewrite (child_of _ _ _ Gm), (child_of _ _ _ Gi1).
      apply Fk1. exact Hk. }
    split.
    { intros k Hk. rewrite (child_of _ _ _ G2), <- Hchild1.
      apply Fs2; [exact Hk |]. intros name w [=]. }
    split.
    { intros k Hk. rewrite (child_of _ _ _ G2), (child_of _ _ _ Gi2).
      rewrite <- Hchild1. apply Fk2. exact Hk. }
    split.
    { destruct K1 as [a1 Ea1]; [vm_compute; reflexivity |].
      destruct K2 as [a2 Ea2]; [vm_compute; reflexivity |].
      exists (a1 ++ a2). rewrite Ea2, Ea1, app_assoc. reflexivity. }
    unfold Cli.mergeConfig. cbn [Cli.spread]. rewrite Hp.
    rewrite (assign_nested_fixed (js "models") (js "providers") _
               (js "litellm-clawrouter") p out sub1 in1 Gm Gi1);
      [| intros name w [= <- <-]; exact (X1 _ _ eq_refl) | exact Gk1].
    rewrite Hd.
    rewrite (assign_nested_fixed (js "agents") (js "defaults") None
               (js "model") d out sub2 in2 G2 Gi2);
      [reflexivity | intros name w [=] | exact Gk2].
  - intros v Hv Hprim. unfold Cli.mergeConfig, Cli.assign_nested, Cli.ensure.
    cbn [Cli.spread]. rewrite Hv. cbv beta iota delta [from_option id].
    destruct Hprim as [-> | [(n & -> & Hn) | (u & s & ->)]];
      [reflexivity | | reflexivity].
    apply Z.eqb_neq in Hn. rewrite Hn. reflexivity.
Qed.

Lemma mergeConfig_keeps_the_rest_witness :
  exists out,
    Cli.mergeConfig (Obj existing_config) generated_config
    = Cli.Merged (Obj out)
    /\ get (js "theme") out = Some (Str (js "dark"))
    /\ Cli.mergeConfig (Obj out) generated_config = Cli.Merged (Obj out).
Proof.
  assert (Hp : Cli.read_path generated_config
                 [js "models"; js "providers"; js "litellm-clawrouter"]
               = Some (default Undefined
                         (Cli.read_path generated_config
                            [js "models"; js "providers";
                             js "litellm-clawrouter"])))
    by (vm_compute; reflexivity).
  assert (Hd : Cli.read_path generated_config
                 [js "agents"; js "defaults"; js "model"]
               = Some (default Undefined
                         (Cli.read_path generated_config
                            [js "agents"; js "defaults"; js "model"])))
    by (vm_compute; reflexivity).
  destruct (proj1 (mergeConfig_keeps_the_rest existing_config
                     generated_config _ _ Hp Hd))
    as (out & E & _ & _ & _ & F & _ & _ & _ & _ & _ & I).
  - right. eexists. vm_compute. reflexivity.
  - right. eexists. vm_compute. reflexivity.
  - left. vm_compute. reflexivity.
  - left. vm_compute. reflexivity.
  - exists out. split; [exact E |]. split; [| exact I].
    rewrite F; [vm_compute; reflexivity | |]; vm_compute; discriminate.
Defined.
